(** * Three-way merge (edenscm/simplemerge.py): a shallow embedding

    The development follows the layout of the Python module: the Python
    primitives the code relies on (indexing, slicing, [range], [join],
    [splitlines]), the interface of the [mdiff] module, then [intersect],
    [compare_range], [splitwordswithoutemptylines], the [Merge3Text]
    class with [find_sync_regions], [merge_regions], [minimize] and
    [merge_lines], and [trywordmerge].  Byte strings are [string]s,
    Python integers are [Z], exceptions are values of [exn]. *)

From Stdlib Require Import ZArith List String Ascii Bool Lia.
Import ListNotations.
Open Scope string_scope.
Open Scope list_scope.
Open Scope Z_scope.

(** ** Python primitives *)

Abbreviation bytes := string.

Definition LF : ascii := "010"%char.
Definition CR : ascii := "013"%char.
Definition BACKSLASH : ascii := "092"%char.
Definition nl : bytes := String LF EmptyString.

(** Exceptions the module can raise.  [AssertionError] carries what the
    [assert] statement attaches to it. *)
Inductive assert_info :=
| NoInfo
| Msg (m : string)
| Slices (l1 l2 : list bytes).

Inductive exn :=
| CantShowWordConflicts
| AssertionError (info : assert_info)
| IndexError
| RecursionError.

Inductive result (A : Type) :=
| Ok (x : A)
| Raise (e : exn).
Arguments Ok {A} x.
Arguments Raise {A} e.

Definition bind {A B} (r : result A) (k : A -> result B) : result B :=
  match r with
  | Ok x => k x
  | Raise e => Raise e
  end.

Notation "x <- r ;; k" := (bind r (fun x => k))
  (at level 61, r at next level, right associativity).

Definition assert (c : bool) (info : assert_info) : result unit :=
  if c then Ok tt else Raise (AssertionError info).

Module Py.

Definition len {A} (l : list A) : Z := Z.of_nat (List.length l).

(** [l[i]]: a negative index counts from the end, an index out of
    range raises IndexError. *)
Definition getitem {A} (l : list A) (i : Z) : option A :=
  if i <? 0
  then if i + len l <? 0 then None else nth_error l (Z.to_nat (i + len l))
  else nth_error l (Z.to_nat i).

Definition index {A} (l : list A) (i : Z) : result A :=
  match getitem l i with
  | Some x => Ok x
  | None => Raise IndexError
  end.

(** Bound of a slice: negative bounds count from the end, then the
    bound is clamped into [0, len]. *)
Definition clamp (n i : Z) : Z :=
  Z.max 0 (Z.min n (if i <? 0 then i + n else i)).

(** [l[i:j]] *)
Definition slice {A} (l : list A) (i j : Z) : list A :=
  let lo := clamp (len l) i in
  let hi := clamp (len l) j in
  firstn (Z.to_nat (hi - lo)) (skipn (Z.to_nat lo) l).

(** [range(lo, hi)] *)
Definition range (lo hi : Z) : list Z :=
  map (fun k => lo + Z.of_nat k) (seq 0 (Z.to_nat (hi - lo))).

(** [b"".join(l)] *)
Definition join (l : list bytes) : bytes := String.concat "" l.

(** [s.endswith(suffix)] *)
Definition endswith (s suffix : bytes) : bool :=
  let n := String.length s in
  let m := String.length suffix in
  (m <=? n)%nat && String.eqb (substring (n - m)%nat m s) suffix.

(** [s.replace(c, r)] for a one-byte pattern [c]. *)
Fixpoint replace (c : ascii) (r : bytes) (s : bytes) : bytes :=
  match s with
  | EmptyString => EmptyString
  | String x s' =>
      if Ascii.eqb x c then (r ++ replace c r s')%string
      else String x (replace c r s')
  end.

(** [s.splitlines(True)] on bytes: lines end at "\n", "\r\n" or "\r",
    and keep their terminator.  [cur] is the line read so far. *)
Fixpoint splitlines_from (cur : bytes) (s : bytes) : list bytes :=
  match s with
  | EmptyString => if String.eqb cur "" then [] else [cur]
  | String c s' =>
      if Ascii.eqb c LF then
        (cur ++ String LF EmptyString)%string :: splitlines_from "" s'
      else if Ascii.eqb c CR then
        match s' with
        | String c' s'' =>
            if Ascii.eqb c' LF
            then (cur ++ String CR (String LF EmptyString))%string
                   :: splitlines_from "" s''
            else (cur ++ String CR EmptyString)%string :: splitlines_from "" s'
        | EmptyString => [(cur ++ String CR EmptyString)%string]
        end
      else splitlines_from (cur ++ String c EmptyString)%string s'
  end.

Definition splitlines_keepends (s : bytes) : list bytes :=
  splitlines_from "" s.

(** Truth value of an optional byte string ([None] and [b""] are
    false). *)
Definition truthy (o : option bytes) : bool :=
  match o with
  | Some s => negb (String.eqb s "")
  | None => false
  end.

Definition tokens_eqb (x y : list bytes) : bool :=
  if list_eq_dec string_dec x y then true else false.

End Py.

(** ** The [mdiff] module

    [simplemerge.py] imports three functions of [mdiff]; the merge code
    is parametric in them. *)
Abbreviation block := (Z * Z * Z)%type.

(** A sync region [(z1, z2, a1, a2, b1, b2)]. *)
Abbreviation sync_region := (Z * Z * Z * Z * Z * Z)%type.

Class Mdiff := {
  splitnewlines : bytes -> list bytes;
  splitwords : bytes -> list bytes;
  get_matching_blocks : bytes -> bytes -> list block
}.

(** ** Module-level functions *)

(** [intersect(ra, rb)] *)
Definition intersect (ra rb : Z * Z) : result (option (Z * Z)) :=
  _ <- assert (fst ra <=? snd ra) NoInfo ;;
  _ <- assert (fst rb <=? snd rb) NoInfo ;;
  let sa := Z.max (fst ra) (fst rb) in
  let sb := Z.min (snd ra) (snd rb) in
  if sa <? sb then Ok (Some (sa, sb)) else Ok None.

(** The loop of [compare_range] over the zipped index ranges. *)
Fixpoint compare_loop (a b : list bytes) (ixs : list (Z * Z)) : result bool :=
  match ixs with
  | [] => Ok true
  | (ia, ib) :: rest =>
      x <- Py.index a ia ;;
      y <- Py.index b ib ;;
      if negb (String.eqb x y) then Ok false else compare_loop a b rest
  end.

(** [compare_range(a, astart, aend, b, bstart, bend)] *)
Definition compare_range (a : list bytes) (astart aend : Z)
    (b : list bytes) (bstart bend : Z) : result bool :=
  if negb (aend - astart =? bend - bstart) then Ok false
  else compare_loop a b (combine (Py.range astart aend) (Py.range bstart bend)).

Inductive wordmergemode := enforced | ondemand | disabled.

Definition wordmergemode_eqb (x y : wordmergemode) : bool :=
  match x, y with
  | enforced, enforced | ondemand, ondemand | disabled, disabled => true
  | _, _ => false
  end.

(** The loop of [splitwordswithoutemptylines]: [buf] collects the words
    of the token being built. *)
Fixpoint fold_newlines (words : list bytes) (buf : list bytes) : list bytes :=
  match words with
  | [] => match buf with [] => [] | _ :: _ => [Py.join buf] end
  | word :: rest =>
      if negb (String.eqb word nl) && negb (Py.len buf =? 0)
      then Py.join buf :: fold_newlines rest [word]
      else fold_newlines rest (buf ++ [word])
  end.

(** The keyword arguments of [Merge3Text.merge_lines]. *)
Module Args.
Record t := {
  name_a : option bytes;
  name_b : option bytes;
  name_base : option bytes;
  start_marker : option bytes;
  mid_marker : option bytes;
  end_marker : option bytes;
  base_marker : option bytes;
  localorother : option string;
  minimize : bool
}.

Definition default : t :=
  {| name_a := None; name_b := None; name_base := None;
     start_marker := Some "<<<<<<<";
     mid_marker := Some "=======";
     end_marker := Some ">>>>>>>";
     base_marker := None;
     localorother := None;
     minimize := false |}.
End Args.

(** What [merge_lines] yields.  The payload is the byte string the
    generator yields; the constructor records which [yield] statement
    produced it: a token of [base], [a] or [b], a marker line, or a line
    of a word-merged text. *)
Inductive chunk :=
| Token (s : bytes)
| Marker (s : bytes)
| Merged (s : bytes).

Definition chunk_bytes (c : chunk) : bytes :=
  match c with Token s | Marker s | Merged s => s end.

Definition is_token (c : chunk) : bool :=
  match c with Token _ => true | _ => false end.

(** The state [merge_lines] works on: what it has yielded so far and the
    attributes [self.conflicts] and [self.conflictscount]. *)
Record rstate := {
  out : list chunk;
  conflicts : bool;
  conflictscount : Z
}.

(** A fragment of a generator body: it runs from a state and either
    falls through or raises. *)
Definition gen := rstate -> rstate * option exn.

Definition pass : gen := fun st => (st, None).
Definition raise (e : exn) : gen := fun st => (st, Some e).

(** The state after yielding the chunks [cs]. *)
Definition emit (cs : list chunk) (st : rstate) : rstate :=
  {| out := out st ++ cs; conflicts := conflicts st;
     conflictscount := conflictscount st |}.

Definition yield (c : chunk) : gen := fun st => (emit [c] st, None).
Definition and_then (g1 g2 : gen) : gen := fun st =>
  match g1 st with
  | (st', None) => g2 st'
  | (st', Some e) => (st', Some e)
  end.

Notation "g1 >> g2" := (and_then g1 g2) (at level 62, right associativity).

Fixpoint for_each {X} (xs : list X) (body : X -> gen) : gen :=
  match xs with
  | [] => pass
  | x :: xs' => body x >> for_each xs' body
  end.

Section Merge.

Context {md : Mdiff}.

Definition splitwordswithoutemptylines (text : bytes) : list bytes :=
  fold_newlines (splitwords text) [].

(** ** class Merge3Text *)

Record Merge3Text := {
  basetext : bytes;
  atext : bytes;
  btext : bytes;
  base : list bytes;
  a : list bytes;
  b : list bytes;
  wordmerge : wordmergemode
}.

(** [Merge3Text.__init__] *)
Definition Merge3Text_init (basetext atext btext : bytes)
    (wordmerge : wordmergemode) : Merge3Text :=
  let split :=
    if wordmergemode_eqb wordmerge enforced
    then splitwordswithoutemptylines
    else splitnewlines in
  {| basetext := basetext; atext := atext; btext := btext;
     base := split basetext; a := split atext; b := split btext;
     wordmerge := wordmerge |}.

(** *** find_sync_regions *)

(** [escape] and [concat], local to [find_sync_regions]. *)
Definition escape (word : bytes) : bytes :=
  (Py.replace LF (String BACKSLASH (String "n"%char EmptyString))
     (Py.replace BACKSLASH (String BACKSLASH (String BACKSLASH EmptyString)) word)
   ++ nl)%string.

Definition concat_escaped (words : list bytes) : bytes :=
  Py.join (map escape words).

(** The texts handed to the matcher. *)
Definition matcher_texts (self : Merge3Text) : bytes * bytes * bytes :=
  if wordmergemode_eqb (wordmerge self) enforced
  then (concat_escaped (base self), concat_escaped (a self), concat_escaped (b self))
  else (basetext self, atext self, btext self).

(** One round of the [while] loop at the blocks [amatches[ia]] and
    [bmatches[ib]]: the sync region appended to [sl], if any. *)
Definition sync_of_blocks (self : Merge3Text) (ablock bblock : block)
    : result (option sync_region) :=
  let '(abase, amatch, alen) := ablock in
  let '(bbase, bmatch, blen) := bblock in
  i <- intersect (abase, abase + alen) (bbase, bbase + blen) ;;
  match i with
  | Some (intbase, intend) =>
      let intlen := intend - intbase in
      _ <- assert (intlen <=? alen) NoInfo ;;
      _ <- assert (intlen <=? blen) NoInfo ;;
      _ <- assert (abase <=? intbase) NoInfo ;;
      _ <- assert (bbase <=? intbase) NoInfo ;;
      let asub := amatch + (intbase - abase) in
      let bsub := bmatch + (intbase - bbase) in
      let aend := asub + intlen in
      let bend := bsub + intlen in
      _ <- assert (Py.tokens_eqb (Py.slice (base self) intbase intend)
                                 (Py.slice (a self) asub aend))
             (Slices (Py.slice (base self) intbase intend)
                     (Py.slice (a self) asub aend)) ;;
      _ <- assert (Py.tokens_eqb (Py.slice (base self) intbase intend)
                                 (Py.slice (b self) bsub bend)) NoInfo ;;
      Ok (Some (intbase, intend, asub, aend, bsub, bend))
  | None => Ok None
  end.

Definition block_end (k : block) : Z := fst (fst k) + snd k.

(** The [while ia < len_a and ib < len_b] loop; the two cursors are the
    remaining suffixes of [amatches] and [bmatches], the result is what
    the loop appends to [sl]. *)
Fixpoint sync_loop (self : Merge3Text) (amatches : list block)
    : list block -> result (list sync_region) :=
  fix walk_b (bmatches : list block) : result (list sync_region) :=
    match amatches, bmatches with
    | ablock :: amatches', bblock :: bmatches' =>
        s <- sync_of_blocks self ablock bblock ;;
        rest <- (if block_end ablock <? block_end bblock
                 then sync_loop self amatches' bmatches
                 else walk_b bmatches') ;;
        Ok (match s with Some r => r :: rest | None => rest end)
    | _, _ => Ok []
    end.

Definition final_sync (self : Merge3Text) : sync_region :=
  (Py.len (base self), Py.len (base self),
   Py.len (a self), Py.len (a self),
   Py.len (b self), Py.len (b self)).

Definition find_sync_regions (self : Merge3Text) : result (list sync_region) :=
  let '(basetext, atext, btext) := matcher_texts self in
  let amatches := get_matching_blocks basetext atext in
  let bmatches := get_matching_blocks basetext btext in
  sl <- sync_loop self amatches bmatches ;;
  Ok (sl ++ [final_sync self]).

(** *** merge_regions *)

(** The tuples ['unchanged', z1, z2], ['same', a1, a2], ['a', a1, a2],
    ['b', b1, b2] and ['conflict', z1, z2, a1, a2, b1, b2].  A region
    has one of these five kinds, so the [raise ValueError(what)] that
    ends the dispatch in [merge_lines] has no counterpart. *)
Inductive region :=
| Unchanged (z1 z2 : Z)
| Same (a1 a2 : Z)
| TakeA (a1 a2 : Z)
| TakeB (b1 b2 : Z)
| Conflict (z1 z2 a1 a2 b1 b2 : Z).

(** What a generator produces: the values it yields, and the exception
    that ends it when it does not return. *)
Definition stream (A : Type) := (list A * option exn)%type.

Definition sraise {A} (e : exn) : stream A := ([], Some e).
Definition sapp {A} (l : list A) (s : stream A) : stream A := (l ++ fst s, snd s).

(** The classification of the gap before a sync region. *)
Definition classify_gap (self : Merge3Text) (iz zmatch ia amatch ib bmatch : Z)
    : result region :=
  equal_a <- compare_range (a self) ia amatch (base self) iz zmatch ;;
  equal_b <- compare_range (b self) ib bmatch (base self) iz zmatch ;;
  same <- compare_range (a self) ia amatch (b self) ib bmatch ;;
  if same then Ok (Same ia amatch)
  else if equal_a && negb equal_b then Ok (TakeB ib bmatch)
  else if equal_b && negb equal_a then Ok (TakeA ia amatch)
  else if negb equal_a && negb equal_b
       then Ok (Conflict iz zmatch ia amatch ib bmatch)
  else Raise (AssertionError (Msg "can't handle a=b=base but unmatched")).

(** The part of the loop body before the first [yield]. *)
Definition gap_before (self : Merge3Text) (iz ia ib : Z) (r : sync_region)
    : result (option region) :=
  let '(zmatch, zend, amatch, aend, bmatch, bend) := r in
  let matchlen := zend - zmatch in
  _ <- assert (0 <=? matchlen) NoInfo ;;
  _ <- assert (matchlen =? aend - amatch) NoInfo ;;
  _ <- assert (matchlen =? bend - bmatch) NoInfo ;;
  let len_a := amatch - ia in
  let len_b := bmatch - ib in
  let len_base := zmatch - iz in
  _ <- assert (0 <=? len_a) NoInfo ;;
  _ <- assert (0 <=? len_b) NoInfo ;;
  _ <- assert (0 <=? len_base) NoInfo ;;
  if negb (len_a =? 0) || negb (len_b =? 0)
  then g <- classify_gap self iz zmatch ia amatch ib bmatch ;; Ok (Some g)
  else Ok None.

(** The [for region in self.find_sync_regions()] loop with its cursors
    [iz], [ia], [ib]. *)
Fixpoint regions_loop (self : Merge3Text) (syncs : list sync_region)
    (iz ia ib : Z) : stream region :=
  match syncs with
  | [] => ([], None)
  | (zmatch, zend, amatch, aend, bmatch, bend) as r :: rest =>
      match gap_before self iz ia ib r with
      | Raise e => sraise e
      | Ok gap =>
          let '(yielded, ia1, ib1) :=
            match gap with
            | Some g => ([g], amatch, bmatch)
            | None => ([], ia, ib)
            end in
          let iz1 := zmatch in
          sapp yielded
            (if 0 <? zend - zmatch then
               match (_ <- assert (ia1 =? amatch) NoInfo ;;
                      _ <- assert (ib1 =? bmatch) NoInfo ;;
                      assert (iz1 =? zmatch) NoInfo) with
               | Raise e => sraise e
               | Ok _ => sapp [Unchanged zmatch zend]
                              (regions_loop self rest zend aend bend)
               end
             else regions_loop self rest iz1 ia1 ib1)
      end
  end.

Definition merge_regions (self : Merge3Text) : stream region :=
  match find_sync_regions self with
  | Raise e => sraise e
  | Ok syncs => regions_loop self syncs 0 0 0
  end.

(** *** minimize *)

(** The two [while] loops: the number of leading index pairs whose
    tokens are equal. *)
Fixpoint count_matches (x y : list bytes) (ixs : list (Z * Z)) : result Z :=
  match ixs with
  | [] => Ok 0
  | (i, j) :: rest =>
      u <- Py.index x i ;;
      v <- Py.index y j ;;
      if String.eqb u v
      then n <- count_matches x y rest ;; Ok (n + 1)
      else Ok 0
  end.

Definition minimize_region (self : Merge3Text) (r : region) : result (list region) :=
  match r with
  | Conflict z1 z2 a1 a2 b1 b2 =>
      let alen := a2 - a1 in
      let blen := b2 - b1 in
      let iis := Py.range 0 (Z.min alen blen) in
      startmatches <-
        count_matches (a self) (b self) (map (fun ii => (a1 + ii, b1 + ii)) iis) ;;
      endmatches <-
        count_matches (a self) (b self)
          (map (fun ii => (a2 - ii - 1, b2 - ii - 1)) iis) ;;
      Ok ((if 0 <? startmatches then [Same a1 (a1 + startmatches)] else [])
          ++ [Conflict z1 z2 (a1 + startmatches) (a2 - endmatches)
                             (b1 + startmatches) (b2 - endmatches)]
          ++ (if 0 <? endmatches then [Same (a2 - endmatches) a2] else []))
  | _ => Ok [r]
  end.

Fixpoint minimize_list (self : Merge3Text) (rs : list region)
    (tail : option exn) : stream region :=
  match rs with
  | [] => ([], tail)
  | r :: rest =>
      match minimize_region self r with
      | Raise e => sraise e
      | Ok l => sapp l (minimize_list self rest tail)
      end
  end.

Definition minimize (self : Merge3Text) (merge_regions : stream region)
    : stream region :=
  minimize_list self (fst merge_regions) (snd merge_regions).

(** *** merge_lines *)

(** [for i in range(lo, hi): yield l[i]] *)
Definition yield_item (l : list bytes) (i : Z) : gen :=
  match Py.getitem l i with
  | Some x => yield (Token x)
  | None => raise IndexError
  end.

Definition yield_range (l : list bytes) (lo hi : Z) : gen :=
  for_each (Py.range lo hi) (yield_item l).

(** [if marker is not None: yield marker + newline] *)
Definition yield_marker (marker : option bytes) (newline : bytes) : gen :=
  match marker with
  | Some m => yield (Marker (m ++ newline)%string)
  | None => pass
  end.

(** [if name and marker: marker = marker + b" " + name] *)
Definition labelled (marker name : option bytes) : option bytes :=
  match name, marker with
  | Some n, Some m =>
      if Py.truthy name && Py.truthy marker
      then Some (m ++ " " ++ n)%string
      else marker
  | _, _ => marker
  end.

Definition sniff_newline (self : Merge3Text) : bytes :=
  match a self with
  | first :: _ =>
      if Py.endswith first (String CR (String LF EmptyString))
      then String CR (String LF EmptyString)
      else if Py.endswith first (String CR EmptyString)
           then String CR EmptyString
           else nl
  | [] => nl
  end.

(** The tail of the [conflict] branch: count the conflict and show it
    between markers. *)
Definition show_conflict (self : Merge3Text)
    (start_marker mid_marker end_marker base_marker : option bytes)
    (newline : bytes) (z1 z2 a1 a2 b1 b2 : Z) : gen :=
  (fun st => ({| out := out st; conflicts := true;
                 conflictscount := conflictscount st + 1 |}, None))
  >> yield_marker start_marker newline
  >> yield_range (a self) a1 a2
  >> match base_marker with
     | Some m => yield (Marker (m ++ newline)%string)
                 >> yield_range (base self) z1 z2
     | None => pass
     end
  >> yield_marker mid_marker newline
  >> yield_range (b self) b1 b2
  >> yield_marker end_marker newline.

Definition option_string_eqb (o : option string) (s : string) : bool :=
  match o with
  | Some x => String.eqb x s
  | None => false
  end.

(** The body of [for t in merge_regions].  [trywordmerge] is the
    function the [ondemand] branch calls. *)
Definition render_region
    (trywordmerge : bytes -> bytes -> bytes -> result (option bytes))
    (self : Merge3Text)
    (start_marker mid_marker end_marker base_marker : option bytes)
    (newline : bytes) (localorother : option string) (t : region) : gen :=
  match t with
  | Unchanged z1 z2 => yield_range (base self) z1 z2
  | Same a1 a2 | TakeA a1 a2 => yield_range (a self) a1 a2
  | TakeB b1 b2 => yield_range (b self) b1 b2
  | Conflict z1 z2 a1 a2 b1 b2 =>
      let show :=
        show_conflict self start_marker mid_marker end_marker base_marker
          newline z1 z2 a1 a2 b1 b2 in
      if option_string_eqb localorother "local" then
        yield_range (a self) a1 a2
      else if option_string_eqb localorother "other" then
        yield_range (b self) b1 b2
      else
        match wordmerge self with
        | enforced =>
            (fun st => ({| out := out st; conflicts := true;
                           conflictscount := conflictscount st |}, None))
            >> raise CantShowWordConflicts
        | ondemand =>
            let subbasetext := Py.join (Py.slice (base self) z1 z2) in
            let subatext := Py.join (Py.slice (a self) a1 a2) in
            let subbtext := Py.join (Py.slice (b self) b1 b2) in
            match trywordmerge subbasetext subatext subbtext with
            | Raise e => raise e
            | Ok text =>
                match text with
                | Some resolved =>
                    if Py.truthy text
                    then for_each (Py.splitlines_keepends resolved)
                           (fun line => yield (Merged line))
                    else show
                | None => show
                end
            end
        | disabled => show
        end
  end.

(** Running the loop over what the region generator produces. *)
Definition consume (body : region -> gen) (regions : stream region) : gen :=
  for_each (fst regions) body
  >> match snd regions with
     | Some e => raise e
     | None => pass
     end.

Definition merge_lines_with
    (trywordmerge : bytes -> bytes -> bytes -> result (option bytes))
    (self : Merge3Text) (args : Args.t) : rstate * option exn :=
  let newline := sniff_newline self in
  let start_marker := labelled (Args.start_marker args) (Args.name_a args) in
  let end_marker := labelled (Args.end_marker args) (Args.name_b args) in
  let base_marker := labelled (Args.base_marker args) (Args.name_base args) in
  let merge_regions := merge_regions self in
  let merge_regions :=
    if Args.minimize args then minimize self merge_regions else merge_regions in
  consume
    (render_region trywordmerge self start_marker (Args.mid_marker args)
       end_marker base_marker newline (Args.localorother args))
    merge_regions
    {| out := []; conflicts := false; conflictscount := 0 |}.

(** *** trywordmerge *)

(** [trywordmerge], given the function its inner [merge_lines] would
    call for a further word merge. *)
Definition trywordmerge_with
    (inner : bytes -> bytes -> bytes -> result (option bytes))
    (basetext atext btext : bytes) : result (option bytes) :=
  let m3 := Merge3Text_init basetext atext btext enforced in
  match merge_lines_with inner m3 Args.default with
  | (st, None) => Ok (Some (Py.join (map chunk_bytes (out st))))
  | (_, Some CantShowWordConflicts) => Ok None
  | (_, Some e) => Raise e
  end.

(** [merge_lines] and [trywordmerge] call each other.  [depth] is the
    number of nested merges still allowed; a further one raises
    RecursionError. *)
Fixpoint trywordmerge_at (depth : nat)
    : bytes -> bytes -> bytes -> result (option bytes) :=
  match depth with
  | O => fun _ _ _ => Raise RecursionError
  | S d => trywordmerge_with (trywordmerge_at d)
  end.

Definition merge_lines_at (depth : nat) (self : Merge3Text) (args : Args.t)
    : rstate * option exn :=
  merge_lines_with (trywordmerge_at depth) self args.

Definition trywordmerge : bytes -> bytes -> bytes -> result (option bytes) :=
  trywordmerge_at 1.

Definition merge_lines : Merge3Text -> Args.t -> rstate * option exn :=
  merge_lines_at 1.

(** What a consumer of the generator sees. *)
Definition lines (r : rstate * option exn) : list bytes :=
  map chunk_bytes (out (fst r)).

Definition merged_text (r : rstate * option exn) : bytes :=
  Py.join (lines r).

End Merge.

(** ** A model of [mdiff]

    The three functions are defined in [edenscm/mdiff.py], which is not
    part of the sources at hand. *)
Module SpecMdiff.

(** Modelled from the spec: [mdiff.splitnewlines], the line
    tokenization: split after each line terminator ("\n", "\r\n" or
    "\r"), the terminator stays attached to its line, the final token
    may lack a terminator. *)
Definition splitnewlines (text : bytes) : list bytes :=
  Py.splitlines_keepends text.

Definition is_space (c : ascii) : bool :=
  Ascii.eqb c " "%char || Ascii.eqb c "009"%char || Ascii.eqb c CR
  || Ascii.eqb c "011"%char || Ascii.eqb c "012"%char.

Definition flush (cur : bytes) : list bytes :=
  if String.eqb cur "" then [] else [cur].

Fixpoint words_from (cur : bytes) (space : bool) (s : bytes) : list bytes :=
  match s with
  | EmptyString => flush cur
  | String c s' =>
      if Ascii.eqb c LF then flush cur ++ nl :: words_from "" false s'
      else if String.eqb cur "" then
        words_from (String c EmptyString) (is_space c) s'
      else if Bool.eqb (is_space c) space then
        words_from (cur ++ String c EmptyString)%string space s'
      else cur :: words_from (String c EmptyString) (is_space c) s'
  end.

(** Modelled from the spec: [mdiff.splitwords], the split into words:
    maximal runs of whitespace or of non-whitespace, with "\n" as its
    own token. *)
Definition splitwords (text : bytes) : list bytes :=
  words_from "" false text.

(** The lines the matcher aligns: split after each "\n". *)
Fixpoint lines_from (cur : bytes) (s : bytes) : list bytes :=
  match s with
  | EmptyString => flush cur
  | String c s' =>
      if Ascii.eqb c LF
      then (cur ++ String c EmptyString)%string :: lines_from "" s'
      else lines_from (cur ++ String c EmptyString)%string s'
  end.

(** A longest common subsequence of [x] and [y], as the pairs of
    positions it matches; [i] and [j] are the positions of the heads. *)
Fixpoint lcs (x : list bytes) (i : Z) : list bytes -> Z -> list (Z * Z) :=
  fix lcs_y (y : list bytes) (j : Z) : list (Z * Z) :=
    match x, y with
    | u :: x', v :: y' =>
        if String.eqb u v then (i, j) :: lcs x' (i + 1) y' (j + 1)
        else
          let skip_x := lcs x' (i + 1) y j in
          let skip_y := lcs_y y' (j + 1) in
          if (List.length skip_y <=? List.length skip_x)%nat
          then skip_x else skip_y
    | _, _ => []
    end.

(** Adjacent matched positions grouped into maximal blocks; [cur] is
    the block being extended. *)
Fixpoint group (cur : block) (ps : list (Z * Z)) : list block :=
  match ps with
  | [] => [cur]
  | (i, j) :: ps' =>
      let '(bi, bj, n) := cur in
      if (i =? bi + n) && (j =? bj + n)
      then group (bi, bj, n + 1) ps'
      else cur :: group (i, j, 1) ps'
  end.

(** Modelled from the spec: [mdiff.get_matching_blocks], the matcher:
    the matching blocks [(x_off, y_off, len)] of a longest common
    subsequence of the lines of [x] and [y], ascending, not
    overlapping, ending with [(|x|, |y|, 0)]. *)
Definition get_matching_blocks (x y : bytes) : list block :=
  let lx := lines_from "" x in
  let ly := lines_from "" y in
  match lcs lx 0 ly 0 with
  | [] => []
  | (i, j) :: ps => group (i, j, 1) ps
  end ++ [(Py.len lx, Py.len ly, 0)].

Definition mdiff : Mdiff :=
  Build_Mdiff splitnewlines splitwords get_matching_blocks.

End SpecMdiff.

(** ** Vocabulary of the properties *)

Definition same_flags (st st' : rstate) : Prop :=
  conflicts st' = conflicts st /\ conflictscount st' = conflictscount st.

Definition flags_inv (st : rstate) : Prop :=
  (conflicts st = true <-> 0 < conflictscount st) /\ 0 <= conflictscount st.

Definition internal_fault (e : exn) : Prop :=
  e = IndexError
  \/ e = AssertionError NoInfo
  \/ exists l1 l2, e = AssertionError (Slices l1 l2).

Definition is_conflict (t : region) : bool :=
  match t with Conflict _ _ _ _ _ _ => true | _ => false end.

(** No side is forced. *)
Definition unforced (localorother : option string) : Prop :=
  option_string_eqb localorother "local" = false
  /\ option_string_eqb localorother "other" = false.

Definition unmatched : exn :=
  AssertionError (Msg "can't handle a=b=base but unmatched").

Definition sync_ok (self : Merge3Text) (r : sync_region) : Prop :=
  let '(z1, z2, a1, a2, b1, b2) := r in
  z2 - z1 = a2 - a1 /\ z2 - z1 = b2 - b1
  /\ Py.slice (base self) z1 z2 = Py.slice (a self) a1 a2
  /\ Py.slice (base self) z1 z2 = Py.slice (b self) b1 b2.

Definition line (s : string) : bytes := (s ++ nl)%string.

Definition within {A} (l : list A) (lo hi : Z) : Prop :=
  0 <= lo <= Py.len l /\ 0 <= hi <= Py.len l.

Definition region_within (self : Merge3Text) (t : region) : Prop :=
  match t with
  | Unchanged z1 z2 => within (base self) z1 z2
  | Same a1 a2 | TakeA a1 a2 => within (a self) a1 a2
  | TakeB b1 b2 => within (b self) b1 b2
  | Conflict z1 z2 a1 a2 b1 b2 =>
      within (base self) z1 z2 /\ within (a self) a1 a2
      /\ within (b self) b1 b2
  end.

Definition marker_chunk (marker : option bytes) (newline : bytes) : list chunk :=
  match marker with
  | Some m => [Marker (m ++ newline)%string]
  | None => []
  end.

Definition shown_conflict (self : Merge3Text)
    (start_marker mid_marker end_marker base_marker : option bytes)
    (newline : bytes) (z1 z2 a1 a2 b1 b2 : Z) : list chunk :=
  marker_chunk start_marker newline
  ++ map Token (Py.slice (a self) a1 a2)
  ++ match base_marker with
     | Some m => Marker (m ++ newline)%string
                 :: map Token (Py.slice (base self) z1 z2)
     | None => []
     end
  ++ marker_chunk mid_marker newline
  ++ map Token (Py.slice (b self) b1 b2)
  ++ marker_chunk end_marker newline.

(** The chunks of a region when no word merge is attempted. *)
Definition shown (self : Merge3Text)
    (start_marker mid_marker end_marker base_marker : option bytes)
    (newline : bytes) (localorother : option string) (t : region) : list chunk :=
  match t with
  | Unchanged z1 z2 => map Token (Py.slice (base self) z1 z2)
  | Same a1 a2 | TakeA a1 a2 => map Token (Py.slice (a self) a1 a2)
  | TakeB b1 b2 => map Token (Py.slice (b self) b1 b2)
  | Conflict z1 z2 a1 a2 b1 b2 =>
      if option_string_eqb localorother "local" then
        map Token (Py.slice (a self) a1 a2)
      else if option_string_eqb localorother "other" then
        map Token (Py.slice (b self) b1 b2)
      else shown_conflict self start_marker mid_marker end_marker base_marker
             newline z1 z2 a1 a2 b1 b2
  end.

(** Whether a region is counted as a conflict. *)
Definition counted (localorother : option string) (t : region) : bool :=
  is_conflict t
  && negb (option_string_eqb localorother "local")
  && negb (option_string_eqb localorother "other").

Definition count_of (localorother : option string) (rs : list region) : Z :=
  Z.of_nat (List.length (filter (counted localorother) rs)).

(** The state after yielding [cs] and counting [n] conflicts. *)
Definition rendered (st : rstate) (cs : list chunk) (n : Z) : rstate :=
  {| out := out st ++ cs;
     conflicts := conflicts st || (0 <? n);
     conflictscount := conflictscount st + n |}.

(** No word merge is attempted on the regions [rs]. *)
Definition plain (self : Merge3Text) (localorother : option string)
    (rs : list region) : Prop :=
  wordmerge self = disabled
  \/ forall t, In t rs -> counted localorother t = false.

(** [s] is one of the tokens [l[lo]], ..., [l[hi-1]]. *)
Definition has (l : list bytes) (lo hi : Z) (s : bytes) : Prop :=
  exists k, lo <= k < hi /\ Py.getitem l k = Some s.

Definition markers_of (cs : list chunk) : list chunk :=
  filter (fun c => negb (is_token c)) cs.

Definition same_tokens (cs1 cs2 : list chunk) : Prop :=
  forall s, In (Token s) cs1 <-> In (Token s) cs2.





Definition sync_within (self : Merge3Text) (r : sync_region) : Prop :=
  let '(z1, z2, a1, a2, b1, b2) := r in
  within (base self) z1 z2 /\ within (a self) a1 a2 /\ within (b self) b1 b2.

Definition with_minimize (m : bool) (args : Args.t) : Args.t :=
  {| Args.name_a := Args.name_a args;
     Args.name_b := Args.name_b args;
     Args.name_base := Args.name_base args;
     Args.start_marker := Args.start_marker args;
     Args.mid_marker := Args.mid_marker args;
     Args.end_marker := Args.end_marker args;
     Args.base_marker := Args.base_marker args;
     Args.localorother := Args.localorother args;
     Args.minimize := m |}.

Definition conflict_free (rs : list region) : bool :=
  forallb (fun t => negb (is_conflict t)) rs.

(** The contract of the matcher on one side: its blocks are ascending
    and do not overlap, in [z] from [iz] on and in [s] from [is_] on,
    lie within the two token lists, and match equal tokens. *)
Fixpoint matching_blocks_ok (z s : list bytes) (iz is_ : Z)
    (blocks : list block) : bool :=
  match blocks with
  | [] => true
  | (zo, so, n) :: rest =>
      (iz <=? zo) && (is_ <=? so) && (0 <=? n)
      && (zo + n <=? Py.len z) && (so + n <=? Py.len s)
      && Py.tokens_eqb (Py.slice z zo (zo + n)) (Py.slice s so (so + n))
      && matching_blocks_ok z s (zo + n) (so + n) rest
  end.

(** The matcher on two equal sequences of [n] tokens: one block that
    matches them whole, then only empty blocks. *)
Definition whole_match (n : Z) (blocks : list block) : bool :=
  match blocks with
  | (zo, so, len) :: rest =>
      (zo =? 0) && (so =? 0) && (len =? n)
      && forallb (fun k => snd k =? 0) rest
  | [] => false
  end.

Definition a_blocks {md : Mdiff} (self : Merge3Text) : list block :=
  let '(basetext, atext, _) := matcher_texts self in
  get_matching_blocks basetext atext.

Definition b_blocks {md : Mdiff} (self : Merge3Text) : list block :=
  let '(basetext, _, btext) := matcher_texts self in
  get_matching_blocks basetext btext.

(** The sync regions of the blocks of one side when the other side is
    matched whole; [side] gives the positions on the other side. *)
Definition syncs_of_blocks (other_is_a : bool) (blocks : list block)
    : list sync_region :=
  flat_map
    (fun k : block =>
       let '(zo, so, n) := k in
       if 0 <? n
       then [if other_is_a
             then (zo, zo + n, zo, zo + n, so, so + n)
             else (zo, zo + n, so, so + n, zo, zo + n)]
       else [])
    blocks.

(** ** The rest of the module *)

(** The loop of [Merge3Text.find_unconflicted]: [am] and [bm] are what
    is left of the two block lists ([del am[0]], [del bm[0]]), the
    result is what the loop appends to [unc]. *)
Fixpoint unconflicted_loop (am : list block)
    : list block -> result (list (Z * Z)) :=
  fix walk_b (bm : list block) : result (list (Z * Z)) :=
    match am, bm with
    | ablock :: am', bblock :: bm' =>
        let a1 := fst (fst ablock) in
        let a2 := a1 + snd ablock in
        let b1 := fst (fst bblock) in
        let b2 := b1 + snd bblock in
        i <- intersect (a1, a2) (b1, b2) ;;
        rest <- (if a2 <? b2 then unconflicted_loop am' bm else walk_b bm') ;;
        Ok (match i with Some r => r :: rest | None => rest end)
    | _, _ => Ok []
    end.

(** [Merge3Text.find_unconflicted] *)
Definition find_unconflicted {md : Mdiff} (self : Merge3Text)
    : result (list (Z * Z)) :=
  let am := get_matching_blocks (basetext self) (atext self) in
  let bm := get_matching_blocks (basetext self) (btext self) in
  unconflicted_loop am bm.

(** What [Merge3Text.merge_groups] yields: the kind of the region with
    the lines it takes. *)
Inductive group :=
| UnchangedLines (lines : list bytes)
| SameLines (lines : list bytes)
| ALines (lines : list bytes)
| BLines (lines : list bytes)
| ConflictLines (base_lines a_lines b_lines : list bytes).

Definition group_of (self : Merge3Text) (t : region) : group :=
  match t with
  | Unchanged z1 z2 => UnchangedLines (Py.slice (base self) z1 z2)
  | Same a1 a2 => SameLines (Py.slice (a self) a1 a2)
  | TakeA a1 a2 => ALines (Py.slice (a self) a1 a2)
  | TakeB b1 b2 => BLines (Py.slice (b self) b1 b2)
  | Conflict z1 z2 a1 a2 b1 b2 =>
      ConflictLines (Py.slice (base self) z1 z2) (Py.slice (a self) a1 a2)
        (Py.slice (b self) b1 b2)
  end.

(** [Merge3Text.merge_groups]: one group per region of [merge_regions];
    the slices raise nothing. *)
Definition merge_groups {md : Mdiff} (self : Merge3Text) : stream group :=
  (map (group_of self) (fst (merge_regions self)), snd (merge_regions self)).

(** The range of [base] a sync region covers. *)
Definition base_range (r : sync_region) : Z * Z :=
  let '(z1, z2, _, _, _, _) := r in (z1, z2).

(** ** The driver *)

(** [wordmergemode.fromui]; [word_merge] is what
    [ui.configbool("merge", "word-merge")] returns. *)
Definition fromui (word_merge : bool) : wordmergemode :=
  if word_merge then ondemand else disabled.

(** The functions of [util], [pycompat] and [mdiff] the driver calls:
    [util.binary], [pycompat.encodeutf8] and [mdiff.allblocks], which
    yields pairs of a block [(a1, a2, b1, b2)] and its kind.  The three
    modules are not part of the sources at hand; the driver is modelled
    over any such functions.  A Python [str] is a [string] here. *)
Class Externals := {
  binary : bytes -> bool;
  encodeutf8 : string -> bytes;
  allblocks : bytes -> bytes -> list bytes -> list bytes
              -> list (Z * Z * Z * Z * string)
}.

(** The two messages of the driver: ["%s looks like a binary file."]
    with the path, and ["can only specify three labels."]. *)
Inductive message :=
| LooksBinary (path : string)
| ThreeLabels.

(** What the driver can raise: [error.Abort], the TypeError of a bytes
    format applied to None, the ValueError of unpacking a list that has
    not three items, and the exceptions of the merge itself. *)
Inductive error :=
| Abort (msg : message)
| TypeError
| ValueError
| Exn (e : exn).

Inductive outcome (A : Type) :=
| Returns (x : A)
| Throws (e : error).
Arguments Returns {A} x.
Arguments Throws {A} e.

Definition obind {A B} (r : outcome A) (k : A -> outcome B) : outcome B :=
  match r with
  | Returns x => k x
  | Throws e => Throws e
  end.

Notation "x <~ r ;; k" := (obind r (fun x => k))
  (at level 61, r at next level, right associativity).

(** What the driver does to the outside: [ui.warn] of "warning: " and a
    message, [ui.fout.write] and [localctx.write]. *)
Inductive event :=
| Warn (msg : message)
| FoutWrite (text : bytes)
| CtxWrite (text : bytes) (flags : string).

(** The keyword options of [simplemerge] that it reads.  [mode] is None
    when the key is absent. *)
Module Opts.
Record t := {
  mode : option string;
  label : list string;
  quiet : bool;
  text : bool;
  print : bool;
  localorother : option string
}.
End Opts.

(** A file context: [ctx.path()], [ctx.decodeddata()] and the flags
    [simplemerge] passes on to [localctx.write]. *)
Module Ctx.
Record t := {
  path : string;
  decodeddata : bytes;
  flags : string
}.
End Ctx.

(** [result[i] = x] *)
Definition setitem {A} (l : list A) (i : Z) (x : A) : result (list A) :=
  let i' := if i <? 0 then i + Py.len l else i in
  if (0 <=? i') && (i' <? Py.len l)
  then Ok (firstn (Z.to_nat i') l ++ x :: skipn (Z.to_nat i' + 1) l)
  else Raise IndexError.

Section Driver.

Context {md : Mdiff} {ext : Externals}.

(** [_verifytext]; of [opts] it reads "quiet" and "text". *)
Definition _verifytext (text : bytes) (path : string) (opts : Opts.t)
    : list event * outcome bytes :=
  if binary text then
    let msg := LooksBinary path in
    ((if negb (Opts.quiet opts) then [Warn msg] else []),
     if negb (Opts.text opts) then Throws (Abort msg) else Returns text)
  else ([], Returns text).

(** The [for i, override in enumerate(overrides)] loop of
    [_picklabels]. *)
Fixpoint store_overrides (result : list (option bytes)) (i : Z)
    (overrides : list string) : outcome (list (option bytes)) :=
  match overrides with
  | [] => Returns result
  | override :: rest =>
      match setitem result i (Some (encodeutf8 override)) with
      | Ok result' => store_overrides result' (i + 1) rest
      | Raise e => Throws (Exn e)
      end
  end.

Definition _picklabels (defaults : list (option string))
    (overrides : list string) : outcome (list (option bytes)) :=
  if 3 <? Py.len overrides then Throws (Abort ThreeLabels)
  else
    store_overrides (map (option_map encodeutf8) defaults) 0 overrides.

(** [matchinglines], local to [_mergediff]. *)
Definition matchinglines (blocks : list (Z * Z * Z * Z * string)) : Z :=
  fold_right Z.add 0
    (map (fun bk : Z * Z * Z * Z * string =>
            let '(b0, b1, _, _, _) := bk in b1 - b0)
       (filter (fun bk : Z * Z * Z * Z * string => String.eqb (snd bk) "=")
          blocks)).

(** [difflines], local to [_mergediff]. *)
Definition difflines (blocks : list (Z * Z * Z * Z * string))
    (lines1 lines2 : list bytes) : list bytes :=
  flat_map
    (fun bk : Z * Z * Z * Z * string =>
       let '(b0, b1, b2, b3, kind) := bk in
       if String.eqb kind "="
       then map (fun line => (" " ++ line)%string) (Py.slice lines1 b0 b1)
       else map (fun line => ("-" ++ line)%string) (Py.slice lines1 b0 b1)
            ++ map (fun line => ("+" ++ line)%string) (Py.slice lines2 b2 b3))
    blocks.

(** [prefix + b" %s\n" % name]: None is no bytes-like object. *)
Definition format_name (prefix : bytes) (name : option bytes) : outcome bytes :=
  match name with
  | Some n => Returns (prefix ++ " " ++ n ++ nl)%string
  | None => Throws TypeError
  end.

(** The lines [_mergediff] appends for a conflict group. *)
Definition conflict_lines (name_a name_b name_base : option bytes)
    (base_lines a_lines b_lines : list bytes) : outcome (list bytes) :=
  let basetext := Py.join base_lines in
  let bblocks := allblocks basetext (Py.join b_lines) base_lines b_lines in
  let ablocks := allblocks basetext (Py.join a_lines) base_lines b_lines in
  let opening := ("<<<<<<<" ++ nl)%string in
  let closing := (">>>>>>>" ++ nl)%string in
  if matchinglines ablocks <? matchinglines bblocks then
    la <~ format_name "=======" name_a ;;
    lbase <~ format_name "-------" name_base ;;
    lb <~ format_name "+++++++" name_b ;;
    Returns ([opening; la] ++ a_lines ++ [lbase; lb]
             ++ difflines bblocks base_lines b_lines ++ [closing])
  else
    lbase <~ format_name "-------" name_base ;;
    la <~ format_name "+++++++" name_a ;;
    lb <~ format_name "=======" name_b ;;
    Returns ([opening; lbase; la] ++ difflines ablocks base_lines a_lines
             ++ [lb] ++ b_lines ++ [closing]).

(** The [for group in m3.merge_groups()] loop of [_mergediff] over the
    groups yielded, with its variables [lines] and [conflicts]. *)
Fixpoint mergediff_loop (name_a name_b name_base : option bytes)
    (groups : list group) (lines : list bytes) (conflicts : bool)
    : outcome (list bytes * bool) :=
  match groups with
  | [] => Returns (lines, conflicts)
  | ConflictLines base_lines a_lines b_lines :: rest =>
      shown <~ conflict_lines name_a name_b name_base
                 base_lines a_lines b_lines ;;
      mergediff_loop name_a name_b name_base rest (lines ++ shown) true
  | UnchangedLines l :: rest | SameLines l :: rest | ALines l :: rest
  | BLines l :: rest =>
      mergediff_loop name_a name_b name_base rest (lines ++ l) conflicts
  end.

Definition _mergediff (m3 : Merge3Text) (name_a name_b name_base : option bytes)
    : outcome (list bytes * bool) :=
  let groups := merge_groups m3 in
  r <~ mergediff_loop name_a name_b name_base (fst groups) [] false ;;
  match snd groups with
  | Some e => Throws (Exn e)
  | None => Returns r
  end.

(** [readctx], local to [simplemerge]. *)
Definition readctx (opts : Opts.t) (ctx : Ctx.t) : list event * outcome bytes :=
  _verifytext (Ctx.decodeddata ctx) (Ctx.path ctx) opts.

(** The body of the [try] statement of [simplemerge]: the three reads
    in their order, with what they warn. *)
Definition read_texts (opts : Opts.t) (localctx basectx otherctx : Ctx.t)
    : list event * outcome (bytes * bytes * bytes) :=
  let '(warned1, r1) := readctx opts localctx in
  match r1 with
  | Throws e => (warned1, Throws e)
  | Returns localtext =>
      let '(warned2, r2) := readctx opts basectx in
      match r2 with
      | Throws e => (warned1 ++ warned2, Throws e)
      | Returns basetext =>
          let '(warned3, r3) := readctx opts otherctx in
          match r3 with
          | Throws e => (warned1 ++ warned2 ++ warned3, Throws e)
          | Returns othertext =>
              (warned1 ++ warned2 ++ warned3,
               Returns (localtext, basetext, othertext))
          end
      end
  end.

(** The keyword arguments [simplemerge] calls [merge_lines] with. *)
Definition merge_lines_args (mode : string) (opts : Opts.t)
    (name_a name_b name_base : option bytes) : Args.t :=
  if String.eqb mode "union" then
    {| Args.name_a := name_a; Args.name_b := name_b; Args.name_base := None;
       Args.start_marker := None; Args.mid_marker := None;
       Args.end_marker := None; Args.base_marker := None;
       Args.localorother := Opts.localorother opts;
       Args.minimize := true |}
  else
    match name_base with
    | Some _ =>
        {| Args.name_a := name_a; Args.name_b := name_b;
           Args.name_base := name_base;
           Args.start_marker := Some "<<<<<<<";
           Args.mid_marker := Some "=======";
           Args.end_marker := Some ">>>>>>>";
           Args.base_marker := Some "|||||||";
           Args.localorother := Opts.localorother opts;
           Args.minimize := false |}
    | None =>
        {| Args.name_a := name_a; Args.name_b := name_b; Args.name_base := None;
           Args.start_marker := Some "<<<<<<<";
           Args.mid_marker := Some "=======";
           Args.end_marker := Some ">>>>>>>";
           Args.base_marker := None;
           Args.localorother := Opts.localorother opts;
           Args.minimize := true |}
    end.

(** The merge [simplemerge] runs: the lines, whether there are
    conflicts, and what [getattr(m3, "conflictscount", 1)] gives
    afterwards. *)
Definition run_merge (mode : string) (opts : Opts.t) (m3 : Merge3Text)
    (name_a name_b name_base : option bytes)
    : outcome (list bytes * bool * Z) :=
  if String.eqb mode "mergediff" then
    r <~ _mergediff m3 name_a name_b name_base ;;
    Returns (fst r, snd r, 1)
  else
    match merge_lines m3 (merge_lines_args mode opts name_a name_b name_base) with
    | (st, None) =>
        Returns (map chunk_bytes (out st), conflicts st, conflictscount st)
    | (_, Some e) => Throws (Exn e)
    end.

(** [simplemerge]: what it does to the outside, and what it returns
    (None where the function falls off its end) or raises.
    [word_merge] is the configuration [wordmergemode.fromui] reads. *)
Definition simplemerge (word_merge : bool)
    (localctx basectx otherctx : Ctx.t) (opts : Opts.t)
    : list event * outcome (option Z) :=
  let mode :=
    match Opts.mode opts with Some m => m | None => "merge" end in
  let names :=
    if negb (String.eqb mode "union")
    then _picklabels [Some (Ctx.path localctx); Some (Ctx.path otherctx); None]
           (Opts.label opts)
    else Returns [None; None; None] in
  match names with
  | Throws e => ([], Throws e)
  | Returns [name_a; name_b; name_base] =>
      match read_texts opts localctx basectx otherctx with
      | (warned, Throws (Abort _)) => (warned, Returns (Some 1))
      | (warned, Throws e) => (warned, Throws e)
      | (warned, Returns (localtext, basetext, othertext)) =>
          let m3 :=
            Merge3Text_init basetext localtext othertext (fromui word_merge) in
          match run_merge mode opts m3 name_a name_b name_base with
          | Throws e => (warned, Throws e)
          | Returns (lines, conflicts, count) =>
              let mergedtext := Py.join lines in
              (warned
               ++ [if Opts.print opts then FoutWrite mergedtext
                   else CtxWrite mergedtext (Ctx.flags localctx)],
               Returns (if conflicts && negb (String.eqb mode "union")
                        then Some count else None))
          end
      end
  | Returns _ => ([], Throws ValueError)
  end.

End Driver.

(** ** The benchmark: [contrib/smerge_benchmark.py] *)

(** [SmartMerge3Text.__init__]: a [Merge3Text] whose word merge is
    [ondemand] unless given. *)
Definition SmartMerge3Text_init {md : Mdiff} (basetext atext btext : bytes)
    (wordmerge : option wordmergemode) : Merge3Text :=
  Merge3Text_init basetext atext btext
    (match wordmerge with Some mode => mode | None => ondemand end).

(** The two classes [smerge_bench] passes as [m3merger], called with
    three texts. *)
Inductive merger := SmartMerge3Text | PlainMerge3Text.

Definition new_merger {md : Mdiff} (m3merger : merger)
    (basetext atext btext : bytes) : Merge3Text :=
  match m3merger with
  | SmartMerge3Text => SmartMerge3Text_init basetext atext btext None
  | PlainMerge3Text => Merge3Text_init basetext atext btext disabled
  end.

(** [class BenchStats] *)
Record BenchStats := {
  changed_files : Z;
  unresolved_files : Z;
  unmatched_files : Z;
  octopus_merges : Z;
  criss_cross_merges : Z
}.

(** What [unidiff] calls: [mdiff.unidiff] with the two texts and the
    file path, which gives the headers and the hunks, each a range with
    its lines; and [bytes.decode("utf8")], None when it raises
    UnicodeDecodeError. *)
Class Reporting := {
  mdiff_unidiff : bytes -> bytes -> string
                  -> list bytes * list (Z * Z * Z * Z * list bytes);
  decode_utf8 : bytes -> option string
}.

(** [unidiff] *)
Definition unidiff {rep : Reporting} (atext btext : bytes) (filepath : string)
    : bytes :=
  let '(headers, hunks) := mdiff_unidiff atext btext filepath in
  String.concat nl
    (headers
     ++ map (fun hunk : Z * Z * Z * Z * list bytes => Py.join (snd hunk)) hunks).

(** What [merge_file] writes to [repo.ui]: the line that names the
    unmatched file, and the diff. *)
Inductive bench_event :=
| UnmatchedFile (filepath : string)
| DiffText (difftext : string).

Inductive bench_error :=
| MergeRaised (e : exn)
| UnicodeDecodeError.

(** [merge_file], given the data of the file in the four contexts:
    the statistics afterwards, what was written, and the exception that
    ended the call, if any. *)
Definition merge_file {md : Mdiff} {rep : Reporting}
    (srctext dsttext basetext expectedtext : bytes) (filepath : string)
    (m3merger : merger) (bench_stats : BenchStats)
    : BenchStats * list bench_event * option bench_error :=
  if String.eqb srctext dsttext then (bench_stats, [], None)
  else
    let changed :=
      {| changed_files := changed_files bench_stats + 1;
         unresolved_files := unresolved_files bench_stats;
         unmatched_files := unmatched_files bench_stats;
         octopus_merges := octopus_merges bench_stats;
         criss_cross_merges := criss_cross_merges bench_stats |} in
    let m3 := new_merger m3merger basetext dsttext srctext in
    match merge_lines m3 Args.default with
    | (_, Some e) => (changed, [], Some (MergeRaised e))
    | (st, None) =>
        let mergedtext := Py.join (map chunk_bytes (out st)) in
        if negb (conflictscount st =? 0) then
          ({| changed_files := changed_files changed;
              unresolved_files := unresolved_files changed + 1;
              unmatched_files := unmatched_files changed;
              octopus_merges := octopus_merges changed;
              criss_cross_merges := criss_cross_merges changed |}, [], None)
        else if negb (String.eqb mergedtext expectedtext) then
          let reported :=
            {| changed_files := changed_files changed;
               unresolved_files := unresolved_files changed;
               unmatched_files := unmatched_files changed + 1;
               octopus_merges := octopus_merges changed;
               criss_cross_merges := criss_cross_merges changed |} in
          match decode_utf8 (unidiff mergedtext expectedtext filepath) with
          | Some difftext =>
              (reported, [UnmatchedFile filepath; DiffText difftext], None)
          | None => (reported, [UnmatchedFile filepath], Some UnicodeDecodeError)
          end
        else (changed, [], None)
    end.

(** An instance for the examples: an empty diff, and texts that
    decode to themselves. *)
Definition example_reporting : Reporting :=
  {| mdiff_unidiff := fun _ _ _ => ([], []);
     decode_utf8 := fun s => Some s |}.

(** ** Vocabulary of the further properties *)

(** The byte [c] occurs in [s]. *)
Fixpoint has_byte (c : ascii) (s : bytes) : bool :=
  match s with
  | EmptyString => false
  | String x s' => Ascii.eqb x c || has_byte c s'
  end.


(** Running [g] only adds chunks that satisfy [Q] to what was yielded. *)
Definition emits (Q : chunk -> Prop) (g : gen) : Prop :=
  forall st, exists cs, out (fst (g st)) = out st ++ cs /\ Forall Q cs.

(** The marker lines [merge_lines] can yield under [args]: each marker
    that is not None, with its label, followed by the newline of [a]. *)
Definition marker_lines (self : Merge3Text) (args : Args.t) : list bytes :=
  flat_map
    (fun marker : option bytes =>
       match marker with
       | Some m => [(m ++ sniff_newline self)%string]
       | None => []
       end)
    [labelled (Args.start_marker args) (Args.name_a args);
     Args.mid_marker args;
     labelled (Args.end_marker args) (Args.name_b args);
     labelled (Args.base_marker args) (Args.name_base args)].

(** A marker with its label: the label follows the marker after a
    space when neither of the two is empty. *)
Definition marker_text (marker : bytes) (label : option bytes) : bytes :=
  match marker, label with
  | String _ _, Some (String c rest) => (marker ++ " " ++ String c rest)%string
  | _, _ => marker
  end.

(** [s] ends with [suffix]. *)
Definition ends_with (s suffix : bytes) : Prop :=
  exists front, s = (front ++ suffix)%string.

(** The line ending the markers take from the first token of [a]:
    "\r\n" when it ends so, else "\r" when it ends so, and "\n"
    otherwise, also when [a] is empty. *)
Inductive line_ending : list bytes -> bytes -> Prop :=
| ending_crlf first rest :
    ends_with first (String CR nl) ->
    line_ending (first :: rest) (String CR nl)
| ending_cr first rest :
    ends_with first (String CR EmptyString) ->
    line_ending (first :: rest) (String CR EmptyString)
| ending_lf first rest :
    ~ ends_with first (String CR nl) ->
    ~ ends_with first (String CR EmptyString) ->
    line_ending (first :: rest) nl
| ending_of_empty : line_ending [] nl.

(** Where a chunk yielded by [merge_lines] can come from. *)
Definition chunk_allowed (self : Merge3Text) (args : Args.t) (c : chunk) : Prop :=
  match c with
  | Token s => In s (base self) \/ In s (a self) \/ In s (b self)
  | Marker m =>
      In m (marker_lines self args) /\ unforced (Args.localorother args)
      /\ wordmerge self <> enforced
  | Merged _ =>
      wordmerge self = ondemand /\ unforced (Args.localorother args)
  end.

(** The sync regions follow each other: each starts, in [base], [a]
    and [b], at or after [(lz, la, lb)] and then at or after the end of
    the one before, and covers as many tokens in the three lists. *)
Fixpoint ascending_syncs (lz la lb : Z) (sl : list sync_region) : Prop :=
  match sl with
  | [] => True
  | (z1, z2, a1, a2, b1, b2) :: rest =>
      lz <= z1 /\ la <= a1 /\ lb <= b1 /\ z1 <= z2
      /\ z2 - z1 = a2 - a1 /\ z2 - z1 = b2 - b1
      /\ ascending_syncs z2 a2 b2 rest
  end.

(** The matcher keeps its contract on both sides of [self]. *)
Definition matcher_contract {md : Mdiff} (self : Merge3Text) : bool :=
  matching_blocks_ok (base self) (a self) 0 0 (a_blocks self)
  && matching_blocks_ok (base self) (b self) 0 0 (b_blocks self).

(** From position [lz] of [base] on, the block [k] maps to positions of
    its side at or after [ls]. *)
Definition behind (lz ls : Z) (k : block) : Prop :=
  ls <= snd (fst k) + (Z.max lz (fst (fst k)) - fst (fst k)).

Definition block_bounds (z s : list bytes) (iz is_ : Z) (k : block) : Prop :=
  iz <= fst (fst k) /\ is_ <= snd (fst k) /\ 0 <= snd k
  /\ fst (fst k) + snd k <= Py.len z /\ snd (fst k) + snd k <= Py.len s.


(** The sync region covers the same positions of [a] and of [b]. *)
Definition same_positions (r : sync_region) : Prop :=
  let '(_, _, a1, a2, b1, b2) := r in a1 = b1 /\ a2 = b2.

(** Where the last of the sync regions ends in [a]; [ia] if there is
    none. *)
Fixpoint a_end (syncs : list sync_region) (ia : Z) : Z :=
  match syncs with
  | [] => ia
  | (_, _, _, a2, _, _) :: rest => a_end rest a2
  end.

Definition is_warning (e : event) : bool :=
  match e with Warn _ => true | _ => false end.

(** The write that ends a run of [simplemerge]. *)
Definition written (opts : Opts.t) (localctx : Ctx.t) (mergedtext : bytes)
    : event :=
  if Opts.print opts then FoutWrite mergedtext
  else CtxWrite mergedtext (Ctx.flags localctx).

(** The mode [simplemerge] runs in: "merge" when the option is absent. *)
Definition mode_of (opts : Opts.t) : string :=
  match Opts.mode opts with Some m => m | None => "merge" end.

(** An instance for the examples: a text is binary when it holds a NUL
    byte, labels are ASCII, and [allblocks] reports one changed block. *)
Definition has_nul (s : bytes) : bool := has_byte "000"%char s.

Definition example_externals : Externals :=
  {| binary := has_nul;
     encodeutf8 := fun s => s;
     allblocks := fun _ _ lines1 lines2 =>
       [(0, Py.len lines1, 0, Py.len lines2, "!")] |}.

Definition example_ctx (path : string) (data : bytes) : Ctx.t :=
  {| Ctx.path := path; Ctx.decodeddata := data; Ctx.flags := EmptyString |}.

Definition example_opts (mode : option string) (label : list string) : Opts.t :=
  {| Opts.mode := mode; Opts.label := label; Opts.quiet := false;
     Opts.text := false; Opts.print := false; Opts.localorother := None |}.

(** A conflict region is a real conflict: each side differs from the
    base, and the two sides differ. *)
Definition real_conflict (self : Merge3Text) (t : region) : Prop :=
  match t with
  | Conflict z1 z2 a1 a2 b1 b2 =>
      Py.slice (a self) a1 a2 <> Py.slice (base self) z1 z2
      /\ Py.slice (b self) b1 b2 <> Py.slice (base self) z1 z2
      /\ Py.slice (a self) a1 a2 <> Py.slice (b self) b1 b2
  | _ => True
  end.

(** * Properties *)

(** ** Python primitives *)

Module PyFacts.
Import Py.

Lemma map_seq_shift {A} (f : nat -> A) n m :
  map f (seq n m) = map (fun k => f (n + k)%nat) (seq 0 m).
Proof.
  revert n f. induction m as [|m IH]; intros n f; [reflexivity|].
  cbn [seq map]. rewrite Nat.add_0_r. f_equal.
  rewrite (IH (S n)), (IH 1%nat). apply map_ext. intros k.
  f_equal. lia.
Qed.

Lemma firstn_plus {A} (l : list A) n m :
  firstn (n + m) l = firstn n l ++ firstn m (skipn n l).
Proof.
  revert l. induction n as [|n IH]; intros l; [reflexivity|].
  destruct l as [|x l]; cbn.
  - now rewrite firstn_nil.
  - now rewrite IH.
Qed.

Lemma range_nil lo hi : hi <= lo -> range lo hi = [].
Proof.
  intros H. unfold range. replace (Z.to_nat (hi - lo)) with 0%nat by lia.
  reflexivity.
Qed.

Lemma range_cons lo hi : lo < hi -> range lo hi = lo :: range (lo + 1) hi.
Proof.
  intros H. unfold range.
  replace (Z.to_nat (hi - lo)) with (S (Z.to_nat (hi - (lo + 1)))) by lia.
  cbn [seq map]. f_equal.
  - cbn. lia.
  - rewrite <- seq_shift, map_map. apply map_ext. intros k. lia.
Qed.

Lemma range_length lo hi : List.length (range lo hi) = Z.to_nat (hi - lo).
Proof. unfold range. now rewrite length_map, length_seq. Qed.

Lemma range_app lo mid hi :
  lo <= mid -> mid <= hi -> range lo hi = range lo mid ++ range mid hi.
Proof.
  intros H1 H2. unfold range.
  replace (Z.to_nat (hi - lo))
    with (Z.to_nat (mid - lo) + Z.to_nat (hi - mid))%nat by lia.
  rewrite seq_app, map_app. f_equal.
  rewrite map_seq_shift. apply map_ext. intros k. lia.
Qed.

Lemma in_range k lo hi : In k (range lo hi) <-> lo <= k < hi.
Proof.
  unfold range. rewrite in_map_iff. split.
  - intros (n & <- & Hn). apply in_seq in Hn. lia.
  - intros H. exists (Z.to_nat (k - lo)). split; [lia|].
    apply in_seq. lia.
Qed.

Lemma getitem_nonneg {A} (l : list A) i :
  0 <= i -> getitem l i = nth_error l (Z.to_nat i).
Proof.
  intros H. unfold getitem. destruct (Z.ltb_spec i 0); [lia|reflexivity].
Qed.

Lemma getitem_in_range {A} (l : list A) i :
  0 <= i < len l -> exists x, getitem l i = Some x.
Proof.
  intros H. rewrite getitem_nonneg by lia.
  destruct (nth_error l (Z.to_nat i)) eqn:E; [eauto|].
  apply nth_error_None in E. unfold len in H. lia.
Qed.

Lemma clamp_in_range n i : 0 <= i <= n -> clamp n i = i.
Proof.
  intros H. unfold clamp. destruct (Z.ltb_spec i 0); lia.
Qed.

Lemma slice_in_range {A} (l : list A) lo hi :
  0 <= lo <= len l -> 0 <= hi <= len l ->
  slice l lo hi = firstn (Z.to_nat (hi - lo)) (skipn (Z.to_nat lo) l).
Proof.
  intros H1 H2. unfold slice. now rewrite !clamp_in_range.
Qed.

Lemma slice_empty {A} (l : list A) lo hi :
  0 <= lo <= len l -> 0 <= hi <= len l -> hi <= lo -> slice l lo hi = [].
Proof.
  intros H1 H2 H3. rewrite slice_in_range by assumption.
  replace (Z.to_nat (hi - lo)) with 0%nat by lia. reflexivity.
Qed.

Lemma slice_full {A} (l : list A) : slice l 0 (len l) = l.
Proof.
  unfold len. rewrite slice_in_range by (unfold len; lia).
  cbn [Z.to_nat skipn]. apply firstn_all2. lia.
Qed.

Lemma slice_length {A} (l : list A) lo hi :
  0 <= lo -> lo <= hi -> hi <= len l ->
  List.length (slice l lo hi) = Z.to_nat (hi - lo).
Proof.
  intros H1 H2 H3. rewrite slice_in_range by lia.
  rewrite length_firstn, length_skipn. unfold len in H3. lia.
Qed.

Lemma slice_app {A} (l : list A) lo mid hi :
  0 <= lo -> lo <= mid -> mid <= hi -> hi <= len l ->
  slice l lo hi = slice l lo mid ++ slice l mid hi.
Proof.
  intros H1 H2 H3 H4. rewrite !slice_in_range by lia.
  replace (Z.to_nat (hi - lo))
    with (Z.to_nat (mid - lo) + Z.to_nat (hi - mid))%nat by lia.
  rewrite firstn_plus, skipn_skipn.
  do 3 f_equal. lia.
Qed.

Lemma slice_cons {A} (l : list A) lo hi x :
  0 <= lo -> lo < hi -> hi <= len l ->
  getitem l lo = Some x ->
  slice l lo hi = x :: slice l (lo + 1) hi.
Proof.
  intros H1 H2 H3 Hx. rewrite (slice_app l lo (lo + 1) hi) by lia.
  rewrite getitem_nonneg in Hx by lia.
  replace (slice l lo (lo + 1)) with [x]; [reflexivity|].
  rewrite slice_in_range by lia.
  replace (Z.to_nat (lo + 1 - lo)) with 1%nat by lia.
  rewrite <- (Nat.add_0_r (Z.to_nat lo)) in Hx.
  rewrite <- nth_error_skipn in Hx.
  destruct (skipn (Z.to_nat lo) l); [discriminate|].
  cbn in Hx. injection Hx as ->. reflexivity.
Qed.

Lemma in_slice {A} (l : list A) lo hi x :
  0 <= lo <= len l -> 0 <= hi <= len l ->
  In x (slice l lo hi) <-> exists k, lo <= k < hi /\ getitem l k = Some x.
Proof.
  intros H1 H2. destruct (Z.le_gt_cases hi lo) as [Hle|Hlt].
  - rewrite slice_empty by lia. split; [intros []|].
    intros (k & Hk & _). lia.
  - rewrite slice_in_range by lia. split.
    + intros Hin. apply In_nth_error in Hin as (n & Hn).
      assert (n < Z.to_nat (hi - lo))%nat as Hlen.
      { assert (n < List.length (firstn (Z.to_nat (hi - lo))
                                    (skipn (Z.to_nat lo) l)))%nat as Hn'
          by (apply nth_error_Some; congruence).
        rewrite length_firstn in Hn'. lia. }
      rewrite nth_error_firstn in Hn.
      destruct (Nat.ltb_spec n (Z.to_nat (hi - lo))); [|lia].
      rewrite nth_error_skipn in Hn.
      exists (lo + Z.of_nat n). split; [lia|].
      rewrite getitem_nonneg by lia.
      now replace (Z.to_nat (lo + Z.of_nat n)) with (Z.to_nat lo + n)%nat by lia.
    + intros (k & Hk & Hx). rewrite getitem_nonneg in Hx by lia.
      apply (nth_error_In _ (Z.to_nat (k - lo))).
      rewrite nth_error_firstn.
      destruct (Nat.ltb_spec (Z.to_nat (k - lo)) (Z.to_nat (hi - lo))); [|lia].
      rewrite nth_error_skipn.
      now replace (Z.to_nat lo + Z.to_nat (k - lo))%nat with (Z.to_nat k) by lia.
Qed.

Lemma tokens_eqb_true x y : tokens_eqb x y = true <-> x = y.
Proof.
  unfold tokens_eqb. destruct (list_eq_dec string_dec x y); split;
    congruence.
Qed.

Lemma tokens_eqb_refl x : tokens_eqb x x = true.
Proof. now apply tokens_eqb_true. Qed.

Lemma length_append (s t : bytes) :
  String.length (s ++ t)%string = (String.length s + String.length t)%nat.
Proof. induction s as [|c s IH]; cbn; [reflexivity|now rewrite IH]. Qed.

Lemma join_app x y : join (x ++ y) = (join x ++ join y)%string.
Proof.
  unfold join. induction x as [|u x IH]; [reflexivity|].
  cbn [app]. destruct x as [|v x].
  - cbn [app concat]. destruct y as [|w y]; cbn.
    + symmetry. apply (proj1 (String.eqb_eq _ _)).
      clear. induction u; cbn; [reflexivity|].
      rewrite Ascii.eqb_refl. exact IHu.
    + reflexivity.
  - cbn [app concat] in *. rewrite IH. cbn.
    clear. induction u; cbn; [reflexivity|]. now rewrite IHu.
Qed.

End PyFacts.

(** ** compare_range *)

Lemma combine_ranges lo1 hi1 lo2 hi2 :
  hi1 - lo1 = hi2 - lo2 ->
  combine (Py.range lo1 hi1) (Py.range lo2 hi2)
  = map (fun k => (lo1 + Z.of_nat k, lo2 + Z.of_nat k))
        (seq 0 (Z.to_nat (hi1 - lo1))).
Proof.
  intros H. unfold Py.range. rewrite <- H.
  induction (seq 0 (Z.to_nat (hi1 - lo1))) as [|k ks IH]; [reflexivity|].
  cbn. now rewrite IH.
Qed.

(** Token by token, equality with a common third range is passed on. *)
Lemma compare_loop_trans x y z (f g h : nat -> Z) ks :
  compare_loop x z (map (fun k => (f k, h k)) ks) = Ok true ->
  compare_loop y z (map (fun k => (g k, h k)) ks) = Ok true ->
  compare_loop x y (map (fun k => (f k, g k)) ks) = Ok true.
Proof.
  induction ks as [|k ks IH]; [reflexivity|]. cbn. unfold Py.index.
  destruct (Py.getitem x (f k)) as [u|]; [|discriminate].
  destruct (Py.getitem z (h k)) as [w|]; [|discriminate].
  destruct (Py.getitem y (g k)) as [v|]; [|discriminate]. cbn.
  destruct (String.eqb_spec u w) as [->|]; [|discriminate].
  destruct (String.eqb_spec v w) as [->|]; [|discriminate].
  rewrite String.eqb_refl. cbn. exact IH.
Qed.

Lemma compare_range_trans x xs xe y ys ye z zs ze :
  compare_range x xs xe z zs ze = Ok true ->
  compare_range y ys ye z zs ze = Ok true ->
  compare_range x xs xe y ys ye = Ok true.
Proof.
  unfold compare_range.
  destruct (Z.eqb_spec (xe - xs) (ze - zs)) as [Hx|]; [|discriminate].
  destruct (Z.eqb_spec (ye - ys) (ze - zs)) as [Hy|]; [|discriminate].
  destruct (Z.eqb_spec (xe - xs) (ye - ys)) as [Hxy|]; [|lia].
  cbn [negb]. rewrite !combine_ranges by assumption.
  rewrite Hy, <- Hx. apply compare_loop_trans.
Qed.

(** ** Generator fragments *)

Lemma emit_nil st : emit [] st = st.
Proof. destruct st. unfold emit. cbn. now rewrite app_nil_r. Qed.

Lemma emit_emit l1 l2 st : emit l2 (emit l1 st) = emit (l1 ++ l2) st.
Proof. unfold emit. cbn. now rewrite app_assoc. Qed.

Lemma and_then_ok (g1 g2 : gen) st st1 :
  g1 st = (st1, None) -> (g1 >> g2) st = g2 st1.
Proof. intros H. unfold and_then. now rewrite H. Qed.

Lemma and_then_raise (g1 g2 : gen) st st1 e :
  g1 st = (st1, Some e) -> (g1 >> g2) st = (st1, Some e).
Proof. intros H. unfold and_then. now rewrite H. Qed.

Lemma and_then_None (g1 g2 : gen) st st2 :
  (g1 >> g2) st = (st2, None) ->
  exists st1, g1 st = (st1, None) /\ g2 st1 = (st2, None).
Proof.
  unfold and_then. destruct (g1 st) as [st1 [e|]]; [discriminate|eauto].
Qed.

Lemma for_each_ext {X} (f g : X -> gen) xs :
  (forall x st, f x st = g x st) ->
  forall st, for_each xs f st = for_each xs g st.
Proof.
  intros H. induction xs as [|x xs IH]; intros st; [reflexivity|].
  cbn. unfold and_then. rewrite H. destruct (g x st) as [st1 [e|]]; auto.
Qed.

Lemma for_each_app {X} (f : X -> gen) xs ys st :
  for_each (xs ++ ys) f st = (for_each xs f >> for_each ys f) st.
Proof.
  revert st. induction xs as [|x xs IH]; intros st; [reflexivity|].
  cbn. unfold and_then in *. destruct (f x st) as [st1 [e|]]; auto.
Qed.

(** A property of states kept by every step that falls through is kept
    by the loop when it falls through. *)
Lemma for_each_invariant {X} (P : rstate -> Prop) (f : X -> gen) xs :
  (forall x st st', P st -> f x st = (st', None) -> P st') ->
  forall st st', P st -> for_each xs f st = (st', None) -> P st'.
Proof.
  intros Hstep. induction xs as [|x xs IH]; intros st st' HP Hrun.
  - cbn in Hrun. unfold pass in Hrun. now injection Hrun as <-.
  - cbn in Hrun. apply and_then_None in Hrun as (st1 & H1 & H2).
    eauto.
Qed.

Lemma same_flags_refl st : same_flags st st.
Proof. now split. Qed.

Lemma same_flags_trans st1 st2 st3 :
  same_flags st1 st2 -> same_flags st2 st3 -> same_flags st1 st3.
Proof. unfold same_flags. intros [] []. split; congruence. Qed.

Lemma and_then_flags (g1 g2 : gen) :
  (forall st, same_flags st (fst (g1 st))) ->
  (forall st, same_flags st (fst (g2 st))) ->
  forall st, same_flags st (fst ((g1 >> g2) st)).
Proof.
  intros H1 H2 st. unfold and_then. specialize (H1 st).
  destruct (g1 st) as [st1 [e|]]; [exact H1|].
  eapply same_flags_trans; [exact H1|apply H2].
Qed.

Lemma for_each_flags {X} (f : X -> gen) xs :
  (forall x st, same_flags st (fst (f x st))) ->
  forall st, same_flags st (fst (for_each xs f st)).
Proof.
  intros H. induction xs as [|x xs IH]; intros st.
  - apply same_flags_refl.
  - cbn [for_each]. now apply and_then_flags.
Qed.

Lemma yield_flags c st : same_flags st (fst (yield c st)).
Proof. now split. Qed.

Lemma yield_item_flags l i st : same_flags st (fst (yield_item l i st)).
Proof.
  unfold yield_item. destruct (Py.getitem l i); [apply yield_flags|].
  apply same_flags_refl.
Qed.

Lemma yield_range_flags l lo hi st :
  same_flags st (fst (yield_range l lo hi st)).
Proof. apply for_each_flags. intros. apply yield_item_flags. Qed.

Lemma yield_marker_flags m newline st :
  same_flags st (fst (yield_marker m newline st)).
Proof.
  destruct m; [apply yield_flags|apply same_flags_refl].
Qed.

(** Within bounds the loop [for i in range(lo, hi): yield l[i]] yields
    the slice [l[lo:hi]]. *)
Lemma yield_range_ok l lo hi st :
  0 <= lo <= Py.len l -> 0 <= hi <= Py.len l ->
  yield_range l lo hi st = (emit (map Token (Py.slice l lo hi)) st, None).
Proof.
  intros Hlo Hhi. unfold yield_range.
  destruct (Z.le_gt_cases hi lo) as [Hle|Hlt].
  - rewrite PyFacts.range_nil, PyFacts.slice_empty by lia.
    cbn. now rewrite emit_nil.
  - remember (Z.to_nat (hi - lo)) as n eqn:Hn.
    revert lo st Hlo Hlt Hn. induction n as [|n IH]; intros lo st Hlo Hlt Hn; [lia|].
    rewrite PyFacts.range_cons by lia. cbn [for_each].
    destruct (PyFacts.getitem_in_range l lo) as [x Hx]; [lia|].
    rewrite (PyFacts.slice_cons l lo hi x) by (assumption || lia).
    unfold and_then, yield_item at 1. rewrite Hx. cbn [yield].
    destruct (Z.eq_dec (lo + 1) hi) as [->|Hne].
    + rewrite PyFacts.range_nil, PyFacts.slice_empty by lia. reflexivity.
    + rewrite IH by lia. rewrite emit_emit. reflexivity.
Qed.

(** ** The conflict attributes *)

Lemma same_flags_inv st st' : same_flags st st' -> flags_inv st -> flags_inv st'.
Proof. unfold same_flags, flags_inv. intros [-> ->]. auto. Qed.

Lemma show_conflict_flags self sm mm em bm newline z1 z2 a1 a2 b1 b2 st :
  let st' := fst (show_conflict self sm mm em bm newline z1 z2 a1 a2 b1 b2 st) in
  conflicts st' = true /\ conflictscount st' = conflictscount st + 1.
Proof.
  unfold show_conflict. unfold and_then at 1.
  match goal with |- context [?g ?s] =>
    match s with
    | {| out := _; conflicts := true; conflictscount := _ |} =>
        assert (same_flags s (fst (g s))) as [H1 H2]
    end
  end.
  { repeat (apply and_then_flags; intros);
      try apply yield_marker_flags; try apply yield_range_flags.
    destruct bm; [|apply same_flags_refl].
    apply and_then_flags; intros; [apply yield_flags|apply yield_range_flags]. }
  cbn in *. split; assumption.
Qed.

Section Flags.

Context {md : Mdiff}.
Variable trywordmerge : bytes -> bytes -> bytes -> result (option bytes).
Variable self : Merge3Text.
Variables start_marker mid_marker end_marker base_marker : option bytes.
Variable newline : bytes.
Variable localorother : option string.

Abbreviation body :=
  (render_region trywordmerge self start_marker mid_marker end_marker
     base_marker newline localorother).

Lemma render_region_kept t st :
  (forall z1 z2 a1 a2 b1 b2, t <> Conflict z1 z2 a1 a2 b1 b2) ->
  same_flags st (fst (body t st)).
Proof.
  intros Ht. destruct t; cbn [render_region];
    try apply yield_range_flags.
  now contradiction (Ht z1 z2 a1 a2 b1 b2).
Qed.

Lemma render_region_forced t st :
  localorother = Some "local" \/ localorother = Some "other" ->
  same_flags st (fst (body t st)).
Proof.
  intros Hforce. destruct t; cbn [render_region];
    try apply yield_range_flags.
  destruct Hforce as [-> | ->]; cbn; apply yield_range_flags.
Qed.

Lemma render_region_inv t st st' :
  flags_inv st -> body t st = (st', None) -> flags_inv st'.
Proof.
  intros Hinv Hrun.
  assert (forall g : gen, (forall s, same_flags s (fst (g s))) ->
            g st = (st', None) -> flags_inv st') as Hkept.
  { intros g Hg Hgrun. specialize (Hg st). rewrite Hgrun in Hg.
    eapply same_flags_inv; eauto. }
  assert (forall z1 z2 a1 a2 b1 b2,
            show_conflict self start_marker mid_marker end_marker base_marker
              newline z1 z2 a1 a2 b1 b2 st = (st', None) -> flags_inv st')
    as Hshow.
  { intros z1 z2 a1 a2 b1 b2 Hs.
    pose proof (show_conflict_flags self start_marker mid_marker end_marker
                  base_marker newline z1 z2 a1 a2 b1 b2 st) as Hf.
    rewrite Hs in Hf. cbn in Hf. destruct Hf as [Hc Hn].
    destruct Hinv as [_ Hpos]. unfold flags_inv. rewrite Hc, Hn.
    split; [split; intros; [lia|reflexivity]|lia]. }
  destruct t; cbn [render_region] in Hrun;
    try (eapply Hkept; [|exact Hrun]; intros; apply yield_range_flags).
  destruct (option_string_eqb localorother "local");
    [eapply Hkept; [|exact Hrun]; intros; apply yield_range_flags|].
  destruct (option_string_eqb localorother "other");
    [eapply Hkept; [|exact Hrun]; intros; apply yield_range_flags|].
  destruct (wordmerge self).
  - cbn in Hrun. discriminate.
  - destruct (trywordmerge _ _ _) as [[resolved|]|e].
    + destruct (Py.truthy (Some resolved)).
      * eapply Hkept; [|exact Hrun]. intros.
        apply for_each_flags. intros. apply yield_flags.
      * eauto.
    + eauto.
    + cbn in Hrun. discriminate.
  - eauto.
Qed.

Lemma consume_inv regions st st' :
  flags_inv st -> consume body regions st = (st', None) -> flags_inv st'.
Proof.
  intros Hinv Hrun. unfold consume in Hrun.
  apply and_then_None in Hrun as (st1 & H1 & H2).
  destruct (snd regions); [discriminate|].
  unfold pass in H2. injection H2 as <-.
  eapply for_each_invariant; [|exact Hinv|exact H1].
  intros t s s'. apply render_region_inv.
Qed.

Lemma consume_forced regions st :
  localorother = Some "local" \/ localorother = Some "other" ->
  same_flags st (fst (consume body regions st)).
Proof.
  intros Hforce. unfold consume. apply and_then_flags.
  - intros s. apply for_each_flags. intros. now apply render_region_forced.
  - intros s. destruct (snd regions); apply same_flags_refl.
Qed.

End Flags.

(** C10. Once [merge_lines] has run to its end without raising,
    [conflicts] is True exactly when [conflictscount] is positive; and
    with [localorother] set to "local" or "other" the run leaves
    [conflicts] False and [conflictscount] 0. *)
Theorem conflicts_iff_conflictscount {md : Mdiff} (self : Merge3Text)
    (args : Args.t) :
  let r := merge_lines self args in
  (snd r = None ->
   (conflicts (fst r) = true <-> 0 < conflictscount (fst r)))
  /\ (Args.localorother args = Some "local"
      \/ Args.localorother args = Some "other" ->
      conflicts (fst r) = false /\ conflictscount (fst r) = 0).
Proof.
  cbv zeta. unfold merge_lines, merge_lines_at, merge_lines_with. split.
  - intros Hdone.
    match type of Hdone with snd (?run) = None =>
      destruct run as [st' e] eqn:Hrun end.
    cbn in Hdone. subst e. cbn [fst].
    eapply consume_inv in Hrun; [apply Hrun|].
    unfold flags_inv. cbn [conflicts conflictscount].
    split; [split; [discriminate|intros H; exfalso; lia]|lia].
  - intros Hforce.
    pose proof (fun tw sm mm em bm nlx rs st =>
                  consume_forced tw self sm mm em bm nlx
                    (Args.localorother args) rs st Hforce) as Hkept.
    match goal with
    | |- context [consume (render_region ?tw _ ?sm ?mm ?em ?bm ?nlx _) ?rs ?st] =>
        destruct (Hkept tw sm mm em bm nlx rs st) as [H1 H2]
    end.
    split; [exact H1|exact H2].
Qed.

(** ** Which exceptions can be raised where *)

Lemma bind_Raise {A B} (r : result A) (k : A -> result B) e :
  bind r k = Raise e -> r = Raise e \/ exists x, r = Ok x /\ k x = Raise e.
Proof. destruct r as [x|e']; cbn; intros H; [eauto|left; congruence]. Qed.

Lemma bind_Ok {A B} (r : result A) (k : A -> result B) y :
  bind r k = Ok y -> exists x, r = Ok x /\ k x = Ok y.
Proof. destruct r as [x|e']; cbn; intros H; [eauto|discriminate]. Qed.

Lemma assert_Raise c info e :
  assert c info = Raise e -> e = AssertionError info /\ c = false.
Proof. destruct c; cbn; intros H; [discriminate|]. split; congruence. Qed.

Lemma assert_Ok c info u : assert c info = Ok u -> c = true.
Proof. destruct c; cbn; intros H; [reflexivity|discriminate]. Qed.

Ltac split_all := repeat match goal with |- _ /\ _ => split end.

Ltac split_bind H :=
  let H1 := fresh H in
  apply bind_Raise in H as [H1 | (? & H1 & H)];
  [try (apply assert_Raise in H1 as [H1 _]; subst;
        solve [right; left; reflexivity | right; right; eauto | eauto])|].

Lemma index_Raise {A} (l : list A) i e : Py.index l i = Raise e -> e = IndexError.
Proof. unfold Py.index. destruct (Py.getitem l i); congruence. Qed.

Lemma intersect_Raise ra rb e :
  intersect ra rb = Raise e -> internal_fault e.
Proof.
  unfold intersect, internal_fault. intros H.
  split_bind H. split_bind H.
  destruct (_ <? _); discriminate.
Qed.

Lemma compare_loop_Raise x y ixs e :
  compare_loop x y ixs = Raise e -> e = IndexError.
Proof.
  induction ixs as [|[i j] ixs IH]; cbn; [discriminate|]. intros H.
  apply bind_Raise in H as [H | (u & _ & H)]; [now apply index_Raise in H|].
  apply bind_Raise in H as [H | (v & _ & H)]; [now apply index_Raise in H|].
  destruct (negb _); [discriminate|auto].
Qed.

Lemma compare_range_Raise x xs xe y ys ye e :
  compare_range x xs xe y ys ye = Raise e -> e = IndexError.
Proof.
  unfold compare_range. destruct (negb _); [discriminate|].
  apply compare_loop_Raise.
Qed.

Lemma count_matches_Raise x y ixs e :
  count_matches x y ixs = Raise e -> e = IndexError.
Proof.
  induction ixs as [|[i j] ixs IH]; cbn; [discriminate|]. intros H.
  apply bind_Raise in H as [H | (u & _ & H)]; [now apply index_Raise in H|].
  apply bind_Raise in H as [H | (v & _ & H)]; [now apply index_Raise in H|].
  destruct (String.eqb u v); [|discriminate].
  apply bind_Raise in H as [H | (n & _ & H)]; [auto|discriminate].
Qed.

Lemma yield_range_raises l lo hi st st' e :
  yield_range l lo hi st = (st', Some e) -> e = IndexError.
Proof.
  unfold yield_range. revert st.
  induction (Py.range lo hi) as [|i ixs IH]; intros st; cbn.
  - discriminate.
  - unfold and_then, yield_item at 1.
    destruct (Py.getitem l i); cbn; [apply IH|congruence].
Qed.

Lemma yield_marker_falls m newline st :
  snd (yield_marker m newline st) = None.
Proof. destruct m; reflexivity. Qed.

Lemma and_then_raises (g1 g2 : gen) st st' e :
  (g1 >> g2) st = (st', Some e) ->
  g1 st = (st', Some e) \/ exists st1, g1 st = (st1, None) /\ g2 st1 = (st', Some e).
Proof.
  unfold and_then. destruct (g1 st) as [st1 [e1|]]; eauto.
Qed.

Lemma show_conflict_raises self sm mm em bm newline z1 z2 a1 a2 b1 b2 st st' e :
  show_conflict self sm mm em bm newline z1 z2 a1 a2 b1 b2 st = (st', Some e) ->
  e = IndexError.
Proof.
  unfold show_conflict. intros H.
  repeat (apply and_then_raises in H as [H | (? & _ & H)];
          [first [discriminate H
                 | now apply yield_range_raises in H
                 | idtac]|]).
  all: try match type of H with
           | yield_marker ?m ?n ?s = _ =>
               pose proof (yield_marker_falls m n s) as Hf;
               rewrite H in Hf; discriminate Hf
           end.
  destruct bm; [|discriminate].
  apply and_then_raises in H as [H | (? & _ & H)]; [discriminate|].
  now apply yield_range_raises in H.
Qed.

Section Faults.

Context {md : Mdiff}.

Lemma sync_of_blocks_Raise self ablock bblock e :
  sync_of_blocks self ablock bblock = Raise e -> internal_fault e.
Proof.
  unfold sync_of_blocks. destruct ablock as [[abase amatch] alen].
  destruct bblock as [[bbase bmatch] blen]. intros H.
  apply bind_Raise in H as [H | (i & _ & H)]; [now apply intersect_Raise in H|].
  destruct i as [[intbase intend]|]; [|discriminate].
  unfold internal_fault. repeat split_bind H. discriminate.
Qed.

Lemma sync_loop_Raise self amatches bmatches e :
  sync_loop self amatches bmatches = Raise e -> internal_fault e.
Proof.
  revert bmatches. induction amatches as [|ablock amatches IHa]; intros bmatches.
  - destruct bmatches; discriminate.
  - induction bmatches as [|bblock bmatches IHb]; [discriminate|].
    cbn [sync_loop]. intros H.
    apply bind_Raise in H as [H | (s & _ & H)];
      [now apply sync_of_blocks_Raise in H|].
    apply bind_Raise in H as [H | (rest & _ & H)]; [|discriminate].
    destruct (_ <? _); [now apply IHa in H|now apply IHb in H].
Qed.

Lemma find_sync_regions_Raise self e :
  find_sync_regions self = Raise e -> internal_fault e.
Proof.
  unfold find_sync_regions. destruct (matcher_texts self) as [[zt at_] bt].
  intros H. apply bind_Raise in H as [H | (sl & _ & H)]; [|discriminate].
  now apply sync_loop_Raise in H.
Qed.

Lemma classify_gap_Raise self iz zmatch ia amatch ib bmatch e :
  classify_gap self iz zmatch ia amatch ib bmatch = Raise e -> e = IndexError.
Proof.
  unfold classify_gap. intros H.
  apply bind_Raise in H as [H | (equal_a & Ha & H)];
    [now apply compare_range_Raise in H|].
  apply bind_Raise in H as [H | (equal_b & Hb & H)];
    [now apply compare_range_Raise in H|].
  apply bind_Raise in H as [H | (same & Hs & H)];
    [now apply compare_range_Raise in H|].
  destruct same, equal_a, equal_b; cbn in H; try discriminate.
  rewrite (compare_range_trans _ _ _ _ _ _ _ _ _ Ha Hb) in Hs. discriminate.
Qed.

Lemma gap_before_Raise self iz ia ib r e :
  gap_before self iz ia ib r = Raise e -> internal_fault e.
Proof.
  destruct r as [[[[[zmatch zend] amatch] aend] bmatch] bend].
  unfold gap_before. intros H. unfold internal_fault.
  repeat split_bind H.
  destruct (_ || _); [|discriminate].
  apply bind_Raise in H as [H | (g & _ & H)]; [|discriminate].
  left. now apply classify_gap_Raise in H.
Qed.

Lemma regions_loop_raises self syncs iz ia ib e :
  snd (regions_loop self syncs iz ia ib) = Some e -> internal_fault e.
Proof.
  revert iz ia ib. induction syncs as [|r syncs IH]; intros iz ia ib.
  - discriminate.
  - destruct r as [[[[[zmatch zend] amatch] aend] bmatch] bend].
    cbn [regions_loop].
    destruct (gap_before _ _ _ _ _) as [gap|e'] eqn:Hgap.
    + destruct gap as [g|]; cbn [sapp snd];
        (destruct (0 <? zend - zmatch);
         [destruct (bind _ _) as [u|e'] eqn:Hassert; cbn [sapp snd sraise];
          [apply IH
          |intros H; injection H as <-; right; left;
           repeat split_bind Hassert;
           apply assert_Raise in Hassert as [-> _]; reflexivity]
         |apply IH]).
    + cbn. intros H. injection H as <-. now apply gap_before_Raise in Hgap.
Qed.

Lemma merge_regions_raises self e :
  snd (merge_regions self) = Some e -> internal_fault e.
Proof.
  unfold merge_regions.
  destruct (find_sync_regions self) as [syncs|e'] eqn:Hsync.
  - apply regions_loop_raises.
  - cbn. intros H. injection H as <-. now apply find_sync_regions_Raise in Hsync.
Qed.

Lemma minimize_region_Raise self r e :
  minimize_region self r = Raise e -> e = IndexError.
Proof.
  destruct r; cbn; try discriminate. intros H.
  apply bind_Raise in H as [H | (s & _ & H)];
    [now apply count_matches_Raise in H|].
  apply bind_Raise in H as [H | (n & _ & H)];
    [now apply count_matches_Raise in H|discriminate].
Qed.

Lemma minimize_list_raises self rs tail e :
  snd (minimize_list self rs tail) = Some e -> e = IndexError \/ tail = Some e.
Proof.
  induction rs as [|r rs IH]; cbn [minimize_list].
  - cbn. auto.
  - destruct (minimize_region self r) as [l|e'] eqn:Hr.
    + cbn [sapp snd]. exact IH.
    + cbn. intros H. injection H as <-. left.
      now apply minimize_region_Raise in Hr.
Qed.

(** The regions [merge_lines] loops over end in an internal fault, if
    they end in an exception at all. *)
Lemma regions_of_merge_lines_raise self (minimized : bool) e :
  snd (if minimized then minimize self (merge_regions self)
       else merge_regions self) = Some e ->
  internal_fault e.
Proof.
  destruct minimized; [|apply merge_regions_raises].
  unfold minimize. intros H. apply minimize_list_raises in H as [->|H].
  - now left.
  - now apply merge_regions_raises in H.
Qed.

End Faults.

(** ** The word-merge fallback *)

Lemma for_each_raises {X} (f : X -> gen) xs st st' e :
  for_each xs f st = (st', Some e) ->
  exists x s, In x xs /\ f x s = (st', Some e).
Proof.
  revert st. induction xs as [|x xs IH]; intros st; cbn; [discriminate|].
  intros H. apply and_then_raises in H as [H | (st1 & _ & H)].
  - eauto.
  - apply IH in H as (x' & s & Hin & H). eauto.
Qed.

Lemma yield_merged_lines ls st :
  for_each ls (fun line => yield (Merged line)) st
  = (emit (map Merged ls) st, None).
Proof.
  revert st. induction ls as [|l ls IH]; intros st; cbn.
  - unfold pass. now rewrite emit_nil.
  - unfold and_then. cbn. rewrite IH. now rewrite emit_emit.
Qed.

Section WordMerge.

Context {md : Mdiff}.

Lemma render_region_ext tw1 tw2 self sm mm em bm newline lo t st :
  (wordmerge self = ondemand -> forall x y z, tw1 x y z = tw2 x y z) ->
  render_region tw1 self sm mm em bm newline lo t st
  = render_region tw2 self sm mm em bm newline lo t st.
Proof.
  intros H. destruct t; try reflexivity. cbn [render_region].
  destruct (wordmerge self); try reflexivity.
  now rewrite H.
Qed.

Lemma merge_lines_with_ext tw1 tw2 self args :
  (wordmerge self = ondemand -> forall x y z, tw1 x y z = tw2 x y z) ->
  merge_lines_with tw1 self args = merge_lines_with tw2 self args.
Proof.
  intros H. unfold merge_lines_with, consume, and_then.
  erewrite for_each_ext; [reflexivity|].
  intros t st. now apply render_region_ext.
Qed.

Lemma merge_lines_with_enforced tw1 tw2 self args :
  wordmerge self = enforced ->
  merge_lines_with tw1 self args = merge_lines_with tw2 self args.
Proof.
  intros H. apply merge_lines_with_ext. rewrite H. discriminate.
Qed.

Lemma trywordmerge_with_indep tw1 tw2 x y z :
  trywordmerge_with tw1 x y z = trywordmerge_with tw2 x y z.
Proof.
  unfold trywordmerge_with.
  now rewrite (merge_lines_with_enforced tw1 tw2).
Qed.

Lemma trywordmerge_at_succ d x y z :
  trywordmerge_at (S d) x y z = trywordmerge_at 1 x y z.
Proof. cbn [trywordmerge_at]. apply trywordmerge_with_indep. Qed.

Lemma merge_lines_at_succ d self args :
  merge_lines_at (S d) self args = merge_lines_at 1 self args.
Proof.
  unfold merge_lines_at. apply merge_lines_with_ext. intros _ x y z.
  apply trywordmerge_at_succ.
Qed.

Lemma render_conflict_enforced tw self sm mm em bm newline lo
    z1 z2 a1 a2 b1 b2 st :
  wordmerge self = enforced -> unforced lo ->
  render_region tw self sm mm em bm newline lo (Conflict z1 z2 a1 a2 b1 b2) st
  = ({| out := out st; conflicts := true;
        conflictscount := conflictscount st |},
     Some CantShowWordConflicts).
Proof.
  intros Hmode [Hl Ho]. cbn [render_region]. now rewrite Hl, Ho, Hmode.
Qed.

Lemma render_region_raises tw self sm mm em bm newline lo t st st' e :
  render_region tw self sm mm em bm newline lo t st = (st', Some e) ->
  e = IndexError
  \/ (e = CantShowWordConflicts /\ wordmerge self = enforced
      /\ is_conflict t = true)
  \/ (wordmerge self = ondemand /\ exists x y z, tw x y z = Raise e).
Proof.
  destruct t; cbn [render_region]; intros H;
    try (left; eapply yield_range_raises; exact H).
  destruct (option_string_eqb lo "local");
    [left; eapply yield_range_raises; exact H|].
  destruct (option_string_eqb lo "other");
    [left; eapply yield_range_raises; exact H|].
  destruct (wordmerge self) eqn:Hmode.
  - cbn in H. injection H as _ <-. right. left. auto.
  - destruct (tw _ _ _) as [[resolved|]|e'] eqn:Htw.
    + destruct (Py.truthy (Some resolved)).
      * rewrite yield_merged_lines in H. discriminate.
      * left. eapply show_conflict_raises; exact H.
    + left. eapply show_conflict_raises; exact H.
    + cbn in H. injection H as _ <-. right. right. eauto 6.
  - left. eapply show_conflict_raises; exact H.
Qed.

Lemma merge_lines_with_raises tw self args e :
  snd (merge_lines_with tw self args) = Some e ->
  internal_fault e
  \/ (e = CantShowWordConflicts /\ wordmerge self = enforced
      /\ exists t, In t (fst (if Args.minimize args
                             then minimize self (merge_regions self)
                             else merge_regions self))
                   /\ is_conflict t = true)
  \/ (wordmerge self = ondemand /\ exists x y z, tw x y z = Raise e).
Proof.
  unfold merge_lines_with.
  match goal with |- snd ?run = _ -> _ => destruct run as [st' e'] eqn:Hrun end.
  cbn [snd]. intros ->. unfold consume in Hrun.
  apply and_then_raises in Hrun as [Hrun | (st1 & _ & Hrun)].
  - apply for_each_raises in Hrun as (t & s & Hin & Hrun).
    apply render_region_raises in Hrun as [-> | [(-> & Hmode & Ht) | Htw]].
    + left. now left.
    + right. left. eauto.
    + right. right. exact Htw.
  - left. apply (regions_of_merge_lines_raise self (Args.minimize args)).
    destruct (snd _); [|discriminate]. unfold raise in Hrun. congruence.
Qed.

Lemma init_enforced x y z : wordmerge (Merge3Text_init x y z enforced) = enforced.
Proof. reflexivity. Qed.

Lemma trywordmerge_with_Raise tw x y z e :
  trywordmerge_with tw x y z = Raise e -> internal_fault e.
Proof.
  unfold trywordmerge_with.
  destruct (merge_lines_with _ _ _) as [st [e'|]] eqn:Hrun; [|discriminate].
  intros H.
  assert (e' = e /\ e <> CantShowWordConflicts) as [-> Hne]
    by (destruct e'; split; congruence).
  pose proof (merge_lines_with_raises tw (Merge3Text_init x y z enforced)
                Args.default e) as Hkinds.
  rewrite Hrun in Hkinds.
  destruct (Hkinds eq_refl) as [Hf | [(-> & _) | (Hmode & _)]].
  - exact Hf.
  - congruence.
  - rewrite init_enforced in Hmode. discriminate.
Qed.

Lemma internal_fault_not_recursion e : internal_fault e -> e <> RecursionError.
Proof. intros [-> | [-> | (l1 & l2 & ->)]]; discriminate. Qed.

Lemma internal_fault_not_cantshow e :
  internal_fault e -> e <> CantShowWordConflicts.
Proof. intros [-> | [-> | (l1 & l2 & ->)]]; discriminate. Qed.

Lemma merge_lines_raises self args e :
  snd (merge_lines self args) = Some e ->
  internal_fault e \/ (e = CantShowWordConflicts /\ wordmerge self = enforced).
Proof.
  intros H. apply merge_lines_with_raises in H as [H | [(-> & Hm & _) | (_ & Htw)]];
    auto.
  destruct Htw as (x & y & z & Htw). left.
  now apply trywordmerge_with_Raise in Htw.
Qed.

End WordMerge.

(** C8. The word-merge recursion has depth at most two.  A merge in
    enforced mode that reaches a conflict region with no side forced
    raises CantShowWordConflicts, and what it does never depends on the
    function a word merge would call; so every depth budget of one or
    more gives what [trywordmerge] and [merge_lines] give with a budget
    of one, and RecursionError is never raised. *)
Theorem word_merge_depth_two {md : Mdiff} (self : Merge3Text) (args : Args.t)
    (d : nat) :
  (forall tw sm mm em bm newline lo z1 z2 a1 a2 b1 b2 st,
      wordmerge self = enforced -> unforced lo ->
      render_region tw self sm mm em bm newline lo
        (Conflict z1 z2 a1 a2 b1 b2) st
      = ({| out := out st; conflicts := true;
            conflictscount := conflictscount st |},
         Some CantShowWordConflicts))
  /\ (forall tw1 tw2,
         wordmerge self = enforced ->
         merge_lines_with tw1 self args = merge_lines_with tw2 self args)
  /\ (forall x y z tw, trywordmerge_with tw x y z = trywordmerge x y z)
  /\ (forall x y z, trywordmerge_at (S d) x y z = trywordmerge x y z)
  /\ merge_lines_at (S d) self args = merge_lines self args
  /\ snd (merge_lines_at (S d) self args) <> Some RecursionError.
Proof.
  split_all.
  - intros. now apply render_conflict_enforced.
  - intros. now apply merge_lines_with_enforced.
  - intros. apply trywordmerge_with_indep.
  - intros. apply trywordmerge_at_succ.
  - apply merge_lines_at_succ.
  - rewrite merge_lines_at_succ. intros H.
    apply merge_lines_raises in H as [H | [H _]]; [|discriminate].
    now apply internal_fault_not_recursion in H.
Qed.

(** C7. [trywordmerge] returns the joined output of its inner enforced
    merge when that merge runs to its end, which it does not when the
    regions hold a conflict; it returns None exactly when the inner
    merge raises CantShowWordConflicts; any other exception of the inner
    merge passes through.  [merge_lines] itself recovers nothing: when
    CantShowWordConflicts leaves it the merge was in enforced mode, so
    outside enforced mode the exception is only ever seen, and turned
    into None, by [trywordmerge]. *)
Theorem trywordmerge_recovers_only_cantshow {md : Mdiff} (x y z : bytes) :
  let m3 := Merge3Text_init x y z enforced in
  let inner := merge_lines m3 Args.default in
  (snd inner = None -> trywordmerge x y z = Ok (Some (merged_text inner)))
  /\ (trywordmerge x y z = Ok None <-> snd inner = Some CantShowWordConflicts)
  /\ (forall e, snd inner = Some e -> e <> CantShowWordConflicts ->
                trywordmerge x y z = Raise e)
  /\ (forallb (fun t => negb (is_conflict t)) (fst (merge_regions m3)) = true ->
      trywordmerge x y z <> Ok None)
  /\ (forall self args,
         snd (merge_lines self args) = Some CantShowWordConflicts ->
         wordmerge self = enforced)
  /\ (forall e, trywordmerge x y z = Raise e -> e <> CantShowWordConflicts).
Proof.
  cbv zeta.
  assert (merge_lines (Merge3Text_init x y z enforced) Args.default
          = merge_lines_with (trywordmerge_at 0)
              (Merge3Text_init x y z enforced) Args.default) as Hinner
    by (apply merge_lines_with_enforced; reflexivity).
  assert (snd (merge_lines (Merge3Text_init x y z enforced) Args.default)
          = Some CantShowWordConflicts ->
          trywordmerge x y z = Ok None) as Hnone.
  { rewrite Hinner. unfold trywordmerge. cbn [trywordmerge_at].
    unfold trywordmerge_with.
    destruct (merge_lines_with _ _ _) as [st r]. cbn. now intros ->. }
  split_all; [| split | | | |].
  - rewrite Hinner. unfold trywordmerge, merged_text, lines.
    cbn [trywordmerge_at]. unfold trywordmerge_with.
    destruct (merge_lines_with _ _ _) as [st r]. cbn. now intros ->.
  - rewrite Hinner. unfold trywordmerge. cbn [trywordmerge_at].
    unfold trywordmerge_with.
    destruct (merge_lines_with _ _ _) as [st [[]|]]; cbn; congruence.
  - exact Hnone.
  - intros e. rewrite Hinner. unfold trywordmerge. cbn [trywordmerge_at].
    unfold trywordmerge_with.
    destruct (merge_lines_with _ _ _) as [st r]. cbn. intros -> Hne.
    destruct e; congruence.
  - intros Hfree Hnone'.
    assert (snd (merge_lines (Merge3Text_init x y z enforced) Args.default)
            = Some CantShowWordConflicts) as Hraised.
    { revert Hnone'. rewrite Hinner. unfold trywordmerge.
      cbn [trywordmerge_at]. unfold trywordmerge_with.
      destruct (merge_lines_with _ _ _) as [st [[]|]]; cbn; congruence. }
    apply merge_lines_with_raises in Hraised
      as [Hf | [(_ & _ & t & Hin & Ht) | (Hmode & _)]].
    + now apply internal_fault_not_cantshow in Hf.
    + cbn [Args.minimize Args.default] in Hin.
      rewrite forallb_forall in Hfree. apply Hfree in Hin.
      rewrite Ht in Hin. discriminate.
    + discriminate.
  - intros self args H. apply merge_lines_raises in H as [H | [_ H]]; [|exact H].
    now apply internal_fault_not_cantshow in H.
  - intros e H. apply trywordmerge_with_Raise in H.
    now apply internal_fault_not_cantshow.
Qed.

(** ** The region classifier *)

(** C4. In the classifier, a gap whose [a] range and [b] range both
    compare equal to the [base] range has equal [a] and [b] ranges, so
    the final [else] of the classification is never reached:
    neither [classify_gap] nor [merge_regions] raises its
    AssertionError. *)
Theorem unmatched_gap_unreachable {md : Mdiff} (self : Merge3Text) :
  (forall iz zmatch ia amatch ib bmatch,
      compare_range (a self) ia amatch (base self) iz zmatch = Ok true ->
      compare_range (b self) ib bmatch (base self) iz zmatch = Ok true ->
      compare_range (a self) ia amatch (b self) ib bmatch = Ok true)
  /\ (forall iz zmatch ia amatch ib bmatch,
         classify_gap self iz zmatch ia amatch ib bmatch <> Raise unmatched)
  /\ snd (merge_regions self) <> Some unmatched.
Proof.
  split_all.
  - intros iz zmatch ia amatch ib bmatch. apply compare_range_trans.
  - intros iz zmatch ia amatch ib bmatch H.
    apply classify_gap_Raise in H. discriminate.
  - intros H. apply merge_regions_raises in H as [H | [H | (l1 & l2 & H)]];
      discriminate.
Qed.

(** ** find_sync_regions *)

Section SyncRegions.

Context {md : Mdiff}.
Variable self : Merge3Text.

Lemma sync_of_blocks_Ok ablock bblock r :
  sync_of_blocks self ablock bblock = Ok (Some r) -> sync_ok self r.
Proof.
  unfold sync_of_blocks. destruct ablock as [[abase amatch] alen].
  destruct bblock as [[bbase bmatch] blen]. intros H.
  apply bind_Ok in H as (i & _ & H).
  destruct i as [[intbase intend]|]; [|discriminate].
  do 4 (apply bind_Ok in H as (? & _ & H)).
  apply bind_Ok in H as (? & Ha & H). apply bind_Ok in H as (? & Hb & H).
  injection H as <-.
  apply assert_Ok, PyFacts.tokens_eqb_true in Ha.
  apply assert_Ok, PyFacts.tokens_eqb_true in Hb.
  unfold sync_ok. split_all; try assumption; lia.
Qed.

Lemma sync_loop_Ok amatches bmatches sl :
  sync_loop self amatches bmatches = Ok sl -> Forall (sync_ok self) sl.
Proof.
  revert bmatches sl.
  induction amatches as [|ablock amatches IHa]; intros bmatches.
  - destruct bmatches; intros sl H; injection H as <-; constructor.
  - induction bmatches as [|bblock bmatches IHb]; intros sl H.
    + injection H as <-. constructor.
    + cbn [sync_loop] in H.
      apply bind_Ok in H as (s & Hs & H). apply bind_Ok in H as (rest & Hrest & H).
      injection H as <-.
      assert (Forall (sync_ok self) rest) as Hok
        by (destruct (_ <? _); eauto).
      destruct s as [r|]; [|exact Hok].
      constructor; [|exact Hok]. eapply sync_of_blocks_Ok; eassumption.
Qed.

Lemma final_sync_ok : sync_ok self (final_sync self).
Proof.
  unfold sync_ok, final_sync. split_all; try lia.
  - rewrite !PyFacts.slice_empty; unfold Py.len; (reflexivity || lia).
  - rewrite !PyFacts.slice_empty; unfold Py.len; (reflexivity || lia).
Qed.

End SyncRegions.

(** C5. Every sync region [find_sync_regions] returns has
    [base[z1:z2] == a[a1:a2] == b[b1:b2]] with the three lengths equal,
    and the last region of the list is the empty one at the ends of
    [base], [a] and [b]. *)
Theorem find_sync_regions_sound {md : Mdiff} (self : Merge3Text)
    (sl : list sync_region) :
  find_sync_regions self = Ok sl ->
  Forall (sync_ok self) sl
  /\ exists front, sl = front ++ [final_sync self].
Proof.
  unfold find_sync_regions. destruct (matcher_texts self) as [[zt at_] bt].
  intros H. apply bind_Ok in H as (front & Hloop & H). injection H as <-.
  split; [|eauto].
  apply Forall_app. split.
  - eapply sync_loop_Ok; eassumption.
  - constructor; [apply final_sync_ok|constructor].
Qed.

(** ** splitwordswithoutemptylines *)

Lemma join_single_length buf :
  Forall (fun w => w <> "") buf ->
  (List.length buf <= String.length (Py.join buf))%nat.
Proof.
  induction 1 as [|w buf Hw _ IH]; [apply Nat.le_refl|].
  change (w :: buf) with ([w] ++ buf). rewrite PyFacts.join_app.
  rewrite PyFacts.length_append. cbn [List.length app].
  assert (1 <= String.length (Py.join [w]))%nat; [|lia].
  cbn. destruct w; [congruence|cbn; lia].
Qed.

(** A token built from non-empty words is "\n" only if it is the single
    word "\n". *)
Lemma join_is_newline buf :
  Forall (fun w => w <> "") buf -> Py.join buf = nl -> buf = [nl].
Proof.
  intros Hne Hjoin. pose proof (join_single_length buf Hne) as Hlen.
  rewrite Hjoin in Hlen. cbn in Hlen.
  destruct buf as [|w [|w' buf]]; cbn in Hlen; try lia.
  - discriminate.
  - cbn in Hjoin. now subst.
Qed.

Lemma fold_newlines_started words buf :
  Forall (fun w => w <> "") words -> Forall (fun w => w <> "") buf ->
  buf <> [] -> buf <> [nl] ->
  ~ In nl (fold_newlines words buf).
Proof.
  intros Hwords. revert buf.
  induction Hwords as [|word words Hword _ IH]; intros buf Hbuf Hne Hnl.
  - destruct buf as [|w0 buf]; [congruence|]. cbn [fold_newlines].
    intros [H|[]]. now apply join_is_newline in H.
  - cbn [fold_newlines].
    assert ((@Py.len bytes buf =? 0) = false) as ->
      by (destruct buf; [congruence|reflexivity]).
    rewrite andb_true_r.
    destruct (String.eqb_spec word nl) as [->|Hword'].
    + cbn [negb]. apply IH.
      * apply Forall_app. split; [assumption|]. now constructor.
      * now destruct buf.
      * destruct buf as [|? [|? ?]]; cbn; congruence.
    + cbn [negb]. intros [H|H].
      * now apply join_is_newline in H.
      * revert H. apply IH; [now constructor|discriminate|congruence].
Qed.

Lemma fold_newlines_later words buf :
  Forall (fun w => w <> "") words -> Forall (fun w => w <> "") buf ->
  buf <> [] ->
  ~ In nl (tl (fold_newlines words buf)).
Proof.
  intros Hwords. revert buf.
  induction Hwords as [|word words Hword Hwords IH]; intros buf Hbuf Hne.
  - destruct buf as [|w0 buf]; [congruence|]. cbn [fold_newlines tl In]. tauto.
  - cbn [fold_newlines].
    assert ((@Py.len bytes buf =? 0) = false) as ->
      by (destruct buf; [congruence|reflexivity]).
    rewrite andb_true_r.
    destruct (String.eqb_spec word nl) as [->|Hword'].
    + cbn [negb]. apply IH.
      * apply Forall_app. split; [assumption|]. now constructor.
      * now destruct buf.
    + cbn [negb tl].
      apply fold_newlines_started;
        [assumption|now constructor|discriminate|congruence].
Qed.

(** C9, amended.  When no word is empty, no token of
    [splitwordswithoutemptylines] after the first is "\n", and none at
    all when the first word of the buffer is not "\n". *)
Theorem no_newline_token_after_first {md : Mdiff} (text : bytes) :
  Forall (fun w => w <> "") (splitwords text) ->
  ~ In nl (tl (splitwordswithoutemptylines text))
  /\ (hd_error (splitwords text) <> Some nl ->
      ~ In nl (splitwordswithoutemptylines text)).
Proof.
  unfold splitwordswithoutemptylines. intros Hwords.
  destruct (splitwords text) as [|word words]; [cbn; tauto|].
  inversion Hwords as [|? ? Hword Hrest]; subst.
  cbn [fold_newlines Py.len List.length Z.of_nat Z.eqb negb andb app].
  rewrite andb_false_r. split.
  - apply fold_newlines_later; [assumption|now constructor|discriminate].
  - cbn [hd_error]. intros Hfirst.
    apply fold_newlines_started;
      [assumption|now constructor|discriminate|congruence].
Qed.

(** ** Scenarios *)

(** C6. With [base = "one\n"], [a = "two\n"], [b = "three\n"], the
    default markers, word merge disabled and no side forced,
    [merge_lines] yields "<<<<<<<\n", "two\n", "=======\n", "three\n",
    ">>>>>>>\n" and counts one conflict.  The lines of the three texts
    are the texts themselves, and the matcher finds no common line. *)
Theorem conflicting_change {md : Mdiff} :
  splitnewlines (line "one") = [line "one"] ->
  splitnewlines (line "two") = [line "two"] ->
  splitnewlines (line "three") = [line "three"] ->
  get_matching_blocks (line "one") (line "two") = [(1, 1, 0)] ->
  get_matching_blocks (line "one") (line "three") = [(1, 1, 0)] ->
  let r := merge_lines
             (Merge3Text_init (line "one") (line "two") (line "three") disabled)
             Args.default in
  snd r = None
  /\ lines r = [line "<<<<<<<"; line "two"; line "======="; line "three";
                line ">>>>>>>"]
  /\ merged_text r
     = (line "<<<<<<<" ++ line "two" ++ line "=======" ++ line "three"
        ++ line ">>>>>>>")%string
  /\ conflicts (fst r) = true
  /\ conflictscount (fst r) = 1.
Proof.
  intros H1 H2 H3 Ha Hb.
  unfold merge_lines, merge_lines_at, merge_lines_with, merged_text, lines,
    merge_regions, find_sync_regions, matcher_texts, Merge3Text_init.
  cbn [wordmergemode_eqb wordmerge basetext atext btext].
  rewrite H1, H2, H3, Ha, Hb.
  vm_compute. split_all; reflexivity.
Qed.

(** The scenario under the model of [mdiff]. *)
Lemma conflicting_change_witness :
  let r := @merge_lines SpecMdiff.mdiff
             (@Merge3Text_init SpecMdiff.mdiff
                (line "one") (line "two") (line "three") disabled)
             Args.default in
  snd r = None
  /\ lines r = [line "<<<<<<<"; line "two"; line "======="; line "three";
                line ">>>>>>>"]
  /\ merged_text r
     = (line "<<<<<<<" ++ line "two" ++ line "=======" ++ line "three"
        ++ line ">>>>>>>")%string
  /\ conflicts (fst r) = true
  /\ conflictscount (fst r) = 1.
Proof.
  apply (@conflicting_change SpecMdiff.mdiff); reflexivity.
Defined.

Lemma find_sync_regions_sound_witness :
  let self := @Merge3Text_init SpecMdiff.mdiff
                (line "a" ++ line "b" ++ line "c")%string
                (line "A" ++ line "b" ++ line "c")%string
                (line "a" ++ line "b" ++ line "C")%string disabled in
  Forall (sync_ok self) [(1, 2, 1, 2, 1, 2); (3, 3, 3, 3, 3, 3)]
  /\ exists front,
       [(1, 2, 1, 2, 1, 2); (3, 3, 3, 3, 3, 3)] = front ++ [final_sync self].
Proof.
  cbv zeta. apply (@find_sync_regions_sound SpecMdiff.mdiff). reflexivity.
Defined.

(** C9 as stated fails: a buffer that starts with a newline has the
    token "\n", there being no token before it to fold it into. *)
Lemma newline_token_counterexample :
  ~ (forall text : bytes,
        ~ In nl (@splitwordswithoutemptylines SpecMdiff.mdiff text)).
Proof.
  intros H. apply (H (nl ++ "x")%string). vm_compute. left. reflexivity.
Qed.

Lemma no_newline_token_after_first_witness :
  let text := (line "ab  c" ++ nl ++ "d")%string in
  Forall (fun w => w <> "") (@splitwords SpecMdiff.mdiff text)
  /\ ~ In nl (tl (@splitwordswithoutemptylines SpecMdiff.mdiff text))
  /\ ~ In nl (@splitwordswithoutemptylines SpecMdiff.mdiff text).
Proof.
  cbv zeta.
  assert (Forall (fun w => w <> "")
            (@splitwords SpecMdiff.mdiff (line "ab  c" ++ nl ++ "d")%string))
    as Hwords by (vm_compute; repeat constructor; discriminate).
  destruct (@no_newline_token_after_first SpecMdiff.mdiff
              (line "ab  c" ++ nl ++ "d")%string Hwords) as [Hlater Hall].
  split; [exact Hwords|]. split; [exact Hlater|].
  apply Hall. vm_compute. discriminate.
Defined.

(** ** What the renderer yields for regions within bounds *)

Lemma rendered_rendered st cs1 n1 cs2 n2 :
  0 <= n1 -> 0 <= n2 ->
  rendered (rendered st cs1 n1) cs2 n2 = rendered st (cs1 ++ cs2) (n1 + n2).
Proof.
  intros H1 H2. unfold rendered. cbn. f_equal.
  - now rewrite app_assoc.
  - rewrite <- orb_assoc. f_equal.
    destruct (Z.ltb_spec 0 n1), (Z.ltb_spec 0 n2), (Z.ltb_spec 0 (n1 + n2));
      (reflexivity || lia).
  - lia.
Qed.

Lemma rendered_zero st cs : rendered st cs 0 = emit cs st.
Proof.
  unfold rendered, emit. cbn. now rewrite orb_false_r, Z.add_0_r.
Qed.

Lemma yield_marker_ok m newline st :
  yield_marker m newline st = (emit (marker_chunk m newline) st, None).
Proof.
  destruct m; cbn; [reflexivity|]. unfold pass. now rewrite emit_nil.
Qed.

Lemma show_conflict_ok self sm mm em bm newline z1 z2 a1 a2 b1 b2 st :
  region_within self (Conflict z1 z2 a1 a2 b1 b2) ->
  show_conflict self sm mm em bm newline z1 z2 a1 a2 b1 b2 st
  = (rendered st (shown_conflict self sm mm em bm newline z1 z2 a1 a2 b1 b2) 1,
     None).
Proof.
  intros (Hz & Ha & Hb). destruct Hz, Ha, Hb.
  unfold show_conflict, shown_conflict, and_then.
  rewrite yield_marker_ok, yield_range_ok by assumption.
  destruct bm as [m|].
  - cbn [yield]. rewrite yield_range_ok by assumption.
    rewrite yield_marker_ok, yield_range_ok by assumption.
    rewrite yield_marker_ok. rewrite !emit_emit.
    unfold emit, rendered. cbn. rewrite orb_true_r.
    rewrite <- ?app_assoc. reflexivity.
  - unfold pass. rewrite yield_marker_ok, yield_range_ok by assumption.
    rewrite yield_marker_ok. rewrite !emit_emit.
    unfold emit, rendered. cbn. rewrite orb_true_r.
    rewrite <- ?app_assoc. reflexivity.
Qed.

Section Shown.

Context {md : Mdiff}.
Variable trywordmerge : bytes -> bytes -> bytes -> result (option bytes).
Variable self : Merge3Text.
Variables start_marker mid_marker end_marker base_marker : option bytes.
Variable newline : bytes.
Variable localorother : option string.

Lemma render_region_shown t st :
  region_within self t -> plain self localorother [t] ->
  render_region trywordmerge self start_marker mid_marker end_marker
    base_marker newline localorother t st
  = (rendered st
       (shown self start_marker mid_marker end_marker base_marker newline
          localorother t)
       (if counted localorother t then 1 else 0),
     None).
Proof.
  intros Hin Hplain.
  unfold counted.
  destruct t; cbn [render_region shown is_conflict andb];
    try (destruct Hin; rewrite yield_range_ok, rendered_zero by assumption;
         reflexivity).
  destruct Hin as (Hz & Ha & Hb).
  destruct (option_string_eqb localorother "local") eqn:Hl; cbn [negb andb];
    [destruct Ha; rewrite yield_range_ok, rendered_zero by assumption;
     reflexivity|].
  destruct (option_string_eqb localorother "other") eqn:Ho; cbn [negb andb];
    [destruct Hb; rewrite yield_range_ok, rendered_zero by assumption;
     reflexivity|].
  destruct Hplain as [-> | Hnone].
  - cbn [negb]. now apply show_conflict_ok.
  - specialize (Hnone _ (or_introl eq_refl)). unfold counted in Hnone.
    rewrite Hl, Ho in Hnone. discriminate.
Qed.

Lemma count_of_nonneg rs : 0 <= count_of localorother rs.
Proof. unfold count_of. lia. Qed.

Lemma count_of_cons t rs :
  count_of localorother (t :: rs)
  = (if counted localorother t then 1 else 0) + count_of localorother rs.
Proof.
  unfold count_of. cbn [filter]. destruct (counted localorother t);
    cbn [List.length]; lia.
Qed.

Lemma render_regions_shown rs st :
  Forall (region_within self) rs -> plain self localorother rs ->
  for_each rs
    (render_region trywordmerge self start_marker mid_marker end_marker
       base_marker newline localorother) st
  = (rendered st
       (flat_map (shown self start_marker mid_marker end_marker base_marker
                    newline localorother) rs)
       (count_of localorother rs),
     None).
Proof.
  intros Hin. revert st. induction Hin as [|t rs Ht _ IH]; intros st Hplain.
  - cbn. unfold pass, rendered, count_of. cbn.
    destruct st; cbn. now rewrite app_nil_r, orb_false_r, Z.add_0_r.
  - cbn [for_each flat_map]. unfold and_then.
    rewrite render_region_shown;
      [|assumption
       |destruct Hplain as [H|H]; [now left|right; intros t' [<-|[]];
                                     apply H; now left]].
    rewrite IH
      by (destruct Hplain as [H|H]; [now left|right; intros t' Ht';
                                       apply H; now right]).
    rewrite rendered_rendered, count_of_cons;
      [reflexivity|destruct (counted _ _); lia|apply count_of_nonneg].
Qed.

End Shown.

(** ** minimize *)

Lemma has_cover l lo m1 m2 hi s :
  lo <= m1 <= hi -> lo <= m2 <= hi ->
  has l lo hi s <-> has l lo m1 s \/ has l m1 m2 s \/ has l m2 hi s.
Proof.
  intros H1 H2. unfold has. split.
  - intros (k & Hk & Hs).
    destruct (Z.lt_ge_cases k m1); [left; exists k; split; [lia|assumption]|].
    destruct (Z.lt_ge_cases k m2);
      [right; left|right; right]; exists k; (split; [lia|assumption]).
  - intros [(k & Hk & Hs) | [(k & Hk & Hs) | (k & Hk & Hs)]];
      exists k; (split; [lia|assumption]).
Qed.

Lemma has_shifted x y p q n s :
  (forall ii, 0 <= ii < n -> Py.getitem x (p + ii) = Py.getitem y (q + ii)) ->
  has x p (p + n) s <-> has y q (q + n) s.
Proof.
  intros Heq. unfold has. split; intros (k & Hk & Hs).
  - exists (q + (k - p)). split; [lia|].
    rewrite <- Heq by lia. now replace (p + (k - p)) with k by lia.
  - exists (p + (k - q)). split; [lia|].
    rewrite Heq by lia. now replace (q + (k - q)) with k by lia.
Qed.

Lemma has_mirrored x y p q n s :
  (forall ii, 0 <= ii < n ->
              Py.getitem x (p - ii - 1) = Py.getitem y (q - ii - 1)) ->
  has x (p - n) p s <-> has y (q - n) q s.
Proof.
  intros Heq. unfold has. split; intros (k & Hk & Hs).
  - exists (q - (p - 1 - k) - 1). split; [lia|].
    rewrite <- Heq by lia. now replace (p - (p - 1 - k) - 1) with k by lia.
  - exists (p - (q - 1 - k) - 1). split; [lia|].
    rewrite Heq by lia. now replace (q - (q - 1 - k) - 1) with k by lia.
Qed.

Lemma in_tokens l lo hi s :
  within l lo hi -> In (Token s) (map Token (Py.slice l lo hi)) <-> has l lo hi s.
Proof.
  intros [H1 H2]. unfold has. rewrite <- PyFacts.in_slice by assumption.
  rewrite in_map_iff. split.
  - intros (x & Hx & Hin). now injection Hx as ->.
  - intros Hin. eauto.
Qed.

Lemma not_in_marker_chunk m newline s : ~ In (Token s) (marker_chunk m newline).
Proof. destruct m; cbn; [intros [H|[]]; discriminate|tauto]. Qed.

Lemma markers_of_app cs1 cs2 :
  markers_of (cs1 ++ cs2) = markers_of cs1 ++ markers_of cs2.
Proof. apply filter_app. Qed.

Lemma markers_of_tokens l : markers_of (map Token l) = [].
Proof. induction l; [reflexivity|assumption]. Qed.

Lemma markers_of_marker_chunk m newline :
  markers_of (marker_chunk m newline) = marker_chunk m newline.
Proof. now destruct m. Qed.

Lemma count_matches_spec x y (f : Z -> Z * Z) lo hi :
  (forall ii, lo <= ii < hi ->
              (exists u, Py.getitem x (fst (f ii)) = Some u)
              /\ (exists v, Py.getitem y (snd (f ii)) = Some v)) ->
  exists n, count_matches x y (map f (Py.range lo hi)) = Ok n
            /\ 0 <= n <= Z.max 0 (hi - lo)
            /\ forall ii, lo <= ii < lo + n ->
                          Py.getitem x (fst (f ii)) = Py.getitem y (snd (f ii)).
Proof.
  remember (Z.to_nat (hi - lo)) as len eqn:Hlen. revert lo Hlen.
  induction len as [|len IH]; intros lo Hlen Hget.
  - rewrite PyFacts.range_nil by lia. exists 0. cbn.
    split; [reflexivity|]. split; [lia|]. intros ii Hii. lia.
  - rewrite PyFacts.range_cons by lia. cbn [map count_matches].
    destruct (Hget lo) as [[u Hu] [v Hv]]; [lia|].
    destruct (f lo) as [i j] eqn:Hf. cbn [fst snd] in Hu, Hv.
    unfold Py.index. rewrite Hu, Hv. cbn [bind].
    destruct (String.eqb_spec u v) as [->|Hne].
    + destruct (IH (lo + 1)) as (n & Hn & Hbound & Hsame); [lia| |].
      { intros ii Hii. apply Hget. lia. }
      exists (n + 1). rewrite Hn. cbn [bind].
      split; [reflexivity|]. split; [lia|].
      intros ii Hii. destruct (Z.eq_dec ii lo) as [->|].
      * rewrite Hf. cbn [fst snd]. congruence.
      * apply Hsame. lia.
    + exists 0. split; [reflexivity|]. split; [lia|]. intros ii Hii. lia.
Qed.

Section Minimize.

Context {md : Mdiff}.
Variable self : Merge3Text.
Variables start_marker mid_marker end_marker base_marker : option bytes.
Variable newline : bytes.
Variable localorother : option string.

Abbreviation shown_here :=
  (shown self start_marker mid_marker end_marker base_marker newline
     localorother).

Lemma in_shown_conflict z1 z2 a1 a2 b1 b2 s :
  region_within self (Conflict z1 z2 a1 a2 b1 b2) ->
  In (Token s)
     (shown_conflict self start_marker mid_marker end_marker base_marker
        newline z1 z2 a1 a2 b1 b2)
  <-> has (a self) a1 a2 s
      \/ (base_marker <> None /\ has (base self) z1 z2 s)
      \/ has (b self) b1 b2 s.
Proof.
  intros (Hz & Ha & Hb). unfold shown_conflict. rewrite !in_app_iff.
  rewrite (in_tokens (a self)), (in_tokens (b self)) by assumption.
  pose proof (not_in_marker_chunk start_marker newline s).
  pose proof (not_in_marker_chunk mid_marker newline s).
  pose proof (not_in_marker_chunk end_marker newline s).
  destruct base_marker as [m|].
  - cbn [In]. rewrite (in_tokens (base self)) by assumption.
    split; [|intuition congruence].
    intros [?|[?|[[?|?]|[?|[?|?]]]]]; try tauto; try discriminate.
    right. left. split; [discriminate|assumption].
  - cbn [In]. tauto.
Qed.

Lemma markers_of_shown_conflict z1 z2 a1 a2 b1 b2 z1' z2' a1' a2' b1' b2' :
  markers_of (shown_conflict self start_marker mid_marker end_marker
                base_marker newline z1 z2 a1 a2 b1 b2)
  = markers_of (shown_conflict self start_marker mid_marker end_marker
                  base_marker newline z1' z2' a1' a2' b1' b2').
Proof.
  unfold shown_conflict. rewrite !markers_of_app, !markers_of_tokens.
  destruct base_marker; [|reflexivity].
  cbn [markers_of filter is_token negb]. fold (markers_of).
  now rewrite !markers_of_tokens.
Qed.

Lemma in_optional_same lo hi s :
  within (a self) lo hi ->
  In (Token s) (flat_map shown_here (if 0 <? hi - lo then [Same lo hi] else []))
  <-> has (a self) lo hi s.
Proof.
  intros Hin. destruct (Z.ltb_spec 0 (hi - lo)).
  - cbn [flat_map shown]. rewrite app_nil_r. now apply in_tokens.
  - cbn. unfold has. split; [tauto|]. intros (k & Hk & _). lia.
Qed.

Lemma markers_of_optional_same (c : bool) lo hi :
  markers_of (flat_map shown_here (if c then [Same lo hi] else [])) = [].
Proof.
  destruct c; [|reflexivity]. cbn [flat_map shown]. rewrite app_nil_r.
  apply markers_of_tokens.
Qed.

Lemma count_of_app rs1 rs2 :
  count_of localorother (rs1 ++ rs2)
  = count_of localorother rs1 + count_of localorother rs2.
Proof. unfold count_of. rewrite filter_app, length_app. lia. Qed.

Lemma count_of_optional_same (c : bool) lo hi :
  count_of localorother (if c then [Same lo hi] else []) = 0.
Proof. now destruct c. Qed.

(** What [minimize] makes of one region within bounds. *)
Lemma minimize_region_spec t :
  region_within self t ->
  exists l,
    minimize_region self t = Ok l
    /\ Forall (region_within self) l
    /\ count_of localorother l = count_of localorother [t]
    /\ same_tokens (flat_map shown_here l) (shown_here t)
    /\ markers_of (flat_map shown_here l) = markers_of (shown_here t).
Proof.
  intros Hin.
  assert (minimize_region self t = Ok [t]
          \/ exists z1 z2 a1 a2 b1 b2, t = Conflict z1 z2 a1 a2 b1 b2)
    as [Hmin | (z1 & z2 & a1 & a2 & b1 & b2 & ->)]
    by (destruct t; eauto 12).
  { exists [t]. cbn [flat_map]. rewrite app_nil_r.
    split_all; try easy. now constructor. }
  destruct Hin as (Hz & [Ha1 Ha2] & [Hb1 Hb2]).
  cbn [minimize_region].
  set (m := Z.min (a2 - a1) (b2 - b1)).
  destruct (count_matches_spec (a self) (b self)
              (fun ii => (a1 + ii, b1 + ii)) 0 m)
    as (s & -> & Hs & Hpre).
  { intros ii Hii. cbn [fst snd].
    split; apply PyFacts.getitem_in_range; lia. }
  destruct (count_matches_spec (a self) (b self)
              (fun ii => (a2 - ii - 1, b2 - ii - 1)) 0 m)
    as (e & -> & He & Hsuf).
  { intros ii Hii. cbn [fst snd].
    split; apply PyFacts.getitem_in_range; lia. }
  cbn [bind fst snd] in *. eexists. split; [reflexivity|].
  destruct (Z.le_gt_cases m 0) as [Hm|Hm].
  - assert (s = 0) as -> by lia. assert (e = 0) as -> by lia.
    cbn [Z.ltb Z.compare app]. rewrite !Z.add_0_r, !Z.sub_0_r.
    cbn [flat_map]. rewrite app_nil_r.
    split_all; try easy. constructor; [|constructor].
    cbn. unfold within in *. lia.
  - assert (within (a self) a1 (a1 + s)) as Hwpre by (unfold within; lia).
    assert (within (a self) (a2 - e) a2) as Hwsuf by (unfold within; lia).
    assert (region_within self
              (Conflict z1 z2 (a1 + s) (a2 - e) (b1 + s) (b2 - e))) as Hwmid
      by (cbn; unfold within in *; lia).
    assert (region_within self (Conflict z1 z2 a1 a2 b1 b2)) as Hworig
      by (cbn; unfold within in *; lia).
    replace (0 <? s) with (0 <? a1 + s - a1) by (f_equal; lia).
    replace (0 <? e) with (0 <? a2 - (a2 - e)) by (f_equal; lia).
    split_all.
    + apply Forall_app. split;
        [destruct (_ <? _); [constructor; [exact Hwpre|constructor]|constructor]|].
      cbn [app]. constructor; [exact Hwmid|].
      destruct (_ <? _); [constructor; [exact Hwsuf|constructor]|constructor].
    + rewrite !count_of_app, !count_of_optional_same.
      unfold count_of. cbn [filter]. unfold counted. cbn [is_conflict andb].
      destruct (negb _ && negb _); reflexivity.
    + intros x. rewrite !flat_map_app, !in_app_iff.
      rewrite !in_optional_same by assumption.
      cbn [flat_map]. rewrite app_nil_r.
      pose proof (has_cover (a self) a1 (a1 + s) (a2 - e) a2 x
                    ltac:(lia) ltac:(lia)) as Hca.
      pose proof (has_cover (b self) b1 (b1 + s) (b2 - e) b2 x
                    ltac:(lia) ltac:(lia)) as Hcb.
      pose proof (has_shifted (a self) (b self) a1 b1 s x
                    ltac:(intros; apply Hpre; lia)) as Hp.
      pose proof (has_mirrored (a self) (b self) a2 b2 e x
                    ltac:(intros; apply Hsuf; lia)) as Hq.
      cbn [shown].
      destruct (option_string_eqb localorother "local").
      { rewrite !in_tokens by (cbn in Hwmid; unfold within in *; tauto).
        tauto. }
      destruct (option_string_eqb localorother "other").
      { rewrite !in_tokens by (cbn in Hwmid; unfold within in *; tauto).
        tauto. }
      rewrite !in_shown_conflict by assumption.
      tauto.
    + rewrite !flat_map_app, !markers_of_app, !markers_of_optional_same.
      cbn [flat_map app shown]. rewrite !app_nil_r, ?app_nil_l.
      destruct (option_string_eqb localorother "local");
        [now rewrite !markers_of_tokens|].
      destruct (option_string_eqb localorother "other");
        [now rewrite !markers_of_tokens|].
      apply markers_of_shown_conflict.
Qed.

Lemma same_tokens_app cs1 cs2 cs1' cs2' :
  same_tokens cs1 cs1' -> same_tokens cs2 cs2' ->
  same_tokens (cs1 ++ cs2) (cs1' ++ cs2').
Proof.
  unfold same_tokens. intros H1 H2 s. rewrite !in_app_iff, H1, H2. tauto.
Qed.

(** [minimize] over regions within bounds: it raises nothing of its
    own, and the regions it yields are within bounds, count as many
    conflicts, and show the same tokens and the same markers. *)
Lemma minimize_list_spec rs tail :
  Forall (region_within self) rs ->
  exists rs',
    minimize_list self rs tail = (rs', tail)
    /\ Forall (region_within self) rs'
    /\ count_of localorother rs' = count_of localorother rs
    /\ same_tokens (flat_map shown_here rs') (flat_map shown_here rs)
    /\ markers_of (flat_map shown_here rs')
       = markers_of (flat_map shown_here rs).
Proof.
  induction 1 as [|t rs Ht _ (rs' & Hrun & Hin & Hcount & Htok & Hmark)].
  - exists []. cbn. split_all; try easy.
  - destruct (minimize_region_spec t Ht) as (l & Hl & Hlin & Hlcount & Hltok & Hlmark).
    exists (l ++ rs'). cbn [minimize_list]. rewrite Hl, Hrun.
    split_all.
    + reflexivity.
    + now apply Forall_app.
    + rewrite count_of_app, Hcount, Hlcount.
      change (t :: rs) with ([t] ++ rs). now rewrite count_of_app.
    + cbn [flat_map]. rewrite flat_map_app. now apply same_tokens_app.
    + cbn [flat_map]. rewrite flat_map_app, !markers_of_app. congruence.
Qed.

End Minimize.

(** *** The order of the tokens *)










Section MinimizeOrder.

Context {md : Mdiff}.
Variable self : Merge3Text.
Variables start_marker mid_marker end_marker base_marker : option bytes.
Variable newline : bytes.
Variable localorother : option string.

Abbreviation shown_in_order :=
  (shown self start_marker mid_marker end_marker base_marker newline
     localorother).






End MinimizeOrder.

(** ** Regions of a matcher whose blocks lie within the token lists *)


Lemma intersect_Some ra rb lo hi :
  intersect ra rb = Ok (Some (lo, hi)) ->
  lo = Z.max (fst ra) (fst rb) /\ hi = Z.min (snd ra) (snd rb) /\ lo < hi.
Proof.
  unfold intersect. intros H.
  do 2 (apply bind_Ok in H as (? & _ & H)).
  destruct (Z.ltb_spec (Z.max (fst ra) (fst rb)) (Z.min (snd ra) (snd rb)));
    [|discriminate].
  injection H as <- <-. auto.
Qed.

Section Within.

Context {md : Mdiff}.
Variable self : Merge3Text.



Lemma classify_gap_Ok iz zmatch ia amatch ib bmatch g :
  classify_gap self iz zmatch ia amatch ib bmatch = Ok g ->
  g = Same ia amatch \/ g = TakeB ib bmatch \/ g = TakeA ia amatch
  \/ g = Conflict iz zmatch ia amatch ib bmatch.
Proof.
  unfold classify_gap. intros H.
  do 3 (apply bind_Ok in H as ([] & _ & H)); cbn in H;
    try discriminate H; injection H as <-; tauto.
Qed.

Lemma gap_before_Some iz ia ib zmatch zend amatch aend bmatch bend g :
  gap_before self iz ia ib (zmatch, zend, amatch, aend, bmatch, bend)
  = Ok (Some g) ->
  g = Same ia amatch \/ g = TakeB ib bmatch \/ g = TakeA ia amatch
  \/ g = Conflict iz zmatch ia amatch ib bmatch.
Proof.
  unfold gap_before. intros H.
  do 6 (apply bind_Ok in H as (? & _ & H)).
  destruct (_ || _); [|discriminate].
  apply bind_Ok in H as (g' & Hg & H). injection H as <-.
  now apply classify_gap_Ok in Hg.
Qed.

Lemma regions_loop_within syncs iz ia ib :
  0 <= iz <= Py.len (base self) -> 0 <= ia <= Py.len (a self) ->
  0 <= ib <= Py.len (b self) ->
  Forall (sync_within self) syncs ->
  Forall (region_within self) (fst (regions_loop self syncs iz ia ib)).
Proof.
  intros Hz Ha Hb Hsyncs. revert iz ia ib Hz Ha Hb.
  induction Hsyncs as [|r syncs Hr _ IH]; intros iz ia ib Hz Ha Hb.
  - constructor.
  - destruct r as [[[[[zmatch zend] amatch] aend] bmatch] bend].
    destruct Hr as ([Hz1 Hz2] & [Ha1 Ha2] & [Hb1 Hb2]).
    cbn [regions_loop].
    destruct (gap_before _ _ _ _ _) as [gap|e] eqn:Hgap; [|constructor].
    assert (Forall (region_within self)
              (fst (if 0 <? zend - zmatch
                    then match (_ <- assert (match gap with
                                             | Some _ => amatch
                                             | None => ia
                                             end =? amatch) NoInfo ;;
                                _ <- assert (match gap with
                                             | Some _ => bmatch
                                             | None => ib
                                             end =? bmatch) NoInfo ;;
                                assert (zmatch =? zmatch) NoInfo) with
                         | Raise e => sraise e
                         | Ok _ => sapp [Unchanged zmatch zend]
                                     (regions_loop self syncs zend aend bend)
                         end
                    else regions_loop self syncs zmatch
                           match gap with Some _ => amatch | None => ia end
                           match gap with Some _ => bmatch | None => ib end)))
      as Hrest.
    { destruct (0 <? zend - zmatch).
      - destruct (bind _ _); [|constructor].
        cbn [sapp fst app]. constructor; [split; assumption|].
        now apply IH.
      - destruct gap; now apply IH. }
    destruct gap as [g|]; cbn [sapp fst app] in *; [|exact Hrest].
    constructor; [|exact Hrest].
    apply gap_before_Some in Hgap as [-> | [-> | [-> | ->]]];
      cbn; unfold within; lia.
Qed.


End Within.




(** ** The ondemand branch *)

(** What the [ondemand] branch does with the answer of [trywordmerge]:
    a resolved text that is not empty is yielded line by line and
    nothing is counted; on None, and on a resolved text that is empty
    ([if text:] is false for [b""]), the conflict is counted and shown
    between markers. *)
Lemma render_conflict_ondemand {md : Mdiff}
    (tw : bytes -> bytes -> bytes -> result (option bytes))
    (self : Merge3Text) sm mm em bm newline lo z1 z2 a1 a2 b1 b2 st answer :
  wordmerge self = ondemand -> unforced lo ->
  tw (Py.join (Py.slice (base self) z1 z2))
     (Py.join (Py.slice (a self) a1 a2))
     (Py.join (Py.slice (b self) b1 b2)) = Ok answer ->
  render_region tw self sm mm em bm newline lo
    (Conflict z1 z2 a1 a2 b1 b2) st
  = match answer with
    | Some (String _ _ as resolved) =>
        (emit (map Merged (Py.splitlines_keepends resolved)) st, None)
    | Some EmptyString | None =>
        show_conflict self sm mm em bm newline z1 z2 a1 a2 b1 b2 st
    end.
Proof.
  intros Hmode [Hl Ho] Htw. cbn [render_region].
  rewrite Hl, Ho, Hmode, Htw.
  destruct answer as [[|c resolved]|]; cbn [Py.truthy String.eqb negb];
    try reflexivity.
  apply yield_merged_lines.
Qed.

(** C3 fails on the code.  With [base = "Y\n"], [a = "X\n"],
    [b = "X\nX\n"], ondemand word merge and [minimize], the minimized
    conflict has an empty [a] side and an empty [b] side; the word merge
    of "Y\n", "" and "" succeeds with the empty text; [merge_lines]
    nevertheless yields the three markers and counts a conflict. *)
Theorem empty_word_merge_shown_as_conflict :
  let self := @Merge3Text_init SpecMdiff.mdiff (line "Y") (line "X")
                (line "X" ++ line "X")%string ondemand in
  let r := @merge_lines SpecMdiff.mdiff self
             (with_minimize true Args.default) in
  minimize self (@merge_regions SpecMdiff.mdiff self)
  = ([Same 0 1; Conflict 0 1 1 0 1 1; Same 0 1], None)
  /\ @trywordmerge SpecMdiff.mdiff
       (Py.join (Py.slice (base self) 0 1))
       (Py.join (Py.slice (a self) 1 0))
       (Py.join (Py.slice (b self) 1 1)) = Ok (Some "")
  /\ out (fst r)
     = [Token (line "X"); Marker (line "<<<<<<<"); Marker (line "=======");
        Marker (line ">>>>>>>"); Token (line "X")]
  /\ snd r = None
  /\ conflicts (fst r) = true
  /\ conflictscount (fst r) = 1.
Proof. vm_compute. split_all; reflexivity. Qed.

(** ** compare_range within bounds *)

Lemma tokens_eqb_cons u v x y :
  Py.tokens_eqb (u :: x) (v :: y) = String.eqb u v && Py.tokens_eqb x y.
Proof.
  destruct (String.eqb_spec u v) as [->|Hne]; cbn [andb].
  - destruct (Py.tokens_eqb x y) eqn:E.
    + apply PyFacts.tokens_eqb_true in E. subst. apply PyFacts.tokens_eqb_refl.
    + destruct (Py.tokens_eqb (v :: x) (v :: y)) eqn:E'; [|reflexivity].
      apply PyFacts.tokens_eqb_true in E'. injection E' as ->.
      now rewrite PyFacts.tokens_eqb_refl in E.
  - destruct (Py.tokens_eqb (u :: x) (v :: y)) eqn:E'; [|reflexivity].
    apply PyFacts.tokens_eqb_true in E'. congruence.
Qed.

Lemma tokens_eqb_sym x y : Py.tokens_eqb x y = Py.tokens_eqb y x.
Proof.
  destruct (Py.tokens_eqb x y) eqn:E, (Py.tokens_eqb y x) eqn:E';
    try reflexivity.
  - apply PyFacts.tokens_eqb_true in E. subst.
    now rewrite PyFacts.tokens_eqb_refl in E'.
  - apply PyFacts.tokens_eqb_true in E'. subst.
    now rewrite PyFacts.tokens_eqb_refl in E.
Qed.

Lemma compare_loop_slices x y (n : nat) : forall xs ys,
  0 <= xs -> xs + Z.of_nat n <= Py.len x ->
  0 <= ys -> ys + Z.of_nat n <= Py.len y ->
  compare_loop x y
    (combine (Py.range xs (xs + Z.of_nat n)) (Py.range ys (ys + Z.of_nat n)))
  = Ok (Py.tokens_eqb (Py.slice x xs (xs + Z.of_nat n))
                      (Py.slice y ys (ys + Z.of_nat n))).
Proof.
  induction n as [|n IH]; intros xs ys Hx1 Hx2 Hy1 Hy2.
  - rewrite !PyFacts.range_nil, !PyFacts.slice_empty by lia. reflexivity.
  - destruct (PyFacts.getitem_in_range x xs) as [u Hu]; [lia|].
    destruct (PyFacts.getitem_in_range y ys) as [v Hv]; [lia|].
    rewrite (PyFacts.range_cons xs), (PyFacts.range_cons ys) by lia.
    rewrite (PyFacts.slice_cons x xs _ u), (PyFacts.slice_cons y ys _ v)
      by (assumption || lia).
    cbn [combine compare_loop]. unfold Py.index. rewrite Hu, Hv. cbn [bind].
    rewrite tokens_eqb_cons.
    destruct (String.eqb u v); [|reflexivity]. cbn [negb andb].
    replace (xs + Z.of_nat (S n)) with (xs + 1 + Z.of_nat n) by lia.
    replace (ys + Z.of_nat (S n)) with (ys + 1 + Z.of_nat n) by lia.
    apply IH; lia.
Qed.

(** Within bounds [compare_range] decides the equality of the slices. *)
Lemma compare_range_slices x xs xe y ys ye :
  0 <= xs <= xe -> xe <= Py.len x -> 0 <= ys <= ye -> ye <= Py.len y ->
  compare_range x xs xe y ys ye
  = Ok (Py.tokens_eqb (Py.slice x xs xe) (Py.slice y ys ye)).
Proof.
  intros Hx1 Hx2 Hy1 Hy2. unfold compare_range.
  destruct (Z.eqb_spec (xe - xs) (ye - ys)) as [Heq|Hne]; cbn [negb].
  - replace xe with (xs + Z.of_nat (Z.to_nat (xe - xs))) by lia.
    replace ye with (ys + Z.of_nat (Z.to_nat (xe - xs))) by lia.
    apply compare_loop_slices; lia.
  - destruct (Py.tokens_eqb _ _) eqn:E; [|reflexivity].
    apply PyFacts.tokens_eqb_true in E.
    apply (f_equal (@List.length bytes)) in E.
    rewrite !PyFacts.slice_length in E by lia. lia.
Qed.

(** ** Streams without conflicts *)

Lemma minimize_list_conflict_free self rs tail :
  conflict_free rs = true -> minimize_list self rs tail = (rs, tail).
Proof.
  induction rs as [|t rs IH]; [reflexivity|]. cbn [conflict_free forallb].
  intros H. apply andb_true_iff in H as [Ht Hrs].
  cbn [minimize_list]. destruct t; try discriminate; cbn [minimize_region];
    rewrite (IH Hrs); reflexivity.
Qed.

Lemma counted_conflict_free lo rs t :
  conflict_free rs = true -> In t rs -> counted lo t = false.
Proof.
  unfold conflict_free. rewrite forallb_forall. intros H Hin.
  apply H in Hin. unfold counted. now destruct (is_conflict t).
Qed.

Lemma count_of_conflict_free lo rs :
  conflict_free rs = true -> count_of lo rs = 0.
Proof.
  intros H. unfold count_of.
  replace (filter (counted lo) rs) with (@nil region); [reflexivity|].
  symmetry. induction rs as [|t rs IH]; [reflexivity|].
  cbn [filter]. rewrite (counted_conflict_free lo (t :: rs) t H (or_introl eq_refl)).
  apply IH. cbn [conflict_free forallb] in H.
  now apply andb_true_iff in H as [_ H].
Qed.

(** A merge whose regions are within bounds and hold no conflict yields
    the tokens of its regions and counts nothing, whatever its
    arguments and its word-merge mode. *)
Lemma merge_lines_conflict_free {md : Mdiff} (self : Merge3Text)
    (args : Args.t) rs toks :
  merge_regions self = (rs, None) ->
  Forall (region_within self) rs ->
  conflict_free rs = true ->
  (forall sm mm em bm newline lo,
      flat_map (shown self sm mm em bm newline lo) rs = map Token toks) ->
  let r := merge_lines self args in
  snd r = None /\ lines r = toks
  /\ conflicts (fst r) = false /\ conflictscount (fst r) = 0.
Proof.
  intros Hregions Hwithin Hfree Hshown. cbv zeta.
  unfold lines, merge_lines, merge_lines_at, merge_lines_with.
  assert ((if Args.minimize args then minimize self (merge_regions self)
           else merge_regions self) = (rs, None)) as ->.
  { rewrite Hregions. destruct (Args.minimize args); [|reflexivity].
    unfold minimize. cbn [fst snd].
    now apply minimize_list_conflict_free. }
  unfold consume, and_then. cbn [fst snd].
  rewrite render_regions_shown;
    [|assumption|right; intros t; now apply counted_conflict_free].
  rewrite Hshown, count_of_conflict_free by assumption.
  cbn [pass fst snd rendered out conflicts conflictscount app orb Z.ltb
       Z.compare Z.add].
  split_all; try reflexivity.
  rewrite map_map. cbn [chunk_bytes]. apply map_id.
Qed.

(** ** A side equal to the base *)

Lemma assert_true c info : c = true -> assert c info = Ok tt.
Proof. now intros ->. Qed.

Lemma bind_of_Ok {A B} (x : A) (k : A -> result B) : bind (Ok x) k = k x.
Proof. reflexivity. Qed.

Lemma matching_blocks_ok_cons z s iz is_ zo so n rest :
  matching_blocks_ok z s iz is_ ((zo, so, n) :: rest) = true ->
  (iz <= zo /\ is_ <= so /\ 0 <= n /\ zo + n <= Py.len z /\ so + n <= Py.len s)
  /\ Py.slice z zo (zo + n) = Py.slice s so (so + n)
  /\ matching_blocks_ok z s (zo + n) (so + n) rest = true.
Proof.
  cbn [matching_blocks_ok]. rewrite !andb_true_iff, !Z.leb_le.
  rewrite PyFacts.tokens_eqb_true. tauto.
Qed.

Lemma whole_match_spec n blocks :
  whole_match n blocks = true ->
  exists rest, blocks = (0, 0, n) :: rest /\ Forall (fun k => snd k = 0) rest.
Proof.
  destruct blocks as [|[[zo so] len] rest]; [discriminate|].
  cbn [whole_match]. rewrite !andb_true_iff, !Z.eqb_eq.
  intros [[[-> ->] ->] Hrest]. exists rest. split; [reflexivity|].
  apply Forall_forall. intros k Hk. rewrite forallb_forall in Hrest.
  now apply Z.eqb_eq, Hrest.
Qed.

Section SideEqualsBase.

Context {md : Mdiff}.
Variable self : Merge3Text.

Lemma find_sync_regions_blocks :
  find_sync_regions self
  = (sl <- sync_loop self (a_blocks self) (b_blocks self) ;;
     Ok (sl ++ [final_sync self])).
Proof.
  unfold find_sync_regions, a_blocks, b_blocks.
  now destruct (matcher_texts self) as [[zt at_] bt].
Qed.

Lemma sync_loop_cons ablock amatches bblock bmatches :
  sync_loop self (ablock :: amatches) (bblock :: bmatches)
  = (s <- sync_of_blocks self ablock bblock ;;
     rest <- (if block_end ablock <? block_end bblock
              then sync_loop self amatches (bblock :: bmatches)
              else sync_loop self (ablock :: amatches) bmatches) ;;
     Ok (match s with Some r => r :: rest | None => rest end)).
Proof. reflexivity. Qed.

Lemma sync_loop_nil_r amatches : sync_loop self amatches [] = Ok [].
Proof. now destruct amatches. Qed.

(** Empty blocks on the [b] side give no sync region. *)
Lemma sync_loop_empty_blocks amatches bmatches :
  Forall (fun k => 0 <= snd k) amatches ->
  Forall (fun k => snd k = 0) bmatches ->
  sync_loop self amatches bmatches = Ok [].
Proof.
  intros Ha. revert bmatches.
  induction Ha as [|[[abase amatch] alen] amatches Hlen Ha IHa];
    intros bmatches Hb.
  - now destruct bmatches.
  - induction Hb as [|[[bbase bmatch] blen] bmatches Hzero Hb IHb].
    + reflexivity.
    + cbn [snd] in Hlen, Hzero. subst blen. rewrite sync_loop_cons.
      assert (sync_of_blocks self (abase, amatch, alen) (bbase, bmatch, 0)
              = Ok None) as ->.
      { unfold sync_of_blocks, intersect. cbn [fst snd].
        rewrite !assert_true by (apply Z.leb_le; lia). cbn [bind].
        destruct (Z.ltb_spec (Z.max abase bbase)
                    (Z.min (abase + alen) (bbase + 0))); [lia|reflexivity]. }
      rewrite bind_of_Ok. destruct (_ <? _).
      * rewrite IHa; [reflexivity|now constructor].
      * now rewrite IHb.
Qed.

End SideEqualsBase.

Lemma sapp_sapp {A} (l1 l2 : list A) (s : stream A) :
  sapp l1 (sapp l2 s) = sapp (l1 ++ l2) s.
Proof. unfold sapp. cbn. now rewrite app_assoc. Qed.

Lemma sapp_nil {A} (s : stream A) : sapp [] s = s.
Proof. now destruct s. Qed.

Lemma matching_blocks_ok_weaken z s iz is_ iz' is_' blocks :
  iz' <= iz -> is_' <= is_ ->
  matching_blocks_ok z s iz is_ blocks = true ->
  matching_blocks_ok z s iz' is_' blocks = true.
Proof.
  intros Hz Hs. destruct blocks as [|[[zo so] n] rest]; [reflexivity|].
  cbn [matching_blocks_ok]. rewrite !andb_true_iff, !Z.leb_le.
  intuition lia.
Qed.

Section RegionsLoop.

Context {md : Mdiff}.
Variable self : Merge3Text.

(** One round of the loop of [merge_regions], given the gap it finds. *)
Lemma regions_loop_step zm ze am ae bm be rest iz ia ib gap :
  gap_before self iz ia ib (zm, ze, am, ae, bm, be) = Ok gap ->
  (gap = None -> ia = am /\ ib = bm) ->
  ze - zm = ae - am -> ze - zm = be - bm -> 0 <= ze - zm ->
  regions_loop self ((zm, ze, am, ae, bm, be) :: rest) iz ia ib
  = sapp (match gap with Some g => [g] | None => [] end
          ++ (if 0 <? ze - zm then [Unchanged zm ze] else []))
         (regions_loop self rest ze ae be).
Proof.
  intros Hgap Hnone Ha Hb Hlen. cbn [regions_loop]. rewrite Hgap.
  destruct gap as [g|].
  - destruct (Z.ltb_spec 0 (ze - zm)).
    + rewrite !Z.eqb_refl. cbn [assert bind]. now rewrite sapp_sapp.
    + replace ze with zm by lia. replace ae with am by lia.
      replace be with bm by lia. now rewrite app_nil_r.
  - destruct (Hnone eq_refl) as [-> ->].
    destruct (Z.ltb_spec 0 (ze - zm)).
    + rewrite !Z.eqb_refl. cbn [assert bind]. now rewrite sapp_sapp.
    + replace ze with zm by lia. replace ae with am by lia.
      replace be with bm by lia. reflexivity.
Qed.

(** The asserts of the loop body hold for cursors behind the region. *)
Lemma gap_before_ordered zm ze am ae bm be iz ia ib :
  ze - zm = ae - am -> ze - zm = be - bm -> 0 <= ze - zm ->
  iz <= zm -> ia <= am -> ib <= bm ->
  gap_before self iz ia ib (zm, ze, am, ae, bm, be)
  = if negb (am - ia =? 0) || negb (bm - ib =? 0)
    then g <- classify_gap self iz zm ia am ib bm ;; Ok (Some g)
    else Ok None.
Proof.
  intros Ha Hb Hlen Hz Hia Hib. unfold gap_before.
  rewrite (assert_true (0 <=? ze - zm)) by (apply Z.leb_le; lia).
  rewrite (assert_true (ze - zm =? ae - am)) by (apply Z.eqb_eq; lia).
  rewrite (assert_true (ze - zm =? be - bm)) by (apply Z.eqb_eq; lia).
  rewrite (assert_true (0 <=? am - ia)) by (apply Z.leb_le; lia).
  rewrite (assert_true (0 <=? bm - ib)) by (apply Z.leb_le; lia).
  rewrite (assert_true (0 <=? zm - iz)) by (apply Z.leb_le; lia).
  reflexivity.
Qed.

End RegionsLoop.

Section UnchangedA.

Context {md : Mdiff}.
Variable self : Merge3Text.
Hypothesis Hab : a self = base self.

Lemma sync_of_whole_a bb bm l :
  0 <= bb -> 0 <= l -> bb + l <= Py.len (base self) ->
  Py.slice (base self) bb (bb + l) = Py.slice (b self) bm (bm + l) ->
  sync_of_blocks self (0, 0, Py.len (base self)) (bb, bm, l)
  = Ok (if 0 <? l then Some (bb, bb + l, bb, bb + l, bm, bm + l) else None).
Proof.
  intros Hbb Hl Hend Heq. unfold sync_of_blocks, intersect. cbn [fst snd].
  rewrite !assert_true by (apply Z.leb_le; lia). rewrite !bind_of_Ok.
  replace (Z.max 0 bb) with bb by lia.
  replace (Z.min (0 + Py.len (base self)) (bb + l)) with (bb + l) by lia.
  destruct (Z.ltb_spec bb (bb + l)), (Z.ltb_spec 0 l); try lia;
    [|reflexivity].
  rewrite bind_of_Ok.
  replace (0 + (bb - 0)) with bb by lia.
  replace (bm + (bb - bb)) with bm by lia.
  replace (bb + (bb + l - bb)) with (bb + l) by lia.
  replace (bm + (bb + l - bb)) with (bm + l) by lia.
  rewrite !(assert_true (_ <=? _)) by (apply Z.leb_le; lia).
  rewrite !bind_of_Ok. rewrite Hab, <- Heq.
  rewrite PyFacts.tokens_eqb_refl. reflexivity.
Qed.

Lemma sync_loop_whole_a rest iz ib blocks :
  0 <= iz ->
  matching_blocks_ok (base self) (b self) iz ib blocks = true ->
  sync_loop self ((0, 0, Py.len (base self)) :: rest) blocks
  = Ok (syncs_of_blocks true blocks).
Proof.
  revert iz ib. induction blocks as [|[[bb bm] l] blocks IH]; intros iz ib Hiz Hok.
  - reflexivity.
  - apply matching_blocks_ok_cons in Hok as (Hbounds & Heq & Hok).
    rewrite sync_loop_cons, sync_of_whole_a by (assumption || lia).
    rewrite bind_of_Ok. unfold block_end. cbn [fst snd].
    destruct (Z.ltb_spec (0 + Py.len (base self)) (bb + l)); [lia|].
    rewrite (IH (bb + l) (bm + l)) by (assumption || lia).
    rewrite bind_of_Ok. cbn [syncs_of_blocks flat_map].
    now destruct (0 <? l).
Qed.

Lemma classify_gap_a iz zm ib bm :
  0 <= iz <= zm -> zm <= Py.len (base self) ->
  0 <= ib <= bm -> bm <= Py.len (b self) ->
  classify_gap self iz zm iz zm ib bm
  = Ok (if Py.tokens_eqb (Py.slice (base self) iz zm) (Py.slice (b self) ib bm)
        then Same iz zm else TakeB ib bm).
Proof.
  intros Hz1 Hz2 Hb1 Hb2. unfold classify_gap. rewrite Hab.
  rewrite !compare_range_slices by assumption. rewrite !bind_of_Ok.
  rewrite PyFacts.tokens_eqb_refl.
  rewrite (tokens_eqb_sym (Py.slice (b self) ib bm)).
  now destruct (Py.tokens_eqb _ _).
Qed.

(** One round on a sync region that lies at the same place in [a] and
    in [base]: the regions yielded show the tokens of [b] from the
    cursor to the end of the sync region. *)
Lemma regions_loop_step_a zm ze bm be iz ib :
  0 <= iz <= zm -> zm <= ze -> ze <= Py.len (base self) ->
  0 <= ib <= bm -> be <= Py.len (b self) ->
  ze - zm = be - bm ->
  Py.slice (base self) zm ze = Py.slice (b self) bm be ->
  exists rs,
    (forall rest,
        regions_loop self ((zm, ze, zm, ze, bm, be) :: rest) iz iz ib
        = sapp rs (regions_loop self rest ze ze be))
    /\ Forall (region_within self) rs
    /\ conflict_free rs = true
    /\ forall sm mm em bmk newline lo,
         flat_map (shown self sm mm em bmk newline lo) rs
         = map Token (Py.slice (b self) ib be).
Proof.
  intros Hz1 Hz2 Hz3 Hb1 Hb3 Hlen Heq.
  assert (bm <= be) as Hb2 by lia.
  pose proof (gap_before_ordered self zm ze zm ze bm be iz iz ib
                eq_refl Hlen ltac:(lia) ltac:(lia) ltac:(lia) ltac:(lia))
    as Hgap.
  rewrite classify_gap_a, bind_of_Ok in Hgap by lia.
  set (same := Py.tokens_eqb (Py.slice (base self) iz zm)
                             (Py.slice (b self) ib bm)) in *.
  set (gap := if negb (zm - iz =? 0) || negb (bm - ib =? 0)
              then Some (if same then Same iz zm else TakeB ib bm)
              else None).
  assert (gap_before self iz iz ib (zm, ze, zm, ze, bm, be) = Ok gap)
    as Hgap' by (rewrite Hgap; subst gap; now destruct (_ || _)).
  exists (match gap with Some g => [g] | None => [] end
          ++ (if 0 <? ze - zm then [Unchanged zm ze] else [])).
  assert (gap = None -> iz = zm /\ ib = bm) as Hnone.
  { subst gap. destruct (Z.eqb_spec (zm - iz) 0), (Z.eqb_spec (bm - ib) 0);
      cbn [negb orb]; try discriminate. lia. }
  split_all.
  - intros rest. apply regions_loop_step; (assumption || lia).
  - apply Forall_app. split.
    + subst gap. destruct (_ || _); [|constructor].
      constructor; [|constructor].
      destruct same; cbn [region_within]; rewrite ?Hab; unfold within; lia.
    + destruct (_ <? _); [|constructor]. constructor; [|constructor].
      cbn [region_within]. unfold within. lia.
  - unfold conflict_free. rewrite forallb_app. apply andb_true_iff. split.
    + subst gap. destruct (_ || _); [|reflexivity]. now destruct same.
    + now destruct (_ <? _).
  - intros sm mm em bmk newline lo. rewrite flat_map_app.
    rewrite (PyFacts.slice_app (b self) ib bm be) by lia. rewrite map_app.
    f_equal.
    + destruct gap as [g|] eqn:Hg.
      * subst gap. destruct (_ || _); [|discriminate]. injection Hg as <-.
        cbn [flat_map]. rewrite app_nil_r.
        destruct same eqn:Hsame; cbn [shown]; [|reflexivity].
        apply PyFacts.tokens_eqb_true in Hsame. now rewrite Hab, Hsame.
      * destruct (Hnone eq_refl) as [-> ->].
        rewrite PyFacts.slice_empty by lia. reflexivity.
    + destruct (Z.ltb_spec 0 (ze - zm)).
      * cbn [flat_map shown]. now rewrite app_nil_r, Heq.
      * rewrite PyFacts.slice_empty by lia. reflexivity.
Qed.

(** The whole loop on the sync regions of the blocks of [b]. *)
Lemma regions_loop_a blocks : forall iz ib,
  0 <= iz <= Py.len (base self) -> 0 <= ib <= Py.len (b self) ->
  matching_blocks_ok (base self) (b self) iz ib blocks = true ->
  exists rs,
    regions_loop self (syncs_of_blocks true blocks ++ [final_sync self])
      iz iz ib = (rs, None)
    /\ Forall (region_within self) rs
    /\ conflict_free rs = true
    /\ forall sm mm em bmk newline lo,
         flat_map (shown self sm mm em bmk newline lo) rs
         = map Token (Py.slice (b self) ib (Py.len (b self))).
Proof.
  induction blocks as [|[[bb bm] l] blocks IH]; intros iz ib Hiz Hib Hok.
  - cbn [syncs_of_blocks flat_map app]. unfold final_sync. rewrite Hab.
    destruct (regions_loop_step_a (Py.len (base self)) (Py.len (base self))
                (Py.len (b self)) (Py.len (b self)) iz ib)
      as (rs & Hrun & Hwithin & Hfree & Hshown); try lia.
    { rewrite !PyFacts.slice_empty by (unfold Py.len; lia). reflexivity. }
    exists rs. rewrite Hrun. cbn [regions_loop]. unfold sapp. cbn [fst snd].
    rewrite app_nil_r. auto.
  - apply matching_blocks_ok_cons in Hok as (Hbounds & Heq & Hok).
    cbn [syncs_of_blocks flat_map]. fold (syncs_of_blocks true blocks).
    destruct (Z.ltb_spec 0 l).
    + destruct (regions_loop_step_a bb (bb + l) bm (bm + l) iz ib)
        as (rs1 & Hrun1 & Hwithin1 & Hfree1 & Hshown1); try lia.
      { exact Heq. }
      destruct (IH (bb + l) (bm + l)) as (rs2 & Hrun2 & Hwithin2 & Hfree2 & Hshown2);
        try lia.
      { exact Hok. }
      exists (rs1 ++ rs2). cbn [app]. rewrite Hrun1, Hrun2.
      split_all.
      * reflexivity.
      * now apply Forall_app.
      * unfold conflict_free in *. rewrite forallb_app.
        now rewrite Hfree1, Hfree2.
      * intros. rewrite flat_map_app, Hshown1, Hshown2, <- map_app.
        now rewrite <- PyFacts.slice_app by lia.
    + cbn [app]. apply IH; try lia.
      apply (matching_blocks_ok_weaken _ _ (bb + l) (bm + l)); (lia || assumption).
Qed.

End UnchangedA.

Lemma matching_blocks_ok_nonneg z s iz is_ blocks :
  matching_blocks_ok z s iz is_ blocks = true ->
  Forall (fun k : block => 0 <= snd k) blocks.
Proof.
  revert iz is_. induction blocks as [|[[zo so] n] blocks IH]; intros iz is_ Hok.
  - constructor.
  - apply matching_blocks_ok_cons in Hok as (Hbounds & _ & Hok).
    constructor; [cbn; lia|eauto].
Qed.

(** Blocks that start at the end of [z] are empty. *)
Lemma syncs_of_blocks_at_end other_is_a z s iz is_ blocks :
  Py.len z <= iz ->
  matching_blocks_ok z s iz is_ blocks = true ->
  syncs_of_blocks other_is_a blocks = [].
Proof.
  revert iz is_. induction blocks as [|[[zo so] n] blocks IH]; intros iz is_ Hiz Hok.
  - reflexivity.
  - apply matching_blocks_ok_cons in Hok as (Hbounds & _ & Hok).
    cbn [syncs_of_blocks flat_map]. fold (syncs_of_blocks other_is_a blocks).
    destruct (Z.ltb_spec 0 n); [lia|]. cbn [app].
    apply (IH (zo + n) (so + n)); [lia|assumption].
Qed.

Section UnchangedB.

Context {md : Mdiff}.
Variable self : Merge3Text.
Hypothesis Hbb : b self = base self.

Lemma sync_of_whole_b ab am l :
  0 <= ab -> 0 <= l -> ab + l <= Py.len (base self) ->
  Py.slice (base self) ab (ab + l) = Py.slice (a self) am (am + l) ->
  sync_of_blocks self (ab, am, l) (0, 0, Py.len (base self))
  = Ok (if 0 <? l then Some (ab, ab + l, am, am + l, ab, ab + l) else None).
Proof.
  intros Hab Hl Hend Heq. unfold sync_of_blocks, intersect. cbn [fst snd].
  rewrite !assert_true by (apply Z.leb_le; lia). rewrite !bind_of_Ok.
  replace (Z.max ab 0) with ab by lia.
  replace (Z.min (ab + l) (0 + Py.len (base self))) with (ab + l) by lia.
  destruct (Z.ltb_spec ab (ab + l)), (Z.ltb_spec 0 l); try lia;
    [|reflexivity].
  rewrite bind_of_Ok.
  replace (0 + (ab - 0)) with ab by lia.
  replace (am + (ab - ab)) with am by lia.
  replace (ab + (ab + l - ab)) with (ab + l) by lia.
  replace (am + (ab + l - ab)) with (am + l) by lia.
  rewrite !(assert_true (_ <=? _)) by (apply Z.leb_le; lia).
  rewrite !bind_of_Ok. rewrite Hbb, <- Heq.
  rewrite PyFacts.tokens_eqb_refl. reflexivity.
Qed.

Lemma sync_loop_whole_b rest iz ia blocks :
  0 <= iz -> Forall (fun k : block => snd k = 0) rest ->
  matching_blocks_ok (base self) (a self) iz ia blocks = true ->
  sync_loop self blocks ((0, 0, Py.len (base self)) :: rest)
  = Ok (syncs_of_blocks false blocks).
Proof.
  intros Hiz Hrest. revert iz ia Hiz.
  induction blocks as [|[[ab am] l] blocks IH]; intros iz ia Hiz Hok.
  - reflexivity.
  - pose proof (matching_blocks_ok_nonneg _ _ _ _ _ Hok) as Hnonneg.
    apply matching_blocks_ok_cons in Hok as (Hbounds & Heq & Hok).
    rewrite sync_loop_cons, sync_of_whole_b by (assumption || lia).
    rewrite bind_of_Ok. unfold block_end. cbn [fst snd].
    cbn [syncs_of_blocks flat_map]. fold (syncs_of_blocks false blocks).
    destruct (Z.ltb_spec (ab + l) (0 + Py.len (base self))).
    + rewrite (IH (ab + l) (am + l)) by (assumption || lia).
      rewrite bind_of_Ok. now destruct (0 <? l).
    + rewrite sync_loop_empty_blocks by assumption. rewrite bind_of_Ok.
      rewrite (syncs_of_blocks_at_end false (base self) (a self)
                 (ab + l) (am + l) blocks) by (assumption || lia).
      now destruct (0 <? l).
Qed.

Lemma classify_gap_b iz zm ia am :
  0 <= iz <= zm -> zm <= Py.len (base self) ->
  0 <= ia <= am -> am <= Py.len (a self) ->
  classify_gap self iz zm ia am iz zm
  = Ok (if Py.tokens_eqb (Py.slice (a self) ia am) (Py.slice (base self) iz zm)
        then Same ia am else TakeA ia am).
Proof.
  intros Hz1 Hz2 Ha1 Ha2. unfold classify_gap. rewrite Hbb.
  rewrite !compare_range_slices by assumption. rewrite !bind_of_Ok.
  rewrite PyFacts.tokens_eqb_refl.
  now destruct (Py.tokens_eqb _ _).
Qed.

(** One round on a sync region that lies at the same place in [b] and
    in [base]: the regions yielded show the tokens of [a] from the
    cursor to the end of the sync region. *)
Lemma regions_loop_step_b zm ze am ae iz ia :
  0 <= iz <= zm -> zm <= ze -> ze <= Py.len (base self) ->
  0 <= ia <= am -> ae <= Py.len (a self) ->
  ze - zm = ae - am ->
  Py.slice (base self) zm ze = Py.slice (a self) am ae ->
  exists rs,
    (forall rest,
        regions_loop self ((zm, ze, am, ae, zm, ze) :: rest) iz ia iz
        = sapp rs (regions_loop self rest ze ae ze))
    /\ Forall (region_within self) rs
    /\ conflict_free rs = true
    /\ forall sm mm em bmk newline lo,
         flat_map (shown self sm mm em bmk newline lo) rs
         = map Token (Py.slice (a self) ia ae).
Proof.
  intros Hz1 Hz2 Hz3 Ha1 Ha3 Hlen Heq.
  assert (am <= ae) as Ha2 by lia.
  pose proof (gap_before_ordered self zm ze am ae zm ze iz ia iz
                Hlen eq_refl ltac:(lia) ltac:(lia) ltac:(lia) ltac:(lia))
    as Hgap.
  rewrite classify_gap_b, bind_of_Ok in Hgap by lia.
  set (same := Py.tokens_eqb (Py.slice (a self) ia am)
                             (Py.slice (base self) iz zm)) in *.
  set (gap := if negb (am - ia =? 0) || negb (zm - iz =? 0)
              then Some (if same then Same ia am else TakeA ia am)
              else None).
  assert (gap_before self iz ia iz (zm, ze, am, ae, zm, ze) = Ok gap)
    as Hgap' by (rewrite Hgap; subst gap; now destruct (_ || _)).
  exists (match gap with Some g => [g] | None => [] end
          ++ (if 0 <? ze - zm then [Unchanged zm ze] else [])).
  assert (gap = None -> ia = am /\ iz = zm) as Hnone.
  { subst gap. destruct (Z.eqb_spec (am - ia) 0), (Z.eqb_spec (zm - iz) 0);
      cbn [negb orb]; try discriminate. lia. }
  split_all.
  - intros rest. apply regions_loop_step; (assumption || lia).
  - apply Forall_app. split.
    + subst gap. destruct (_ || _); [|constructor].
      constructor; [|constructor].
      destruct same; cbn [region_within]; unfold within; lia.
    + destruct (_ <? _); [|constructor]. constructor; [|constructor].
      cbn [region_within]. unfold within. lia.
  - unfold conflict_free. rewrite forallb_app. apply andb_true_iff. split.
    + subst gap. destruct (_ || _); [|reflexivity]. now destruct same.
    + now destruct (_ <? _).
  - intros sm mm em bmk newline lo. rewrite flat_map_app.
    rewrite (PyFacts.slice_app (a self) ia am ae) by lia. rewrite map_app.
    f_equal.
    + destruct gap as [g|] eqn:Hg.
      * subst gap. destruct (_ || _); [|discriminate]. injection Hg as <-.
        cbn [flat_map]. rewrite app_nil_r. now destruct same.
      * destruct (Hnone eq_refl) as [-> ->].
        rewrite PyFacts.slice_empty by lia. reflexivity.
    + destruct (Z.ltb_spec 0 (ze - zm)).
      * cbn [flat_map shown]. now rewrite app_nil_r, Heq.
      * rewrite PyFacts.slice_empty by lia. reflexivity.
Qed.

(** The whole loop on the sync regions of the blocks of [a]. *)
Lemma regions_loop_b blocks : forall iz ia,
  0 <= iz <= Py.len (base self) -> 0 <= ia <= Py.len (a self) ->
  matching_blocks_ok (base self) (a self) iz ia blocks = true ->
  exists rs,
    regions_loop self (syncs_of_blocks false blocks ++ [final_sync self])
      iz ia iz = (rs, None)
    /\ Forall (region_within self) rs
    /\ conflict_free rs = true
    /\ forall sm mm em bmk newline lo,
         flat_map (shown self sm mm em bmk newline lo) rs
         = map Token (Py.slice (a self) ia (Py.len (a self))).
Proof.
  induction blocks as [|[[ab am] l] blocks IH]; intros iz ia Hiz Hia Hok.
  - cbn [syncs_of_blocks flat_map app]. unfold final_sync. rewrite Hbb.
    destruct (regions_loop_step_b (Py.len (base self)) (Py.len (base self))
                (Py.len (a self)) (Py.len (a self)) iz ia)
      as (rs & Hrun & Hwithin & Hfree & Hshown); try lia.
    { rewrite !PyFacts.slice_empty by (unfold Py.len; lia). reflexivity. }
    exists rs. rewrite Hrun. cbn [regions_loop]. unfold sapp. cbn [fst snd].
    rewrite app_nil_r. auto.
  - apply matching_blocks_ok_cons in Hok as (Hbounds & Heq & Hok).
    cbn [syncs_of_blocks flat_map]. fold (syncs_of_blocks false blocks).
    destruct (Z.ltb_spec 0 l).
    + destruct (regions_loop_step_b ab (ab + l) am (am + l) iz ia)
        as (rs1 & Hrun1 & Hwithin1 & Hfree1 & Hshown1); try lia.
      { exact Heq. }
      destruct (IH (ab + l) (am + l)) as (rs2 & Hrun2 & Hwithin2 & Hfree2 & Hshown2);
        try lia.
      { exact Hok. }
      exists (rs1 ++ rs2). cbn [app]. rewrite Hrun1, Hrun2.
      split_all.
      * reflexivity.
      * now apply Forall_app.
      * unfold conflict_free in *. rewrite forallb_app.
        now rewrite Hfree1, Hfree2.
      * intros. rewrite flat_map_app, Hshown1, Hshown2, <- map_app.
        now rewrite <- PyFacts.slice_app by lia.
    + cbn [app]. apply IH; try lia.
      apply (matching_blocks_ok_weaken _ _ (ab + l) (am + l)); (lia || assumption).
Qed.

End UnchangedB.

Section UnchangedSide.

Context {md : Mdiff}.
Variable self : Merge3Text.
Variable args : Args.t.

Lemma merge_lines_a_unchanged :
  a self = base self ->
  whole_match (Py.len (base self)) (a_blocks self) = true ->
  matching_blocks_ok (base self) (b self) 0 0 (b_blocks self) = true ->
  let r := merge_lines self args in
  snd r = None /\ lines r = b self
  /\ conflicts (fst r) = false /\ conflictscount (fst r) = 0.
Proof.
  intros Hab Hwhole Hok.
  apply whole_match_spec in Hwhole as (rest & Hblocks & _).
  destruct (regions_loop_a self Hab (b_blocks self) 0 0)
    as (rs & Hrun & Hwithin & Hfree & Hshown);
    try (unfold Py.len; lia); [exact Hok|].
  apply merge_lines_conflict_free with (rs := rs); try assumption.
  - unfold merge_regions. rewrite find_sync_regions_blocks, Hblocks.
    rewrite (sync_loop_whole_a self Hab rest 0 0) by (assumption || lia).
    rewrite bind_of_Ok. exact Hrun.
  - intros. rewrite Hshown. now rewrite PyFacts.slice_full.
Qed.

Lemma merge_lines_b_unchanged :
  b self = base self ->
  whole_match (Py.len (base self)) (b_blocks self) = true ->
  matching_blocks_ok (base self) (a self) 0 0 (a_blocks self) = true ->
  let r := merge_lines self args in
  snd r = None /\ lines r = a self
  /\ conflicts (fst r) = false /\ conflictscount (fst r) = 0.
Proof.
  intros Hbb Hwhole Hok.
  apply whole_match_spec in Hwhole as (rest & Hblocks & Hrest).
  destruct (regions_loop_b self Hbb (a_blocks self) 0 0)
    as (rs & Hrun & Hwithin & Hfree & Hshown);
    try (unfold Py.len; lia); [exact Hok|].
  apply merge_lines_conflict_free with (rs := rs); try assumption.
  - unfold merge_regions. rewrite find_sync_regions_blocks, Hblocks.
    rewrite (sync_loop_whole_b self Hbb rest 0 0) by (assumption || lia).
    rewrite bind_of_Ok. exact Hrun.
  - intros. rewrite Hshown. now rewrite PyFacts.slice_full.
Qed.

End UnchangedSide.

(** C1. If [a == base], the output of [merge_lines] is [b] byte for
    byte and no conflict is counted; if [b == base], the output is [a]
    and no conflict is counted.  This holds for every word-merge mode
    and all arguments, for a splitter whose tokens concatenate to the
    text and a matcher that matches two equal sequences whole and
    returns, for the other side, ascending blocks of equal tokens
    within the two sequences. *)
Theorem unchanged_side_takes_other {md : Mdiff} (mode : wordmergemode)
    (args : Args.t) (basetext other : bytes) :
  (let self := Merge3Text_init basetext basetext other mode in
   Py.join (b self) = other ->
   whole_match (Py.len (base self)) (a_blocks self) = true ->
   matching_blocks_ok (base self) (b self) 0 0 (b_blocks self) = true ->
   let r := merge_lines self args in
   snd r = None /\ merged_text r = other
   /\ conflictscount (fst r) = 0 /\ conflicts (fst r) = false)
  /\
  (let self := Merge3Text_init basetext other basetext mode in
   Py.join (a self) = other ->
   whole_match (Py.len (base self)) (b_blocks self) = true ->
   matching_blocks_ok (base self) (a self) 0 0 (a_blocks self) = true ->
   let r := merge_lines self args in
   snd r = None /\ merged_text r = other
   /\ conflictscount (fst r) = 0 /\ conflicts (fst r) = false).
Proof.
  split; cbv zeta; intros Hjoin Hwhole Hok.
  - destruct (merge_lines_a_unchanged
                (Merge3Text_init basetext basetext other mode) args
                eq_refl Hwhole Hok)
      as (Hdone & Hlines & Hflag & Hcount).
    unfold merged_text. rewrite Hlines. auto.
  - destruct (merge_lines_b_unchanged
                (Merge3Text_init basetext other basetext mode) args
                eq_refl Hwhole Hok)
      as (Hdone & Hlines & Hflag & Hcount).
    unfold merged_text. rewrite Hlines. auto.
Qed.

Lemma unchanged_side_takes_other_witness :
  let basetext := (line "a" ++ line "b" ++ line "c")%string in
  let other := (line "a" ++ line "x" ++ line "c" ++ line "d")%string in
  (let r := @merge_lines SpecMdiff.mdiff
              (@Merge3Text_init SpecMdiff.mdiff basetext basetext other ondemand)
              Args.default in
   snd r = None /\ merged_text r = other
   /\ conflictscount (fst r) = 0 /\ conflicts (fst r) = false)
  /\
  (let r := @merge_lines SpecMdiff.mdiff
              (@Merge3Text_init SpecMdiff.mdiff basetext other basetext ondemand)
              Args.default in
   snd r = None /\ merged_text r = other
   /\ conflictscount (fst r) = 0 /\ conflicts (fst r) = false).
Proof.
  cbv zeta. split.
  - apply (proj1 (@unchanged_side_takes_other SpecMdiff.mdiff ondemand
                    Args.default
                    (line "a" ++ line "b" ++ line "c")%string
                    (line "a" ++ line "x" ++ line "c" ++ line "d")%string));
      reflexivity.
  - apply (proj2 (@unchanged_side_takes_other SpecMdiff.mdiff ondemand
                    Args.default
                    (line "a" ++ line "b" ++ line "c")%string
                    (line "a" ++ line "x" ++ line "c" ++ line "d")%string));
      reflexivity.
Defined.

(** * Further properties of the module *)

(** ** intersect *)

(** X1. [intersect] is the set intersection of two half-open ranges: a
    point lies in the range it returns exactly when it lies in both
    arguments; it returns None exactly when they share no point (as
    for (0, 10) and (10, 15)), and otherwise the non-empty range from
    the larger start to the smaller end; it raises AssertionError
    exactly when one argument has its bounds in the wrong order; and it
    does not depend on the order of its arguments. *)
Theorem intersect_is_overlap (ra rb : Z * Z) :
  (fst ra <= snd ra -> fst rb <= snd rb ->
   forall x,
     (exists lo hi, intersect ra rb = Ok (Some (lo, hi)) /\ lo <= x < hi)
     <-> (fst ra <= x < snd ra /\ fst rb <= x < snd rb))
  /\ (fst ra <= snd ra -> fst rb <= snd rb ->
      (intersect ra rb = Ok None
       <-> forall x, ~ (fst ra <= x < snd ra /\ fst rb <= x < snd rb)))
  /\ (forall lo hi,
         intersect ra rb = Ok (Some (lo, hi)) ->
         lo < hi /\ lo = Z.max (fst ra) (fst rb)
         /\ hi = Z.min (snd ra) (snd rb))
  /\ (snd ra < fst ra \/ snd rb < fst rb
      <-> intersect ra rb = Raise (AssertionError NoInfo))
  /\ (forall e, intersect ra rb = Raise e -> e = AssertionError NoInfo)
  /\ intersect ra rb = intersect rb ra.
Proof.
  destruct ra as [a1 a2], rb as [b1 b2]. unfold intersect. cbn [fst snd].
  split_all.
  - intros Ha Hb x.
    rewrite !assert_true by (apply Z.leb_le; lia). rewrite !bind_of_Ok.
    destruct (Z.ltb_spec (Z.max a1 b1) (Z.min a2 b2)); split.
    + intros (lo & hi & H' & Hx). injection H' as <- <-. lia.
    + intros Hx. eexists _, _. split; [reflexivity|lia].
    + intros (lo & hi & H' & _). discriminate.
    + intros Hx. lia.
  - intros Ha Hb.
    rewrite !assert_true by (apply Z.leb_le; lia). rewrite !bind_of_Ok.
    destruct (Z.ltb_spec (Z.max a1 b1) (Z.min a2 b2)) as [Hlt | Hge]; split.
    + discriminate.
    + intros Hnone. exfalso. apply (Hnone (Z.max a1 b1)). lia.
    + intros _ x. lia.
    + reflexivity.
  - intros lo hi.
    destruct (a1 <=? a2), (b1 <=? b2); cbn [assert bind]; try discriminate.
    destruct (Z.ltb_spec (Z.max a1 b1) (Z.min a2 b2)); [|discriminate].
    intros H'. injection H' as <- <-. now split_all.
  - destruct (Z.leb_spec a1 a2), (Z.leb_spec b1 b2); cbn [assert bind];
      (split; [intros [|]; (reflexivity || lia)|]);
      try (intros _; lia).
    destruct (_ <? _); discriminate.
  - intros e. destruct (a1 <=? a2), (b1 <=? b2); cbn [assert bind];
      try congruence.
    destruct (_ <? _); discriminate.
  - rewrite (Z.max_comm b1 a1), (Z.min_comm b2 a2).
    destruct (a1 <=? a2), (b1 <=? b2); reflexivity.
Qed.

(** ** compare_range *)

(** X2. Within the two lists, [compare_range] returns whether
    [a[astart:aend] == b[bstart:bend]], as its docstring says.  Beyond
    the end of a list it differs from the comparison of the slices:
    one position past the end of both lists the slices are empty and
    equal, and [compare_range] raises IndexError. *)
Theorem compare_range_decides_slices (x y : list bytes) (xs xe ys ye : Z) :
  (0 <= xs <= xe -> xe <= Py.len x -> 0 <= ys <= ye -> ye <= Py.len y ->
   exists same,
     compare_range x xs xe y ys ye = Ok same
     /\ (same = true <-> Py.slice x xs xe = Py.slice y ys ye))
  /\ compare_range x (Py.len x) (Py.len x + 1) y (Py.len y) (Py.len y + 1)
     = Raise IndexError
  /\ Py.slice x (Py.len x) (Py.len x + 1) = Py.slice y (Py.len y) (Py.len y + 1).
Proof.
  split_all.
  - intros Hx1 Hx2 Hy1 Hy2. eexists. split.
    + now apply compare_range_slices.
    + apply PyFacts.tokens_eqb_true.
  - unfold compare_range.
    replace (Py.len x + 1 - Py.len x =? Py.len y + 1 - Py.len y) with true
      by (symmetry; apply Z.eqb_eq; lia).
    cbn [negb]. rewrite (PyFacts.range_cons (Py.len x)) by lia.
    rewrite (PyFacts.range_cons (Py.len y)) by lia.
    cbn [combine compare_loop]. unfold Py.index.
    rewrite PyFacts.getitem_nonneg by (unfold Py.len; lia).
    replace (nth_error x (Z.to_nat (Py.len x))) with (@None string);
      [reflexivity|].
    symmetry. apply nth_error_None. unfold Py.len. lia.
  - unfold Py.slice, Py.clamp.
    destruct (Z.ltb_spec (Py.len x) 0), (Z.ltb_spec (Py.len x + 1) 0),
      (Z.ltb_spec (Py.len y) 0), (Z.ltb_spec (Py.len y + 1) 0);
      try (unfold Py.len in *; lia).
    replace (Z.max 0 (Z.min (Py.len x) (Py.len x + 1)) -
             Z.max 0 (Z.min (Py.len x) (Py.len x))) with 0
      by (unfold Py.len; lia).
    replace (Z.max 0 (Z.min (Py.len y) (Py.len y + 1)) -
             Z.max 0 (Z.min (Py.len y) (Py.len y))) with 0
      by (unfold Py.len; lia).
    reflexivity.
Qed.

(** ** splitwordswithoutemptylines *)

Lemma join_cons w ws : Py.join (w :: ws) = (w ++ Py.join ws)%string.
Proof. change (w :: ws) with ([w] ++ ws). rewrite PyFacts.join_app.
  cbn. reflexivity. Qed.

Lemma append_assoc (s t u : string) :
  ((s ++ t) ++ u)%string = (s ++ (t ++ u))%string.
Proof. induction s as [|c s IH]; cbn; [reflexivity|now rewrite IH]. Qed.

Lemma append_empty_r (s : string) : (s ++ "")%string = s.
Proof. induction s as [|c s IH]; cbn; [reflexivity|now rewrite IH]. Qed.

Lemma fold_newlines_join words buf :
  Py.join (fold_newlines words buf) = (Py.join buf ++ Py.join words)%string.
Proof.
  revert buf. induction words as [|word words IH]; intros buf.
  - cbn [fold_newlines]. destruct buf as [|w0 buf]; [reflexivity|].
    rewrite join_cons. change (Py.join []) with "".
    now rewrite !append_empty_r.
  - cbn [fold_newlines].
    destruct (negb (String.eqb word nl) && negb (Py.len buf =? 0)).
    + rewrite join_cons, IH. rewrite !join_cons.
      change (Py.join []) with "". now rewrite append_empty_r.
    + rewrite IH, PyFacts.join_app, append_assoc. do 2 f_equal.
      rewrite !join_cons. change (Py.join []) with "".
      now rewrite append_empty_r.
Qed.

Lemma join_nonempty buf :
  buf <> [] -> Forall (fun w => w <> "") buf -> Py.join buf <> "".
Proof.
  intros Hne Hall Hjoin. pose proof (join_single_length buf Hall) as Hlen.
  rewrite Hjoin in Hlen. destruct buf; [congruence|]. cbn in Hlen. lia.
Qed.

Lemma fold_newlines_nonempty words buf :
  Forall (fun w => w <> "") words -> Forall (fun w => w <> "") buf ->
  Forall (fun w => w <> "") (fold_newlines words buf).
Proof.
  intros Hwords. revert buf.
  induction Hwords as [|word words Hword _ IH]; intros buf Hbuf.
  - cbn [fold_newlines]. destruct buf as [|w0 buf]; constructor; [|constructor].
    apply join_nonempty; [discriminate|assumption].
  - cbn [fold_newlines].
    destruct (negb (String.eqb word nl) && negb (Py.len buf =? 0)) eqn:Hflush.
    + constructor; [|apply IH; now constructor].
      apply join_nonempty; [|assumption].
      apply andb_true_iff in Hflush as [_ Hflush]. now destruct buf.
    + apply IH. apply Forall_app. split; [assumption|now constructor].
Qed.

(** X3. Folding the newline words loses nothing: the tokens of
    [splitwordswithoutemptylines] concatenate to what the words of
    [mdiff.splitwords] concatenate to, so to the text itself when the
    words do; and no token is empty when no word is. *)
Theorem splitwordswithoutemptylines_concat {md : Mdiff} (text : bytes) :
  Py.join (splitwordswithoutemptylines text) = Py.join (splitwords text)
  /\ (Py.join (splitwords text) = text ->
      Py.join (splitwordswithoutemptylines text) = text)
  /\ (Forall (fun w => w <> "") (splitwords text) ->
      Forall (fun t => t <> "") (splitwordswithoutemptylines text)).
Proof.
  unfold splitwordswithoutemptylines. split_all.
  - now rewrite fold_newlines_join.
  - intros H. now rewrite fold_newlines_join.
  - intros H. apply fold_newlines_nonempty; [assumption|constructor].
Qed.

(** ** find_unconflicted *)

Lemma unconflicted_loop_cons ablock am bblock bm :
  unconflicted_loop (ablock :: am) (bblock :: bm)
  = (i <- intersect (fst (fst ablock), block_end ablock)
                    (fst (fst bblock), block_end bblock) ;;
     rest <- (if block_end ablock <? block_end bblock
              then unconflicted_loop am (bblock :: bm)
              else unconflicted_loop (ablock :: am) bm) ;;
     Ok (match i with Some r => r :: rest | None => rest end)).
Proof. reflexivity. Qed.

Lemma sync_of_blocks_range {md : Mdiff} self ablock bblock s :
  sync_of_blocks self ablock bblock = Ok s ->
  intersect (fst (fst ablock), block_end ablock)
            (fst (fst bblock), block_end bblock)
  = Ok (option_map base_range s).
Proof.
  destruct ablock as [[abase amatch] alen], bblock as [[bbase bmatch] blen].
  unfold sync_of_blocks, block_end. cbn [fst snd]. intros H.
  apply bind_Ok in H as (i & -> & H).
  destruct i as [[intbase intend]|]; [|now injection H as <-].
  do 6 (apply bind_Ok in H as (? & _ & H)). now injection H as <-.
Qed.

Lemma unconflicted_loop_sync {md : Mdiff} self am bm sl :
  sync_loop self am bm = Ok sl ->
  unconflicted_loop am bm = Ok (map base_range sl).
Proof.
  revert bm sl. induction am as [|ablock am IHa]; intros bm.
  - destruct bm; intros sl H; injection H as <-; reflexivity.
  - induction bm as [|bblock bm IHb]; intros sl H.
    + injection H as <-. reflexivity.
    + rewrite sync_loop_cons in H. rewrite unconflicted_loop_cons.
      apply bind_Ok in H as (s & Hs & H). apply bind_Ok in H as (rest & Hrest & H).
      injection H as <-.
      rewrite (sync_of_blocks_range _ _ _ _ Hs), bind_of_Ok.
      assert ((if block_end ablock <? block_end bblock
               then unconflicted_loop am (bblock :: bm)
               else unconflicted_loop (ablock :: am) bm)
              = Ok (map base_range rest)) as ->
        by (destruct (_ <? _); auto).
      rewrite bind_of_Ok. now destruct s.
Qed.

Lemma unconflicted_loop_nonempty am bm unc :
  unconflicted_loop am bm = Ok unc -> Forall (fun r => fst r < snd r) unc.
Proof.
  revert bm unc. induction am as [|ablock am IHa]; intros bm.
  - destruct bm; intros unc H; injection H as <-; constructor.
  - induction bm as [|bblock bm IHb]; intros unc H.
    + injection H as <-. constructor.
    + rewrite unconflicted_loop_cons in H.
      apply bind_Ok in H as (i & Hi & H). apply bind_Ok in H as (rest & Hrest & H).
      injection H as <-.
      assert (Forall (fun r => fst r < snd r) rest) as Hok
        by (destruct (_ <? _); eauto).
      destruct i as [[lo hi]|]; [|exact Hok].
      constructor; [|exact Hok]. apply intersect_Some in Hi. cbn. lia.
Qed.

(** X4. [find_unconflicted] returns ranges of [base] that are not
    empty; and outside enforced mode, whenever [find_sync_regions]
    returns, [find_unconflicted] returns the ranges of [base] of its
    sync regions, the closing empty one left out. *)
Theorem find_unconflicted_sync_ranges {md : Mdiff} (self : Merge3Text) :
  (forall unc, find_unconflicted self = Ok unc ->
               Forall (fun r => fst r < snd r) unc)
  /\ (forall sl, wordmerge self <> enforced ->
                 find_sync_regions self = Ok sl ->
                 find_unconflicted self = Ok (map base_range (removelast sl))).
Proof.
  split.
  - intros unc. apply unconflicted_loop_nonempty.
  - intros sl Hmode. unfold find_sync_regions, find_unconflicted, matcher_texts.
    assert (wordmergemode_eqb (wordmerge self) enforced = false) as ->
      by (destruct (wordmerge self); [congruence|reflexivity|reflexivity]).
    intros H. apply bind_Ok in H as (front & Hloop & H). injection H as <-.
    rewrite removelast_last. now apply (unconflicted_loop_sync self).
Qed.

(** ** Where the chunks of merge_lines come from *)

Lemma emits_pass Q : emits Q pass.
Proof. intros st. exists []. cbn. now rewrite app_nil_r. Qed.

Lemma emits_raise Q e : emits Q (raise e).
Proof. intros st. exists []. cbn. now rewrite app_nil_r. Qed.

Lemma emits_yield (Q : chunk -> Prop) c : Q c -> emits Q (yield c).
Proof. intros H st. exists [c]. cbn. split; [reflexivity|]. now constructor. Qed.

Lemma emits_and_then Q (g1 g2 : gen) :
  emits Q g1 -> emits Q g2 -> emits Q (g1 >> g2).
Proof.
  intros H1 H2 st. unfold and_then. destruct (H1 st) as (cs1 & Hout1 & Hq1).
  destruct (g1 st) as [st1 [e|]]; [now exists cs1|].
  destruct (H2 st1) as (cs2 & Hout2 & Hq2). exists (cs1 ++ cs2).
  cbn [fst] in *. rewrite Hout2, Hout1, app_assoc. split; [reflexivity|].
  now apply Forall_app.
Qed.

Lemma emits_for_each {X} Q (f : X -> gen) xs :
  (forall x, In x xs -> emits Q (f x)) -> emits Q (for_each xs f).
Proof.
  induction xs as [|x xs IH]; intros H; cbn [for_each].
  - apply emits_pass.
  - apply emits_and_then; [apply H; now left|].
    apply IH. intros x' Hx'. apply H. now right.
Qed.

Lemma emits_yield_range (Q : chunk -> Prop) l lo hi :
  (forall x, In x l -> Q (Token x)) -> emits Q (yield_range l lo hi).
Proof.
  intros H. apply emits_for_each. intros i _. unfold yield_item.
  destruct (Py.getitem l i) as [x|] eqn:Hx; [|apply emits_raise].
  apply emits_yield, H. unfold Py.getitem in Hx.
  destruct (i <? 0); [destruct (_ <? 0); [discriminate|]|];
    eapply nth_error_In; exact Hx.
Qed.

Lemma emits_yield_marker (Q : chunk -> Prop) marker newline :
  (forall m, marker = Some m -> Q (Marker (m ++ newline)%string)) ->
  emits Q (yield_marker marker newline).
Proof.
  intros H. destruct marker as [m|]; cbn [yield_marker];
    [apply emits_yield; auto|apply emits_pass].
Qed.

Lemma emits_update Q (f : rstate -> rstate) :
  (forall st, out (f st) = out st) -> emits Q (fun st => (f st, None)).
Proof. intros H st. exists []. cbn. now rewrite H, app_nil_r. Qed.

Section Chunks.

Context {md : Mdiff}.
Variable tw : bytes -> bytes -> bytes -> result (option bytes).
Variable self : Merge3Text.
Variable args : Args.t.

Lemma emits_tokens l lo hi :
  l = base self \/ l = a self \/ l = b self ->
  emits (chunk_allowed self args) (yield_range l lo hi).
Proof.
  intros Hl. apply emits_yield_range. intros x Hx. cbn.
  destruct Hl as [-> | [-> | ->]]; tauto.
Qed.

Lemma emits_render_region t :
  emits (chunk_allowed self args)
    (render_region tw self
       (labelled (Args.start_marker args) (Args.name_a args))
       (Args.mid_marker args)
       (labelled (Args.end_marker args) (Args.name_b args))
       (labelled (Args.base_marker args) (Args.name_base args))
       (sniff_newline self) (Args.localorother args) t).
Proof.
  destruct t; cbn [render_region]; try (apply emits_tokens; tauto).
  destruct (option_string_eqb (Args.localorother args) "local") eqn:Hl;
    [apply emits_tokens; tauto|].
  destruct (option_string_eqb (Args.localorother args) "other") eqn:Ho;
    [apply emits_tokens; tauto|].
  assert (wordmerge self <> enforced ->
          emits (chunk_allowed self args)
            (show_conflict self
               (labelled (Args.start_marker args) (Args.name_a args))
               (Args.mid_marker args)
               (labelled (Args.end_marker args) (Args.name_b args))
               (labelled (Args.base_marker args) (Args.name_base args))
               (sniff_newline self) z1 z2 a1 a2 b1 b2)) as Hshow.
  { intros Hmode.
    assert (forall marker m,
               In marker
                  [labelled (Args.start_marker args) (Args.name_a args);
                   Args.mid_marker args;
                   labelled (Args.end_marker args) (Args.name_b args);
                   labelled (Args.base_marker args) (Args.name_base args)] ->
               marker = Some m ->
               chunk_allowed self args (Marker (m ++ sniff_newline self)%string))
      as Hmarker.
    { intros marker m Hin ->. cbn [chunk_allowed]. split; [|now split].
      unfold marker_lines. apply in_flat_map. eexists. split; [exact Hin|].
      now left. }
    unfold show_conflict.
    apply emits_and_then; [now apply emits_update|].
    apply emits_and_then;
      [apply emits_yield_marker; intros m; apply Hmarker; cbn; tauto|].
    apply emits_and_then; [apply emits_tokens; tauto|].
    apply emits_and_then.
    { destruct (labelled (Args.base_marker args) (Args.name_base args))
        as [m|] eqn:Hbase; [|apply emits_pass].
      apply emits_and_then; [|apply emits_tokens; tauto].
      apply emits_yield. apply (Hmarker (Some m)); [|reflexivity].
      cbn. rewrite ?Hbase. tauto. }
    apply emits_and_then;
      [apply emits_yield_marker; intros m; apply Hmarker; cbn; tauto|].
    apply emits_and_then; [apply emits_tokens; tauto|].
    apply emits_yield_marker; intros m; apply Hmarker; cbn; tauto. }
  destruct (wordmerge self) eqn:Hmode.
  - apply emits_and_then; [now apply emits_update|apply emits_raise].
  - destruct (tw _ _ _) as [[resolved|]|e];
      [|apply Hshow; discriminate|apply emits_raise].
    destruct (Py.truthy (Some resolved)); [|apply Hshow; discriminate].
    apply emits_for_each. intros l _. apply emits_yield. cbn. now split.
  - apply Hshow. discriminate.
Qed.

(** Every chunk a run of [merge_lines] has yielded is allowed. *)
Lemma merge_lines_with_chunks c :
  In c (out (fst (merge_lines_with tw self args))) -> chunk_allowed self args c.
Proof.
  unfold merge_lines_with.
  match goal with |- In c (out (fst (consume ?f ?rs ?st))) -> _ =>
    assert (emits (chunk_allowed self args) (consume f rs)) as Hemits
  end.
  { unfold consume. apply emits_and_then.
    - apply emits_for_each. intros t _. apply emits_render_region.
    - destruct (snd _); [apply emits_raise|apply emits_pass]. }
  match goal with |- In c (out (fst (consume ?f ?rs ?st))) -> _ =>
    destruct (Hemits st) as (cs & -> & Hcs)
  end.
  cbn [out app]. intros Hin. rewrite Forall_forall in Hcs. auto.
Qed.

End Chunks.

Lemma substring_whole (s : string) : substring 0 (String.length s) s = s.
Proof. induction s as [|c s IH]; cbn; [reflexivity|now rewrite IH]. Qed.

Lemma substring_after (front suffix : string) :
  substring (String.length front) (String.length suffix)
    (front ++ suffix)%string = suffix.
Proof.
  induction front as [|c front IH]; cbn [String.length String.append].
  - apply substring_whole.
  - cbn [substring]. exact IH.
Qed.

Lemma substring_split (s : string) : forall k,
  (k <= String.length s)%nat ->
  s = (substring 0 k s ++ substring k (String.length s - k) s)%string.
Proof.
  induction s as [|c s IH]; intros k Hk.
  - cbn in Hk. assert (k = 0%nat) as -> by lia. reflexivity.
  - destruct k as [|k].
    + cbn [substring String.append]. rewrite Nat.sub_0_r.
      symmetry. apply (substring_whole (String c s)).
    + cbn [substring String.length String.append Nat.sub]. f_equal.
      apply IH. cbn in Hk. lia.
Qed.

Lemma endswith_ends_with s suffix :
  Py.endswith s suffix = true <-> ends_with s suffix.
Proof.
  unfold Py.endswith, ends_with. split.
  - intros H. apply andb_true_iff in H as [Hlen Heq].
    apply Nat.leb_le in Hlen. apply String.eqb_eq in Heq.
    exists (substring 0 (String.length s - String.length suffix) s).
    pose proof (substring_split s (String.length s - String.length suffix)
                  ltac:(lia)) as Hsplit.
    replace (String.length s - (String.length s - String.length suffix))%nat
      with (String.length suffix) in Hsplit by lia.
    now rewrite Heq in Hsplit.
  - intros [front ->]. rewrite PyFacts.length_append.
    replace (String.length front + String.length suffix
             - String.length suffix)%nat
      with (String.length front) by lia.
    rewrite substring_after, String.eqb_refl, andb_true_r.
    apply Nat.leb_le. lia.
Qed.

Lemma last_byte_unique (front1 : string) : forall front2 x y,
  (front1 ++ String x EmptyString)%string
  = (front2 ++ String y EmptyString)%string ->
  x = y.
Proof.
  induction front1 as [|c front1 IH]; intros [|d front2] x y H;
    cbn [String.append] in H.
  - now injection H.
  - injection H as _ H. now destruct front2.
  - injection H as _ H. now destruct front1.
  - injection H as _ H. now apply IH in H.
Qed.

(** A list of tokens has one line ending. *)
Lemma line_ending_unique l n1 n2 :
  line_ending l n1 -> line_ending l n2 -> n1 = n2.
Proof.
  assert (forall first,
             ends_with first (String CR nl) ->
             ends_with first (String CR EmptyString) -> False) as Hboth.
  { intros first [p ->] [q H].
    change (String CR nl)
      with (String CR EmptyString ++ String LF EmptyString)%string in H.
    rewrite <- append_assoc in H. apply last_byte_unique in H. discriminate H. }
  intros H1 H2. inversion H1; subst; inversion H2; subst;
    try reflexivity; try contradiction; exfalso; eauto.
Qed.

(** The newline [merge_lines] sniffs is the line ending of the first
    token of [a]. *)
Lemma sniff_newline_ending {md : Mdiff} (self : Merge3Text) :
  line_ending (a self) (sniff_newline self).
Proof.
  unfold sniff_newline. destruct (a self) as [|first rest]; [constructor|].
  destruct (Py.endswith first (String CR (String LF EmptyString))) eqn:Hcrlf.
  { apply ending_crlf. now apply endswith_ends_with. }
  destruct (Py.endswith first (String CR EmptyString)) eqn:Hcr.
  { apply ending_cr. now apply endswith_ends_with. }
  apply ending_lf; intros H; apply endswith_ends_with in H; unfold nl in H;
    congruence.
Qed.

(** The label [merge_lines] gives a marker. *)
Lemma labelled_marker_text marker name :
  labelled marker name = option_map (fun m => marker_text m name) marker.
Proof.
  unfold labelled, marker_text, Py.truthy.
  destruct name as [[|c n]|]; destruct marker as [[|d m]|]; reflexivity.
Qed.

(** X5. Whatever the inputs and the matcher, and also when the run ends
    in an exception: every token [merge_lines] yields is a token of
    [base], [a] or [b].  Every marker line is the start, mid, end or
    base marker, followed by a space and its label ([name_a] for the
    start, [name_b] for the end, [name_base] for the base marker) when
    neither the marker nor the label is empty, followed by the line
    ending of the first token of [a] ("\r\n", else "\r", else "\n");
    and it is yielded only with no side forced and outside enforced
    mode.  Lines of a word-merged text are yielded only in ondemand mode
    with no side forced. *)
Theorem merge_lines_yields_allowed_chunks {md : Mdiff} (self : Merge3Text)
    (args : Args.t) (c : chunk) :
  In c (out (fst (merge_lines self args))) ->
  match c with
  | Token s => In s (base self) \/ In s (a self) \/ In s (b self)
  | Marker m =>
      (exists marker label newline,
          In (Some marker, label)
             [(Args.start_marker args, Args.name_a args);
              (Args.mid_marker args, None);
              (Args.end_marker args, Args.name_b args);
              (Args.base_marker args, Args.name_base args)]
          /\ line_ending (a self) newline
          /\ m = (marker_text marker label ++ newline)%string)
      /\ unforced (Args.localorother args)
      /\ wordmerge self <> enforced
  | Merged _ =>
      wordmerge self = ondemand /\ unforced (Args.localorother args)
  end.
Proof.
  intros Hin. apply merge_lines_with_chunks in Hin.
  destruct c as [s|m|l]; cbn [chunk_allowed] in Hin; try exact Hin.
  destruct Hin as (Hin & Hside & Hmode). split; [|now split].
  unfold marker_lines in Hin. apply in_flat_map in Hin as (shown & Hshown & Hm).
  destruct shown as [text|]; [|contradiction].
  destruct Hm as [<-|[]].
  assert (forall marker label,
             labelled marker label = Some text ->
             exists mk, marker = Some mk /\ text = marker_text mk label)
    as Hlabel.
  { intros marker label H. rewrite labelled_marker_text in H.
    destruct marker as [mk|]; [|discriminate]. injection H as <-. eauto. }
  assert (Args.mid_marker args = Some text ->
          exists mk, Args.mid_marker args = Some mk
                     /\ text = marker_text mk None) as Hmid.
  { intros H. exists text. split; [exact H|]. now destruct text. }
  pose proof (sniff_newline_ending self) as Hending.
  destruct Hshown as [H | [H | [H | [H | []]]]];
    [apply Hlabel in H as (mk & Hmk & ->)
    |apply Hmid in H as (mk & Hmk & ->)
    |apply Hlabel in H as (mk & Hmk & ->)
    |apply Hlabel in H as (mk & Hmk & ->)];
    eexists mk, _, (sniff_newline self);
    (split; [|split; [exact Hending|reflexivity]]);
    rewrite <- Hmk; cbn; tauto.
Qed.

Lemma merge_lines_yields_allowed_chunks_witness :
  let self := @Merge3Text_init SpecMdiff.mdiff (line "one") (line "two")
                (line "three") disabled in
  let args :=
    {| Args.name_a := Some "ours"; Args.name_b := None;
       Args.name_base := None;
       Args.start_marker := Some "<<<<<<<";
       Args.mid_marker := Some "=======";
       Args.end_marker := Some ">>>>>>>";
       Args.base_marker := None;
       Args.localorother := None;
       Args.minimize := false |} in
  (exists marker label newline,
      In (Some marker, label)
         [(Args.start_marker args, Args.name_a args);
          (Args.mid_marker args, None);
          (Args.end_marker args, Args.name_b args);
          (Args.base_marker args, Args.name_base args)]
      /\ line_ending (a self) newline
      /\ line "<<<<<<< ours" = (marker_text marker label ++ newline)%string)
  /\ unforced (Args.localorother args)
  /\ wordmerge self <> enforced.
Proof.
  cbv zeta.
  apply (@merge_lines_yields_allowed_chunks SpecMdiff.mdiff
           (@Merge3Text_init SpecMdiff.mdiff (line "one") (line "two")
              (line "three") disabled)
           {| Args.name_a := Some "ours"; Args.name_b := None;
              Args.name_base := None;
              Args.start_marker := Some "<<<<<<<";
              Args.mid_marker := Some "=======";
              Args.end_marker := Some ">>>>>>>";
              Args.base_marker := None;
              Args.localorother := None;
              Args.minimize := false |}
           (Marker (line "<<<<<<< ours"))).
  vm_compute. left. reflexivity.
Defined.

Lemma forced_not_unforced lo :
  lo = Some "local" \/ lo = Some "other" -> ~ unforced lo.
Proof. intros [-> | ->] [Hl Ho]; discriminate. Qed.

Lemma merge_lines_forced_raises {md : Mdiff} self args e :
  Args.localorother args = Some "local"
  \/ Args.localorother args = Some "other" ->
  snd (merge_lines self args) = Some e -> internal_fault e.
Proof.
  intros Hforce. unfold merge_lines, merge_lines_at, merge_lines_with.
  match goal with |- snd ?run = _ -> _ => destruct run as [st' e'] eqn:Hrun end.
  cbn [snd]. intros ->. unfold consume in Hrun.
  apply and_then_raises in Hrun as [Hrun | (st1 & _ & Hrun)].
  - apply for_each_raises in Hrun as (t & s & _ & Hrun). left.
    destruct t; cbn [render_region] in Hrun;
      try (eapply yield_range_raises; exact Hrun).
    destruct Hforce as [Hf | Hf]; rewrite Hf in Hrun; cbn in Hrun;
      eapply yield_range_raises; exact Hrun.
  - apply (regions_of_merge_lines_raise self (Args.minimize args)).
    destruct (snd _); [|discriminate]. unfold raise in Hrun. congruence.
Qed.

(** X6. With [localorother] set to "local" or "other" a merge yields
    nothing but tokens of the inputs and cannot raise
    CantShowWordConflicts, in any word-merge mode; and with the start,
    mid, end and base markers all None (a union merge) it yields no
    marker line. *)
Theorem forced_or_union_merge_has_no_markers {md : Mdiff}
    (self : Merge3Text) (args : Args.t) :
  let r := merge_lines self args in
  (Args.localorother args = Some "local"
   \/ Args.localorother args = Some "other" ->
   (forall c, In c (out (fst r)) -> is_token c = true)
   /\ (forall e, snd r = Some e -> internal_fault e))
  /\ (Args.start_marker args = None -> Args.mid_marker args = None ->
      Args.end_marker args = None -> Args.base_marker args = None ->
      forall m, ~ In (Marker m) (out (fst r))).
Proof.
  cbv zeta. split.
  - intros Hforce. split.
    + intros c Hc. apply merge_lines_with_chunks in Hc.
      destruct c as [s|m|l]; [reflexivity| |]; cbn in Hc;
        exfalso; apply (forced_not_unforced _ Hforce); tauto.
    + intros e. now apply merge_lines_forced_raises.
  - intros Hs Hm He Hb m Hin. apply merge_lines_with_chunks in Hin.
    cbn [chunk_allowed] in Hin. destruct Hin as [Hin _].
    unfold marker_lines in Hin. rewrite Hs, Hm, He, Hb in Hin.
    assert (forall name, labelled None name = None) as Hnone
      by (now intros [n|]).
    rewrite !Hnone in Hin. exact Hin.
Qed.

(** ** A matcher that keeps its contract *)

Lemma slice_of_slice {A} (l : list A) p n i j :
  0 <= p -> p + n <= Py.len l -> 0 <= i <= j -> j <= n ->
  Py.slice l (p + i) (p + j) = Py.slice (Py.slice l p (p + n)) i j.
Proof.
  intros Hp Hn Hi Hj.
  assert (Py.len (Py.slice l p (p + n)) = n) as Hlen
    by (unfold Py.len at 1; rewrite PyFacts.slice_length by lia; lia).
  rewrite (PyFacts.slice_in_range (Py.slice l p (p + n))) by lia.
  rewrite !PyFacts.slice_in_range by lia.
  rewrite skipn_firstn_comm, firstn_firstn, skipn_skipn.
  f_equal; [lia|f_equal; lia].
Qed.

Lemma equal_subslices (z s : list bytes) zo so n i j :
  0 <= zo -> zo + n <= Py.len z -> 0 <= so -> so + n <= Py.len s ->
  0 <= i <= j -> j <= n ->
  Py.slice z zo (zo + n) = Py.slice s so (so + n) ->
  Py.slice z (zo + i) (zo + j) = Py.slice s (so + i) (so + j).
Proof.
  intros Hz1 Hz2 Hs1 Hs2 Hi Hj Heq.
  rewrite (slice_of_slice z zo n), (slice_of_slice s so n) by lia.
  now rewrite Heq.
Qed.

Lemma matching_blocks_ok_bounds z s iz is_ blocks :
  matching_blocks_ok z s iz is_ blocks = true ->
  Forall (block_bounds z s iz is_) blocks.
Proof.
  revert iz is_. induction blocks as [|[[zo so] n] blocks IH]; intros iz is_ Hok.
  - constructor.
  - apply matching_blocks_ok_cons in Hok as (Hbounds & _ & Hok).
    constructor; [unfold block_bounds; cbn; lia|].
    apply IH in Hok. eapply Forall_impl; [|exact Hok].
    intros k. unfold block_bounds. lia.
Qed.

Section Contract.

Context {md : Mdiff}.
Variable self : Merge3Text.

(** The asserts of [find_sync_regions] hold at two blocks that match
    equal tokens within the lists. *)
Lemma sync_of_valid_blocks abase amatch alen bbase bmatch blen :
  0 <= abase -> 0 <= amatch -> 0 <= alen ->
  abase + alen <= Py.len (base self) -> amatch + alen <= Py.len (a self) ->
  0 <= bbase -> 0 <= bmatch -> 0 <= blen ->
  bbase + blen <= Py.len (base self) -> bmatch + blen <= Py.len (b self) ->
  Py.slice (base self) abase (abase + alen)
  = Py.slice (a self) amatch (amatch + alen) ->
  Py.slice (base self) bbase (bbase + blen)
  = Py.slice (b self) bmatch (bmatch + blen) ->
  let z1 := Z.max abase bbase in
  let z2 := Z.min (abase + alen) (bbase + blen) in
  sync_of_blocks self (abase, amatch, alen) (bbase, bmatch, blen)
  = Ok (if z1 <? z2
        then Some (z1, z2, amatch + (z1 - abase),
                   amatch + (z1 - abase) + (z2 - z1),
                   bmatch + (z1 - bbase),
                   bmatch + (z1 - bbase) + (z2 - z1))
        else None).
Proof.
  intros Ha1 Ha2 Ha3 Ha4 Ha5 Hb1 Hb2 Hb3 Hb4 Hb5 Heqa Heqb z1 z2.
  unfold sync_of_blocks, intersect. cbn [fst snd].
  rewrite !assert_true by (apply Z.leb_le; lia). rewrite !bind_of_Ok.
  fold z1 z2. destruct (Z.ltb_spec z1 z2); [|reflexivity].
  rewrite bind_of_Ok.
  rewrite !(assert_true (_ <=? _)) by (apply Z.leb_le; subst z1 z2; lia).
  rewrite !bind_of_Ok.
  assert (Py.slice (base self) z1 z2
          = Py.slice (a self) (amatch + (z1 - abase))
              (amatch + (z1 - abase) + (z2 - z1))) as Hsa.
  { replace z1 with (abase + (z1 - abase)) at 1 by lia.
    replace z2 with (abase + (z2 - abase)) at 1 by lia.
    replace (amatch + (z1 - abase) + (z2 - z1)) with (amatch + (z2 - abase))
      by lia.
    apply (equal_subslices _ _ abase amatch alen);
      (assumption || subst z1 z2; lia). }
  assert (Py.slice (base self) z1 z2
          = Py.slice (b self) (bmatch + (z1 - bbase))
              (bmatch + (z1 - bbase) + (z2 - z1))) as Hsb.
  { replace z1 with (bbase + (z1 - bbase)) at 1 by lia.
    replace z2 with (bbase + (z2 - bbase)) at 1 by lia.
    replace (bmatch + (z1 - bbase) + (z2 - z1)) with (bmatch + (z2 - bbase))
      by lia.
    apply (equal_subslices _ _ bbase bmatch blen);
      (assumption || subst z1 z2; lia). }
  rewrite <- Hsa, <- Hsb, PyFacts.tokens_eqb_refl. reflexivity.
Qed.

End Contract.

Lemma Forall_behind_of_bounds z s iz is_ lz ls blocks :
  Forall (block_bounds z s iz is_) blocks -> ls <= is_ ->
  Forall (behind lz ls) blocks.
Proof.
  intros H Hls. eapply Forall_impl; [|exact H].
  intros k. unfold block_bounds, behind. lia.
Qed.

Lemma Forall_base_of_bounds z s iz is_ lz blocks :
  Forall (block_bounds z s iz is_) blocks -> lz <= iz ->
  Forall (fun k : block => lz <= fst (fst k)) blocks.
Proof.
  intros H Hlz. eapply Forall_impl; [|exact H].
  intros k. unfold block_bounds. lia.
Qed.

Lemma sync_loop_nil_l {md : Mdiff} self bm : sync_loop self [] bm = Ok [].
Proof. now destruct bm. Qed.

Section ContractLoop.

Context {md : Mdiff}.
Variable self : Merge3Text.

(** The loop of [find_sync_regions] on two block lists that keep the
    contract: no assert fails, and the sync regions it collects follow
    each other within the three lists. *)
Lemma sync_loop_ascending am : forall bm lz la lb za sa zb sb,
  matching_blocks_ok (base self) (a self) za sa am = true ->
  0 <= za -> 0 <= sa ->
  matching_blocks_ok (base self) (b self) zb sb bm = true ->
  0 <= zb -> 0 <= sb ->
  Forall (behind lz la) am -> Forall (behind lz lb) bm ->
  Forall (fun k : block => lz <= fst (fst k)) am
  \/ Forall (fun k : block => lz <= fst (fst k)) bm ->
  exists sl,
    sync_loop self am bm = Ok sl
    /\ ascending_syncs lz la lb sl
    /\ Forall (sync_within self) sl.
Proof.
  induction am as [|[[abase amatch] alen] am IHa]; intros bm.
  { intros. exists []. rewrite (sync_loop_nil_l self bm). now split_all. }
  induction bm as [|[[bbase bmatch] blen] bm IHb];
    intros lz la lb za sa zb sb Hoka Hza Hsa Hokb Hzb Hsb Hbehinda Hbehindb Hbase.
  { exists []. now split_all. }
  pose proof Hoka as Hoka'. pose proof Hokb as Hokb'.
  apply matching_blocks_ok_cons in Hoka' as (Hba & Heqa & Htaila).
  apply matching_blocks_ok_cons in Hokb' as (Hbb & Heqb & Htailb).
  pose proof (matching_blocks_ok_bounds _ _ _ _ _ Htaila) as Hboundsa.
  pose proof (matching_blocks_ok_bounds _ _ _ _ _ Htailb) as Hboundsb.
  pose proof (Forall_inv Hbehinda) as Hheada.
  pose proof (Forall_inv Hbehindb) as Hheadb.
  unfold behind in Hheada, Hheadb. cbn [fst snd] in Hheada, Hheadb.
  assert (lz <= Z.max abase bbase) as Hlz.
  { destruct Hbase as [H | H]; apply Forall_inv in H; cbn [fst] in H; lia. }
  rewrite sync_loop_cons.
  rewrite sync_of_valid_blocks by (assumption || lia).
  rewrite bind_of_Ok. unfold block_end. cbn [fst snd].
  set (z1 := Z.max abase bbase) in *.
  set (z2 := Z.min (abase + alen) (bbase + blen)) in *.
  destruct (Z.ltb_spec z1 z2) as [Hsync | Hnosync];
    destruct (Z.ltb_spec (abase + alen) (bbase + blen)) as [Hadv | Hadv].
  - destruct (IHa ((bbase, bmatch, blen) :: bm) z2
                (amatch + (z1 - abase) + (z2 - z1))
                (bmatch + (z1 - bbase) + (z2 - z1))
                (abase + alen) (amatch + alen) zb sb)
      as (sl & -> & Hasc & Hwithin); try (assumption || lia).
    + apply (Forall_behind_of_bounds _ _ _ _ _ _ _ Hboundsa). subst z1 z2. lia.
    + constructor.
      * unfold behind. cbn [fst snd]. subst z1 z2. lia.
      * apply (Forall_behind_of_bounds _ _ _ _ _ _ _ Hboundsb).
        subst z1 z2. lia.
    + left. apply (Forall_base_of_bounds _ _ _ _ _ _ Hboundsa).
      subst z1 z2. lia.
    + rewrite bind_of_Ok. eexists. split; [reflexivity|]. split.
      * cbn [ascending_syncs]. split_all; try assumption; subst z1 z2; lia.
      * constructor; [|assumption].
        unfold sync_within, within. subst z1 z2. lia.
  - destruct (IHb z2 (amatch + (z1 - abase) + (z2 - z1))
                (bmatch + (z1 - bbase) + (z2 - z1))
                za sa (bbase + blen) (bmatch + blen))
      as (sl & -> & Hasc & Hwithin); try (assumption || lia).
    + constructor.
      * unfold behind. cbn [fst snd]. subst z1 z2. lia.
      * apply (Forall_behind_of_bounds _ _ _ _ _ _ _ Hboundsa).
        subst z1 z2. lia.
    + apply (Forall_behind_of_bounds _ _ _ _ _ _ _ Hboundsb). subst z1 z2. lia.
    + right. apply (Forall_base_of_bounds _ _ _ _ _ _ Hboundsb).
      subst z1 z2. lia.
    + rewrite bind_of_Ok. eexists. split; [reflexivity|]. split.
      * cbn [ascending_syncs]. split_all; try assumption; subst z1 z2; lia.
      * constructor; [|assumption].
        unfold sync_within, within. subst z1 z2. lia.
  - destruct (IHa ((bbase, bmatch, blen) :: bm) lz la lb
                (abase + alen) (amatch + alen) zb sb)
      as (sl & -> & Hasc & Hwithin); try (assumption || lia).
    + now apply Forall_inv_tail in Hbehinda.
    + destruct Hbase as [H | H]; [left; now apply Forall_inv_tail in H|now right].
    + rewrite bind_of_Ok. eexists. split; [reflexivity|]. now split.
  - destruct (IHb lz la lb za sa (bbase + blen) (bmatch + blen))
      as (sl & -> & Hasc & Hwithin); try (assumption || lia).
    + now apply Forall_inv_tail in Hbehindb.
    + destruct Hbase as [H | H]; [now left|right; now apply Forall_inv_tail in H].
    + rewrite bind_of_Ok. eexists. split; [reflexivity|]. now split.
Qed.

End ContractLoop.

Section ContractRegions.

Context {md : Mdiff}.
Variable self : Merge3Text.

Lemma classify_gap_total iz zm ia am ib bm :
  0 <= iz <= zm -> zm <= Py.len (base self) ->
  0 <= ia <= am -> am <= Py.len (a self) ->
  0 <= ib <= bm -> bm <= Py.len (b self) ->
  exists g, classify_gap self iz zm ia am ib bm = Ok g.
Proof.
  intros Hz1 Hz2 Ha1 Ha2 Hb1 Hb2. unfold classify_gap.
  rewrite !compare_range_slices by lia. rewrite !bind_of_Ok.
  destruct (Py.tokens_eqb (Py.slice (a self) ia am) (Py.slice (b self) ib bm))
    eqn:Hsame; [eauto|].
  destruct (Py.tokens_eqb (Py.slice (a self) ia am) (Py.slice (base self) iz zm))
    eqn:Ha;
    destruct (Py.tokens_eqb (Py.slice (b self) ib bm) (Py.slice (base self) iz zm))
      eqn:Hb; cbn [andb negb]; eauto.
  apply PyFacts.tokens_eqb_true in Ha, Hb.
  rewrite Ha, <- Hb, PyFacts.tokens_eqb_refl in Hsame. discriminate.
Qed.

Lemma regions_loop_total syncs : forall iz ia ib,
  0 <= iz -> 0 <= ia -> 0 <= ib ->
  ascending_syncs iz ia ib syncs -> Forall (sync_within self) syncs ->
  snd (regions_loop self syncs iz ia ib) = None.
Proof.
  induction syncs as [|[[[[[zm ze] am] ae] bm] be] rest IH];
    intros iz ia ib Hz Ha Hb Hasc Hin; [reflexivity|].
  cbn [ascending_syncs] in Hasc.
  destruct Hasc as (H1 & H2 & H3 & H4 & H5 & H6 & Hrest).
  apply Forall_cons_iff in Hin as [Hr Hin].
  destruct Hr as ([Hz1 Hz2] & [Ha1 Ha2] & [Hb1 Hb2]).
  assert (exists gap,
             gap_before self iz ia ib (zm, ze, am, ae, bm, be) = Ok gap
             /\ (gap = None -> ia = am /\ ib = bm)) as (gap & Hgap & Hnone).
  { rewrite gap_before_ordered by lia.
    destruct (classify_gap_total iz zm ia am ib bm) as [g Hg]; try lia.
    rewrite Hg, bind_of_Ok.
    destruct (Z.eqb_spec (am - ia) 0); destruct (Z.eqb_spec (bm - ib) 0);
      cbn [negb orb].
    - exists None. split; [reflexivity|]. lia.
    - exists (Some g). split; [reflexivity|discriminate].
    - exists (Some g). split; [reflexivity|discriminate].
    - exists (Some g). split; [reflexivity|discriminate]. }
  erewrite regions_loop_step; [|exact Hgap|exact Hnone|lia..].
  cbn [sapp snd]. apply IH; try lia; assumption.
Qed.

Lemma ascending_with_final sl : forall lz la lb,
  lz <= Py.len (base self) -> la <= Py.len (a self) ->
  lb <= Py.len (b self) ->
  ascending_syncs lz la lb sl -> Forall (sync_within self) sl ->
  ascending_syncs lz la lb (sl ++ [final_sync self]).
Proof.
  induction sl as [|[[[[[z1 z2] a1] a2] b1] b2] sl IH];
    intros lz la lb Hz Ha Hb Hasc Hin.
  - cbn. lia.
  - cbn [app ascending_syncs] in *.
    destruct Hasc as (H1 & H2 & H3 & H4 & H5 & H6 & Hrest).
    apply Forall_cons_iff in Hin as [Hr Hin].
    destruct Hr as ([Hz1 Hz2] & [Ha1 Ha2] & [Hb1 Hb2]).
    split_all; try assumption. apply IH; try lia; assumption.
Qed.

Lemma find_sync_regions_total :
  matcher_contract self = true ->
  exists sl,
    find_sync_regions self = Ok sl
    /\ ascending_syncs 0 0 0 sl
    /\ Forall (sync_within self) sl.
Proof.
  unfold matcher_contract. intros H. apply andb_true_iff in H as [Ha Hb].
  rewrite find_sync_regions_blocks.
  pose proof (matching_blocks_ok_bounds _ _ _ _ _ Ha) as Hboundsa.
  pose proof (matching_blocks_ok_bounds _ _ _ _ _ Hb) as Hboundsb.
  destruct (sync_loop_ascending self (a_blocks self) (b_blocks self)
              0 0 0 0 0 0 0)
    as (sl & -> & Hasc & Hin); try assumption; try lia.
  - now apply (Forall_behind_of_bounds _ _ _ _ _ _ _ Hboundsa).
  - now apply (Forall_behind_of_bounds _ _ _ _ _ _ _ Hboundsb).
  - left. now apply (Forall_base_of_bounds _ _ _ _ _ _ Hboundsa).
  - rewrite bind_of_Ok. eexists. split; [reflexivity|]. split.
    + apply ascending_with_final; try assumption; unfold Py.len; lia.
    + apply Forall_app. split; [assumption|]. constructor; [|constructor].
      unfold sync_within, final_sync, within, Py.len. lia.
Qed.

Lemma merge_regions_total :
  matcher_contract self = true ->
  snd (merge_regions self) = None
  /\ Forall (region_within self) (fst (merge_regions self)).
Proof.
  intros H. destruct (find_sync_regions_total H) as (sl & Hfind & Hasc & Hin).
  unfold merge_regions. rewrite Hfind. split.
  - apply regions_loop_total; try lia; assumption.
  - apply regions_loop_within; try assumption; unfold Py.len; lia.
Qed.

Lemma regions_of_merge_lines_total (minimized : bool) :
  matcher_contract self = true ->
  exists rs,
    (if minimized then minimize self (merge_regions self)
     else merge_regions self) = (rs, None)
    /\ Forall (region_within self) rs.
Proof.
  intros H. destruct (merge_regions_total H) as [Hnone Hin].
  destruct (merge_regions self) as [rs tail]. cbn [fst snd] in *. subst tail.
  destruct minimized; [|eauto].
  destruct (minimize_list_spec self None None None None EmptyString None
              rs None Hin) as (rs' & Hrun & Hin' & _).
  unfold minimize. cbn [fst snd]. eauto.
Qed.

Lemma render_region_within_raises tw sm mm em bm newline lo t st st' e :
  region_within self t ->
  render_region tw self sm mm em bm newline lo t st = (st', Some e) ->
  (e = CantShowWordConflicts /\ wordmerge self = enforced /\ unforced lo)
  \/ (wordmerge self = ondemand /\ exists x y z, tw x y z = Raise e).
Proof.
  intros Hin.
  destruct t; cbn [render_region region_within] in *;
    try (destruct Hin; rewrite yield_range_ok by assumption; discriminate).
  destruct Hin as (Hz & Ha & Hb).
  destruct (option_string_eqb lo "local") eqn:Hl;
    [destruct Ha; rewrite yield_range_ok by assumption; discriminate|].
  destruct (option_string_eqb lo "other") eqn:Ho;
    [destruct Hb; rewrite yield_range_ok by assumption; discriminate|].
  destruct (wordmerge self) eqn:Hmode.
  - cbn. intros H. injection H as _ <-. left. now split_all.
  - destruct (tw _ _ _) as [[resolved|]|e'] eqn:Htw.
    + destruct (Py.truthy (Some resolved)).
      * rewrite yield_merged_lines. discriminate.
      * rewrite show_conflict_ok by (now split_all). discriminate.
    + rewrite show_conflict_ok by (now split_all). discriminate.
    + unfold raise. intros H. injection H as _ <-. right. eauto.
  - rewrite show_conflict_ok by (now split_all). discriminate.
Qed.

Lemma merge_lines_with_total tw args e :
  matcher_contract self = true ->
  snd (merge_lines_with tw self args) = Some e ->
  (e = CantShowWordConflicts /\ wordmerge self = enforced
   /\ unforced (Args.localorother args))
  \/ (wordmerge self = ondemand /\ exists x y z, tw x y z = Raise e).
Proof.
  intros H. unfold merge_lines_with.
  destruct (regions_of_merge_lines_total (Args.minimize args) H)
    as (rs & -> & Hin).
  match goal with |- snd ?run = _ -> _ => destruct run as [st' e'] eqn:Hrun end.
  cbn [snd]. intros ->. unfold consume in Hrun. cbn [fst snd] in Hrun.
  apply and_then_raises in Hrun as [Hrun | (st1 & _ & Hrun)]; [|discriminate].
  apply for_each_raises in Hrun as (t & s & Ht & Hrun).
  eapply render_region_within_raises; [|exact Hrun].
  rewrite Forall_forall in Hin. now apply Hin.
Qed.

End ContractRegions.

(** X7. When the matcher keeps its contract on both sides (blocks in
    ascending order that do not overlap, lie within the token lists and
    match equal tokens), no assert of [find_sync_regions] or
    [merge_regions] fails and no index is out of range:
    [find_sync_regions] returns sync regions that follow each other and
    cover as many tokens in [base], [a] and [b]; [merge_regions] and
    [minimize] run to their end, with regions inside the three lists;
    and [merge_lines] raises nothing but [CantShowWordConflicts] (in
    [enforced] mode with no side forced) or what the word merge of an
    [ondemand] conflict raises.  In [disabled] mode, or with a side
    forced, [merge_lines] runs to its end. *)
Theorem contract_excludes_internal_faults {md : Mdiff} (self : Merge3Text)
    (args : Args.t) :
  matcher_contract self = true ->
  (exists sl,
      find_sync_regions self = Ok sl
      /\ ascending_syncs 0 0 0 sl
      /\ Forall (sync_within self) sl)
  /\ snd (merge_regions self) = None
  /\ Forall (region_within self) (fst (merge_regions self))
  /\ snd (minimize self (merge_regions self)) = None
  /\ (forall e, snd (merge_lines self args) = Some e ->
        (e = CantShowWordConflicts /\ wordmerge self = enforced
         /\ unforced (Args.localorother args))
        \/ (wordmerge self = ondemand
            /\ exists x y z, trywordmerge x y z = Raise e))
  /\ (wordmerge self = disabled \/ ~ unforced (Args.localorother args) ->
      snd (merge_lines self args) = None).
Proof.
  intros H. split_all.
  - now apply find_sync_regions_total.
  - now apply merge_regions_total.
  - now apply merge_regions_total.
  - destruct (regions_of_merge_lines_total self true H) as (rs & Hrs & _).
    now rewrite Hrs.
  - intros e. now apply merge_lines_with_total.
  - intros Hplain. unfold merge_lines, merge_lines_at, merge_lines_with.
    destruct (regions_of_merge_lines_total self (Args.minimize args) H)
      as (rs & -> & Hin).
    unfold consume, and_then. cbn [fst snd].
    rewrite render_regions_shown; [reflexivity|assumption|].
    destruct Hplain as [Hmode | Hforced]; [now left|right].
    intros t _. unfold counted, unforced in *.
    destruct (option_string_eqb (Args.localorother args) "local");
      destruct (option_string_eqb (Args.localorother args) "other");
      rewrite ?andb_false_r; try reflexivity.
    exfalso. apply Hforced. now split.
Qed.

Lemma contract_excludes_internal_faults_witness :
  let self :=
    @Merge3Text_init SpecMdiff.mdiff
      (line "one" ++ line "two")%string
      (line "zero" ++ line "one" ++ line "two")%string
      (line "one" ++ line "three")%string disabled in
  @matcher_contract SpecMdiff.mdiff self = true
  /\ snd (@merge_lines SpecMdiff.mdiff self Args.default) = None.
Proof.
  cbv zeta. split; [reflexivity|].
  apply (@contract_excludes_internal_faults SpecMdiff.mdiff); [reflexivity|].
  now left.
Defined.

(** ** The same change on both sides *)

Section SameChange.

Context {md : Mdiff}.
Variable self : Merge3Text.
Hypothesis Hab : a self = b self.

(** Two cursors into the same list of blocks: only a block paired with
    itself gives a sync region, which then covers the same positions of
    [a] and [b]. *)
Lemma sync_loop_same_blocks am : forall bm za sa zb sb sl,
  matching_blocks_ok (base self) (a self) za sa am = true ->
  0 <= za -> 0 <= sa ->
  matching_blocks_ok (base self) (b self) zb sb bm = true ->
  0 <= zb -> 0 <= sb ->
  (exists pre, bm = pre ++ am) \/ (exists pre, am = pre ++ bm) ->
  sync_loop self am bm = Ok sl -> Forall same_positions sl.
Proof.
  induction am as [|[[abase amatch] alen] am IHa]; intros bm.
  { intros za sa zb sb sl _ _ _ _ _ _ _ Hrun.
    rewrite sync_loop_nil_l in Hrun. injection Hrun as <-. constructor. }
  induction bm as [|[[bbase bmatch] blen] bm IHb];
    intros za sa zb sb sl Hoka Hza Hsa Hokb Hzb Hsb Htail Hrun.
  { injection Hrun as <-. constructor. }
  pose proof Hoka as Hoka'. pose proof Hokb as Hokb'.
  apply matching_blocks_ok_cons in Hoka' as (Hba & Heqa & Htaila).
  apply matching_blocks_ok_cons in Hokb' as (Hbb & Heqb & Htailb).
  pose proof (matching_blocks_ok_bounds _ _ _ _ _ Htaila) as Hboundsa.
  pose proof (matching_blocks_ok_bounds _ _ _ _ _ Htailb) as Hboundsb.
  rewrite sync_loop_cons in Hrun.
  rewrite sync_of_valid_blocks in Hrun by (assumption || lia).
  rewrite bind_of_Ok in Hrun.
  apply bind_Ok in Hrun as (rest & Hrest & Hrun). injection Hrun as <-.
  unfold block_end in Hrest. cbn [fst snd] in Hrest.
  assert (Forall same_positions rest) as Hsame.
  { destruct (Z.ltb_spec (abase + alen) (bbase + blen)).
    - apply (IHa ((bbase, bmatch, blen) :: bm)
               (abase + alen) (amatch + alen) zb sb rest);
        try (assumption || lia).
      destruct Htail as [[pre Hpre] | [[|p pre] Hpre]].
      + left. exists (pre ++ [(abase, amatch, alen)]).
        now rewrite <- app_assoc.
      + left. exists [(abase, amatch, alen)]. cbn [app] in Hpre |- *.
        now symmetry.
      + right. exists pre. now injection Hpre.
    - apply (IHb za sa (bbase + blen) (bmatch + blen) rest);
        try (assumption || lia).
      destruct Htail as [[[|p pre] Hpre] | [pre Hpre]].
      + right. exists [(bbase, bmatch, blen)]. cbn [app] in Hpre |- *.
        now symmetry.
      + left. exists pre. now injection Hpre.
      + right. exists (pre ++ [(bbase, bmatch, blen)]).
        now rewrite <- app_assoc. }
  destruct (Z.ltb_spec (Z.max abase bbase) (Z.min (abase + alen) (bbase + blen)))
    as [Hsync | _]; [|exact Hsame].
  constructor; [|exact Hsame].
  destruct Htail as [[[|p pre] Hpre] | [[|p pre] Hpre]].
  - injection Hpre as -> -> -> _. cbn. lia.
  - exfalso. injection Hpre as <- Hbm.
    assert (In (abase, amatch, alen) bm) as Hin
      by (rewrite Hbm; apply in_or_app; right; now left).
    rewrite Forall_forall in Hboundsb. apply Hboundsb in Hin.
    unfold block_bounds in Hin. cbn [fst snd] in Hin. lia.
  - injection Hpre as -> -> -> _. cbn. lia.
  - exfalso. injection Hpre as <- Ham.
    assert (In (bbase, bmatch, blen) am) as Hin
      by (rewrite Ham; apply in_or_app; right; now left).
    rewrite Forall_forall in Hboundsa. apply Hboundsa in Hin.
    unfold block_bounds in Hin. cbn [fst snd] in Hin. lia.
Qed.

Lemma a_end_bounds syncs : forall lz la lb,
  la <= Py.len (a self) ->
  ascending_syncs lz la lb syncs -> Forall (sync_within self) syncs ->
  la <= a_end syncs la <= Py.len (a self).
Proof.
  induction syncs as [|[[[[[z1 z2] a1] a2] b1] b2] syncs IH];
    intros lz la lb Hla Hasc Hin; cbn [a_end]; [lia|].
  cbn [ascending_syncs] in Hasc.
  destruct Hasc as (H1 & H2 & H3 & H4 & H5 & H6 & Hrest).
  apply Forall_cons_iff in Hin as [Hr Hin].
  destruct Hr as ([Hz1 Hz2] & [Ha1 Ha2] & [Hb1 Hb2]).
  specialize (IH z2 a2 b2 ltac:(lia) Hrest Hin). lia.
Qed.

(** With sync regions at the same positions of [a] and [b], every gap
    is the same on both sides: the regions hold no conflict and cover
    [a] from the cursor on. *)
Lemma regions_loop_same syncs : forall iz ia,
  0 <= iz -> 0 <= ia <= Py.len (a self) ->
  ascending_syncs iz ia ia syncs ->
  Forall (sync_within self) syncs ->
  Forall (sync_ok self) syncs ->
  Forall same_positions syncs ->
  exists rs,
    regions_loop self syncs iz ia ia = (rs, None)
    /\ Forall (region_within self) rs
    /\ conflict_free rs = true
    /\ forall sm mm em bmk newline lo,
         flat_map (shown self sm mm em bmk newline lo) rs
         = map Token (Py.slice (a self) ia (a_end syncs ia)).
Proof.
  induction syncs as [|[[[[[zm ze] am] ae] bm] be] rest IH];
    intros iz ia Hz Ha Hasc Hin Hok Hpos.
  { exists []. split_all; try easy. intros. cbn [a_end flat_map].
    now rewrite PyFacts.slice_empty by lia. }
  pose proof (a_end_bounds _ _ _ _ (proj2 Ha) Hasc Hin) as Hend.
  cbn [a_end] in *. cbn [ascending_syncs] in Hasc.
  destruct Hasc as (H1 & H2 & H3 & H4 & H5 & H6 & Hrest).
  apply Forall_cons_iff in Hin as [Hr Hin].
  destruct Hr as ([Hz1 Hz2] & [Ha1 Ha2] & [Hb1 Hb2]).
  apply Forall_cons_iff in Hok as [(_ & _ & Heqa & _) Hok].
  apply Forall_cons_iff in Hpos as [[<- <-] Hpos].
  destruct (IH ze ae) as (rs & Hrun & Hwithin & Hfree & Hshown);
    try (assumption || lia).
  pose proof (a_end_bounds _ _ _ _ (proj2 Ha2) Hrest Hin) as Hend'.
  assert (exists gap,
             gap_before self iz ia ia (zm, ze, am, ae, am, ae) = Ok gap
             /\ (gap = None -> ia = am /\ ia = am)
             /\ gap = if am =? ia then None else Some (Same ia am))
    as (gap & Hgap & Hnone & Hval).
  { rewrite gap_before_ordered by lia.
    destruct (Z.eqb_spec am ia) as [->|Hne].
    - rewrite Z.sub_diag. cbn. eauto.
    - replace (am - ia =? 0) with false by (symmetry; apply Z.eqb_neq; lia).
      cbn [negb orb]. unfold classify_gap.
      rewrite !compare_range_slices by (rewrite <- ?Hab; lia).
      rewrite !bind_of_Ok, <- Hab, PyFacts.tokens_eqb_refl.
      cbn [bind]. eexists. split_all; [reflexivity|discriminate|reflexivity]. }
  erewrite regions_loop_step; [|exact Hgap|exact Hnone|lia..].
  rewrite Hrun. unfold sapp. cbn [fst snd].
  eexists. split; [reflexivity|]. split_all.
  - apply Forall_app. split; [|assumption]. apply Forall_app. split.
    + rewrite Hval. destruct (am =? ia); constructor; [|constructor].
      cbn. unfold within. lia.
    + destruct (0 <? ze - zm); constructor; [|constructor].
      cbn. unfold within. lia.
  - unfold conflict_free in *. rewrite !forallb_app, Hfree, Hval.
    now destruct (am =? ia); destruct (0 <? ze - zm).
  - intros. rewrite !flat_map_app, Hshown.
    rewrite (PyFacts.slice_app (a self) ia am (a_end rest ae)) by lia.
    rewrite (PyFacts.slice_app (a self) am ae (a_end rest ae)) by lia.
    rewrite !map_app, <- app_assoc. f_equal; [|f_equal].
    + rewrite Hval.
      destruct (Z.eqb_spec am ia) as [->|Hne]; cbn [flat_map shown app].
      * now rewrite PyFacts.slice_empty by lia.
      * now rewrite app_nil_r.
    + destruct (Z.ltb_spec 0 (ze - zm)); cbn [flat_map shown app].
      * now rewrite app_nil_r, Heqa.
      * now rewrite PyFacts.slice_empty by lia.
Qed.

Lemma a_end_final sl ia :
  a_end (sl ++ [final_sync self]) ia = Py.len (a self).
Proof.
  revert ia. induction sl as [|[[[[[z1 z2] a1] a2] b1] b2] sl IH]; intros ia.
  - reflexivity.
  - cbn [app a_end]. apply IH.
Qed.

Lemma merge_regions_same_change :
  a_blocks self = b_blocks self ->
  matcher_contract self = true ->
  exists rs,
    merge_regions self = (rs, None)
    /\ Forall (region_within self) rs
    /\ conflict_free rs = true
    /\ forall sm mm em bmk newline lo,
         flat_map (shown self sm mm em bmk newline lo) rs
         = map Token (a self).
Proof.
  intros Hblocks H. pose proof H as H'. unfold matcher_contract in H'.
  apply andb_true_iff in H' as [Ha Hb].
  pose proof (matching_blocks_ok_bounds _ _ _ _ _ Ha) as Hboundsa.
  pose proof (matching_blocks_ok_bounds _ _ _ _ _ Hb) as Hboundsb.
  destruct (sync_loop_ascending self (a_blocks self) (b_blocks self)
              0 0 0 0 0 0 0)
    as (sl & Hloop & Hasc & Hin); try assumption; try lia.
  { now apply (Forall_behind_of_bounds _ _ _ _ _ _ _ Hboundsa). }
  { now apply (Forall_behind_of_bounds _ _ _ _ _ _ _ Hboundsb). }
  { left. now apply (Forall_base_of_bounds _ _ _ _ _ _ Hboundsa). }
  assert (Forall same_positions sl) as Hpos.
  { apply (sync_loop_same_blocks (a_blocks self) (b_blocks self) 0 0 0 0 sl);
      try assumption; try lia.
    left. exists []. now rewrite Hblocks. }
  pose proof (sync_loop_Ok self _ _ _ Hloop) as Hok.
  destruct (regions_loop_same (sl ++ [final_sync self]) 0 0)
    as (rs & Hrun & Hwithin & Hfree & Hshown); try (unfold Py.len; lia).
  - apply ascending_with_final; try assumption; unfold Py.len; lia.
  - apply Forall_app. split; [assumption|]. constructor; [|constructor].
    unfold sync_within, final_sync, within, Py.len. lia.
  - apply Forall_app. split; [assumption|]. constructor; [|constructor].
    apply final_sync_ok.
  - apply Forall_app. split; [assumption|]. constructor; [|constructor].
    unfold same_positions, final_sync. now rewrite Hab.
  - exists rs. split_all; try assumption.
    + unfold merge_regions. rewrite find_sync_regions_blocks, Hloop.
      rewrite bind_of_Ok. exact Hrun.
    + intros. rewrite Hshown, a_end_final. now rewrite PyFacts.slice_full.
Qed.

Lemma merge_lines_same_change args :
  a_blocks self = b_blocks self ->
  matcher_contract self = true ->
  let r := merge_lines self args in
  snd r = None /\ lines r = a self
  /\ conflicts (fst r) = false /\ conflictscount (fst r) = 0.
Proof.
  intros Hblocks H.
  destruct (merge_regions_same_change Hblocks H)
    as (rs & Hrun & Hwithin & Hfree & Hshown).
  now apply merge_lines_conflict_free with (rs := rs).
Qed.

End SameChange.

(** X8. When both sides make the same change ([a == b]), the output of
    [merge_lines] is that text byte for byte and no conflict is counted,
    in every word-merge mode and for all arguments, for a splitter whose
    tokens concatenate to the text and a matcher that keeps its
    contract. *)
Theorem same_change_taken_once {md : Mdiff} (mode : wordmergemode)
    (args : Args.t) (basetext other : bytes) :
  let self := Merge3Text_init basetext other other mode in
  Py.join (a self) = other ->
  matcher_contract self = true ->
  let r := merge_lines self args in
  snd r = None /\ merged_text r = other
  /\ conflictscount (fst r) = 0 /\ conflicts (fst r) = false.
Proof.
  cbv zeta. intros Hjoin H.
  assert (a_blocks (Merge3Text_init basetext other other mode)
          = b_blocks (Merge3Text_init basetext other other mode)) as Hblocks
    by now destruct mode.
  destruct (merge_lines_same_change
              (Merge3Text_init basetext other other mode) eq_refl args
              Hblocks H)
    as (Hdone & Hlines & Hflag & Hcount).
  unfold merged_text. rewrite Hlines. auto.
Qed.

Lemma same_change_taken_once_witness :
  let basetext := (line "a" ++ line "b" ++ line "c")%string in
  let other := (line "a" ++ line "x" ++ line "y" ++ line "c")%string in
  let r := @merge_lines SpecMdiff.mdiff
             (@Merge3Text_init SpecMdiff.mdiff basetext other other ondemand)
             Args.default in
  snd r = None /\ merged_text r = other
  /\ conflictscount (fst r) = 0 /\ conflicts (fst r) = false.
Proof.
  cbv zeta.
  apply (@same_change_taken_once SpecMdiff.mdiff ondemand Args.default);
    reflexivity.
Defined.

(** ** The driver *)

Lemma setitem_in_range {A} (l : list A) (n : nat) (x : A) :
  (n < List.length l)%nat ->
  setitem l (Z.of_nat n) x = Ok (firstn n l ++ x :: skipn (n + 1) l).
Proof.
  intros Hn. unfold setitem, Py.len.
  replace (Z.of_nat n <? 0) with false by (symmetry; apply Z.ltb_ge; lia).
  replace (0 <=? Z.of_nat n) with true by (symmetry; apply Z.leb_le; lia).
  replace (Z.of_nat n <? Z.of_nat (List.length l)) with true
    by (symmetry; apply Z.ltb_lt; lia).
  cbn [andb]. now rewrite Nat2Z.id.
Qed.

Lemma setitem_at_end {A} (l : list A) (n : nat) (x : A) :
  (List.length l <= n)%nat -> setitem l (Z.of_nat n) x = Raise IndexError.
Proof.
  intros Hn. unfold setitem, Py.len.
  replace (Z.of_nat n <? 0) with false by (symmetry; apply Z.ltb_ge; lia).
  replace (Z.of_nat n <? Z.of_nat (List.length l)) with false
    by (symmetry; apply Z.ltb_ge; lia).
  now rewrite andb_false_r.
Qed.

Section PickLabels.

Context {ext : Externals}.

Lemma store_overrides_spec overrides : forall result (n : nat),
  (n <= List.length result)%nat ->
  store_overrides result (Z.of_nat n) overrides
  = if (n + List.length overrides <=? List.length result)%nat
    then Returns (firstn n result
                  ++ map (fun o => Some (encodeutf8 o)) overrides
                  ++ skipn (n + List.length overrides) result)
    else Throws (Exn IndexError).
Proof.
  induction overrides as [|o rest IH]; intros result n Hn.
  - cbn [store_overrides List.length map app].
    rewrite Nat.add_0_r. replace (n <=? List.length result)%nat with true
      by (symmetry; apply Nat.leb_le; lia).
    now rewrite firstn_skipn.
  - cbn [store_overrides List.length map].
    destruct (Nat.eq_dec n (List.length result)) as [Heq | Hne].
    + rewrite setitem_at_end by lia.
      replace (n + S (List.length rest) <=? List.length result)%nat with false
        by (symmetry; apply Nat.leb_gt; lia).
      reflexivity.
    + rewrite setitem_in_range by lia.
      replace (Z.of_nat n + 1) with (Z.of_nat (S n)) by lia.
      set (result' := firstn n result ++ Some (encodeutf8 o)
                        :: skipn (n + 1) result).
      assert (List.length result' = List.length result) as Hlen.
      { subst result'. rewrite length_app, length_firstn. cbn [List.length].
        rewrite length_skipn. lia. }
      rewrite IH by lia. rewrite Hlen.
      replace (S n + List.length rest)%nat with (n + S (List.length rest))%nat
        by lia.
      destruct (n + S (List.length rest) <=? List.length result)%nat eqn:Hfit;
        [|reflexivity].
      apply Nat.leb_le in Hfit. f_equal. subst result'.
      assert (List.length (firstn n result) = n) as Hfirst
        by (rewrite length_firstn; lia).
      replace (S n) with (List.length (firstn n result) + 1)%nat at 1 by lia.
      rewrite firstn_app_2. cbn [firstn]. rewrite <- app_assoc. f_equal.
      cbn [app]. f_equal. f_equal.
      replace (n + S (List.length rest))%nat
        with (List.length (firstn n result) + S (List.length rest))%nat
        at 1 by lia.
      rewrite skipn_app, skipn_all2 by lia. cbn [app].
      replace (List.length (firstn n result) + S (List.length rest)
               - List.length (firstn n result))%nat
        with (S (List.length rest)) by lia.
      cbn [skipn]. rewrite skipn_skipn. f_equal. lia.
Qed.

End PickLabels.

(** X9. [_picklabels] aborts when there are more than three overrides.
    Otherwise it returns the encoded overrides followed by the encoded
    defaults beyond them, a list as long as the defaults; with more
    overrides than defaults it raises IndexError, which cannot happen
    for the three defaults [simplemerge] passes. *)
Theorem picklabels_overrides_then_defaults {ext : Externals}
    (defaults : list (option string)) (overrides : list string) :
  (3 < Py.len overrides ->
   _picklabels defaults overrides = Throws (Abort ThreeLabels))
  /\ (Py.len overrides <= 3 -> Py.len overrides <= Py.len defaults ->
      _picklabels defaults overrides
      = Returns (map (fun o => Some (encodeutf8 o)) overrides
                 ++ skipn (List.length overrides)
                      (map (option_map encodeutf8) defaults)))
  /\ (Py.len overrides <= 3 -> Py.len defaults < Py.len overrides ->
      _picklabels defaults overrides = Throws (Exn IndexError))
  /\ (forall labels, _picklabels defaults overrides = Returns labels ->
      List.length labels = List.length defaults)
  /\ (Py.len defaults = 3 ->
      _picklabels defaults overrides <> Throws (Exn IndexError)).
Proof.
  assert (forall b : bool, (3 <? Py.len overrides) = b ->
            _picklabels defaults overrides
            = if b then Throws (Abort ThreeLabels)
              else if (List.length overrides <=? List.length defaults)%nat
                   then Returns (map (fun o => Some (encodeutf8 o)) overrides
                                 ++ skipn (List.length overrides)
                                      (map (option_map encodeutf8) defaults))
                   else Throws (Exn IndexError)) as Hspec.
  { intros flag Hflag. unfold _picklabels. rewrite Hflag.
    destruct flag; [reflexivity|].
    rewrite (store_overrides_spec overrides _ 0) by lia.
    now rewrite length_map. }
  unfold Py.len in *. split_all.
  - intros H. apply (Hspec true). apply Z.ltb_lt. lia.
  - intros H3 Hd. rewrite (Hspec false) by (apply Z.ltb_ge; lia).
    replace (List.length overrides <=? List.length defaults)%nat with true
      by (symmetry; apply Nat.leb_le; lia).
    reflexivity.
  - intros H3 Hd. rewrite (Hspec false) by (apply Z.ltb_ge; lia).
    replace (List.length overrides <=? List.length defaults)%nat with false
      by (symmetry; apply Nat.leb_gt; lia).
    reflexivity.
  - intros labels. rewrite (Hspec _ eq_refl).
    destruct (3 <? Z.of_nat (List.length overrides)); [discriminate|].
    destruct (Nat.leb_spec (List.length overrides) (List.length defaults));
      [|discriminate].
    intros Hret. injection Hret as <-.
    rewrite length_app, length_map, length_skipn, length_map. lia.
  - intros Hd. rewrite (Hspec _ eq_refl).
    destruct (Z.ltb_spec 3 (Z.of_nat (List.length overrides))) as [|Hflag];
      [discriminate|].
    replace (List.length overrides <=? List.length defaults)%nat with true
      by (symmetry; apply Nat.leb_le; lia).
    discriminate.
Qed.

Section MergeDiff.

Context {md : Mdiff} {ext : Externals}.
Variable m3 : Merge3Text.
Variables name_a name_b name_base : option bytes.

Lemma conflict_lines_Throws base_lines a_lines b_lines e :
  conflict_lines name_a name_b name_base base_lines a_lines b_lines = Throws e ->
  e = TypeError.
Proof.
  unfold conflict_lines, format_name.
  destruct (_ <? _); destruct name_a, name_b, name_base; cbn [obind];
    congruence.
Qed.

Lemma conflict_lines_unnamed base_lines a_lines b_lines :
  name_a = None \/ name_b = None \/ name_base = None ->
  conflict_lines name_a name_b name_base base_lines a_lines b_lines
  = Throws TypeError.
Proof.
  unfold conflict_lines, format_name.
  intros [-> | [-> | ->]]; destruct (_ <? _);
    repeat match goal with
           | |- context [match ?n with Some _ => _ | None => _ end] =>
               is_var n; destruct n
           end; reflexivity.
Qed.

Lemma mergediff_loop_Throws rs : forall lines conflicts e,
  mergediff_loop name_a name_b name_base (map (group_of m3) rs) lines conflicts
  = Throws e ->
  e = TypeError.
Proof.
  induction rs as [|t rs IH]; intros lines conflicts e; [discriminate|].
  destruct t; cbn [map group_of mergediff_loop]; try apply IH.
  destruct (conflict_lines _ _ _ _ _ _) as [shown|e'] eqn:Hshown; cbn [obind].
  - apply IH.
  - intros H. injection H as <-. eapply conflict_lines_Throws, Hshown.
Qed.

Lemma mergediff_loop_flag rs : forall lines conflicts lines' conflicts',
  mergediff_loop name_a name_b name_base (map (group_of m3) rs) lines conflicts
  = Returns (lines', conflicts') ->
  conflicts' = conflicts || negb (conflict_free rs).
Proof.
  unfold conflict_free.
  induction rs as [|t rs IH]; intros lines conflicts lines' conflicts'.
  - cbn. intros H. injection H as _ <-. now rewrite orb_false_r.
  - destruct t; cbn [map group_of mergediff_loop forallb is_conflict negb andb];
      try apply IH.
    destruct (conflict_lines _ _ _ _ _ _) as [shown|e']; cbn [obind];
      [|discriminate].
    intros H. apply IH in H. rewrite H. cbn. now rewrite orb_true_r.
Qed.

Lemma mergediff_loop_conflict_free rs : forall lines conflicts,
  conflict_free rs = true ->
  exists toks,
    mergediff_loop name_a name_b name_base (map (group_of m3) rs) lines conflicts
    = Returns (lines ++ toks, conflicts)
    /\ forall sm mm em bm newline lo,
         flat_map (shown m3 sm mm em bm newline lo) rs = map Token toks.
Proof.
  unfold conflict_free.
  induction rs as [|t rs IH]; intros lines conflicts Hfree.
  - exists []. cbn. now rewrite app_nil_r.
  - cbn [forallb] in Hfree. apply andb_true_iff in Hfree as [Ht Hfree].
    destruct t; try discriminate Ht;
      cbn [map group_of mergediff_loop flat_map shown];
      match goal with
      | |- context [mergediff_loop _ _ _ _ (lines ++ ?l) _] =>
          destruct (IH (lines ++ l) conflicts Hfree) as (toks & -> & Hshown);
          exists (l ++ toks); rewrite app_assoc; split; [reflexivity|];
          intros; now rewrite Hshown, map_app
      end.
Qed.

Lemma mergediff_loop_unnamed rs : forall lines conflicts,
  conflict_free rs = false ->
  name_a = None \/ name_b = None \/ name_base = None ->
  mergediff_loop name_a name_b name_base (map (group_of m3) rs) lines conflicts
  = Throws TypeError.
Proof.
  unfold conflict_free.
  induction rs as [|t rs IH]; intros lines conflicts Hfree Hnone;
    [discriminate|].
  destruct t; cbn [map group_of mergediff_loop forallb is_conflict negb andb]
    in *; try (now apply IH).
  now rewrite conflict_lines_unnamed.
Qed.

End MergeDiff.

(** X10. [_mergediff] reports conflicts exactly when [merge_groups]
    yields a conflict group.  When no group is a conflict and the
    matcher keeps its contract, it returns the lines [merge_lines]
    yields, whatever the arguments of [merge_lines].  A conflict group
    with one of the three names None raises TypeError; and TypeError and
    the internal faults of [merge_regions] are all it can raise. *)
Theorem mergediff_reports_conflict_groups {md : Mdiff} {ext : Externals}
    (m3 : Merge3Text) (name_a name_b name_base : option bytes) :
  (forall lines conflicts,
      _mergediff m3 name_a name_b name_base = Returns (lines, conflicts) ->
      snd (merge_groups m3) = None
      /\ conflicts = negb (conflict_free (fst (merge_regions m3))))
  /\ (forall args,
         matcher_contract m3 = true ->
         conflict_free (fst (merge_regions m3)) = true ->
         snd (merge_lines m3 args) = None
         /\ _mergediff m3 name_a name_b name_base
            = Returns (lines (merge_lines m3 args), false))
  /\ (conflict_free (fst (merge_regions m3)) = false ->
      name_a = None \/ name_b = None \/ name_base = None ->
      _mergediff m3 name_a name_b name_base = Throws TypeError)
  /\ (forall e,
         _mergediff m3 name_a name_b name_base = Throws e ->
         e = TypeError \/ exists x, e = Exn x /\ internal_fault x).
Proof.
  unfold _mergediff, merge_groups. cbn [fst snd]. split_all.
  - intros lines conflicts.
    destruct (mergediff_loop _ _ _ _ _ _) as [[lines' conflicts']|e] eqn:Hloop;
      cbn [obind]; [|discriminate].
    destruct (snd (merge_regions m3)); [discriminate|].
    intros H. injection H as <- <-. split; [reflexivity|].
    now apply mergediff_loop_flag in Hloop.
  - intros args Hcontract Hfree.
    destruct (merge_regions_total m3 Hcontract) as [Hdone Hwithin].
    destruct (mergediff_loop_conflict_free m3 name_a name_b name_base
                (fst (merge_regions m3)) [] false Hfree)
      as (toks & -> & Hshown).
    cbn [obind app]. rewrite Hdone.
    destruct (merge_lines_conflict_free m3 args (fst (merge_regions m3)) toks)
      as (Hrun & -> & _); try assumption; [|now split].
    rewrite <- Hdone. now destruct (merge_regions m3).
  - intros Hfree Hnone. now rewrite mergediff_loop_unnamed.
  - intros e.
    destruct (mergediff_loop _ _ _ _ _ _) as [r|e'] eqn:Hloop; cbn [obind].
    + destruct (snd (merge_regions m3)) as [x|] eqn:Hx; [|discriminate].
      intros H. injection H as <-. right. exists x. split; [reflexivity|].
      now apply (merge_regions_raises m3).
    + intros H. injection H as <-. left.
      eapply mergediff_loop_Throws, Hloop.
Qed.

Section SimpleMerge.

Context {md : Mdiff} {ext : Externals}.

Lemma merge_lines_flags_inv self args st :
  merge_lines self args = (st, None) -> flags_inv st.
Proof.
  unfold merge_lines, merge_lines_at, merge_lines_with. intros Hrun.
  eapply consume_inv in Hrun; [exact Hrun|].
  unfold flags_inv. cbn [conflicts conflictscount].
  split; [split; [discriminate|intros H; exfalso; lia]|lia].
Qed.

Lemma picklabels_three d1 d2 d3 overrides :
  Py.len overrides <= 3 ->
  exists name_a name_b name_base,
    _picklabels [d1; d2; d3] overrides = Returns [name_a; name_b; name_base].
Proof.
  intros H. unfold _picklabels.
  replace (3 <? Py.len overrides) with false by (symmetry; apply Z.ltb_ge; lia).
  unfold Py.len in H.
  destruct overrides as [|o1 [|o2 [|o3 [|o4 rest]]]];
    cbn [List.length] in H; try lia; cbn; do 3 eexists; reflexivity.
Qed.

Lemma verifytext_warns text path opts :
  forallb is_warning (fst (_verifytext text path opts)) = true.
Proof.
  unfold _verifytext. destruct (binary text); [|reflexivity].
  now destruct (Opts.quiet opts).
Qed.

Lemma read_texts_warns opts localctx basectx otherctx :
  forallb is_warning (fst (read_texts opts localctx basectx otherctx)) = true.
Proof.
  unfold read_texts, readctx.
  pose proof (verifytext_warns (Ctx.decodeddata localctx) (Ctx.path localctx) opts).
  pose proof (verifytext_warns (Ctx.decodeddata basectx) (Ctx.path basectx) opts).
  pose proof (verifytext_warns (Ctx.decodeddata otherctx) (Ctx.path otherctx) opts).
  destruct (_verifytext (Ctx.decodeddata localctx) _ _) as [w1 [t1|e1]];
    [|assumption].
  destruct (_verifytext (Ctx.decodeddata basectx) _ _) as [w2 [t2|e2]];
    destruct (_verifytext (Ctx.decodeddata otherctx) _ _) as [w3 [t3|e3]];
    cbn [fst] in *; rewrite ?forallb_app; repeat (apply andb_true_iff; split);
    assumption.
Qed.

Lemma run_merge_count mode opts m3 name_a name_b name_base lines n :
  run_merge mode opts m3 name_a name_b name_base = Returns (lines, true, n) ->
  1 <= n.
Proof.
  unfold run_merge. destruct (String.eqb mode "mergediff").
  - destruct (_mergediff _ _ _ _) as [r|e]; cbn [obind]; [|discriminate].
    intros H. injection H as _ _ <-. lia.
  - destruct (merge_lines _ _) as [st [e|]] eqn:Hrun; [discriminate|].
    intros H. injection H as _ Hflag <-.
    apply merge_lines_flags_inv in Hrun as [Hiff _].
    apply Hiff in Hflag. lia.
Qed.

End SimpleMerge.

(** X11. When one of the three texts is binary and the option "text" is
    not set, [simplemerge] returns 1 without merging or writing
    anything: all it does is warn, unless "quiet" is set, about the
    first binary text in the order local, base, other.  (More than three
    labels abort before any text is read.) *)
Theorem binary_input_is_rejected {md : Mdiff} {ext : Externals}
    (word_merge : bool) (localctx basectx otherctx : Ctx.t) (opts : Opts.t) :
  Opts.text opts = false ->
  binary (Ctx.decodeddata localctx) || binary (Ctx.decodeddata basectx)
  || binary (Ctx.decodeddata otherctx) = true ->
  Py.len (Opts.label opts) <= 3 ->
  let first :=
    if binary (Ctx.decodeddata localctx) then localctx
    else if binary (Ctx.decodeddata basectx) then basectx
    else otherctx in
  simplemerge word_merge localctx basectx otherctx opts
  = ((if Opts.quiet opts then [] else [Warn (LooksBinary (Ctx.path first))]),
     Returns (Some 1)).
Proof.
  intros Htext Hbinary Hlabels. cbv zeta. unfold simplemerge.
  destruct (picklabels_three (Some (Ctx.path localctx))
              (Some (Ctx.path otherctx)) None (Opts.label opts) Hlabels)
    as (name_a & name_b & name_base & ->).
  assert (exists na nb nbase,
             (if negb (String.eqb
                         match Opts.mode opts with Some m => m | None => "merge" end
                         "union")
              then Returns [name_a; name_b; name_base]
              else Returns [None; None; None])
             = Returns [na; nb; nbase]) as (na & nb & nbase & ->)
    by (destruct (negb _); do 3 eexists; reflexivity).
  unfold read_texts, readctx, _verifytext. rewrite Htext.
  destruct (binary (Ctx.decodeddata localctx));
    [now destruct (Opts.quiet opts)|].
  destruct (binary (Ctx.decodeddata basectx));
    [now destruct (Opts.quiet opts)|].
  destruct (binary (Ctx.decodeddata otherctx)); [|discriminate].
  now destruct (Opts.quiet opts).
Qed.

Lemma binary_input_is_rejected_witness :
  @simplemerge SpecMdiff.mdiff example_externals false
    (example_ctx "local" (line "a"))
    (example_ctx "base" (String "000"%char (line "b")))
    (example_ctx "other" (line "c"))
    (example_opts None [])
  = ([Warn (LooksBinary "base")], Returns (Some 1)).
Proof.
  apply (@binary_input_is_rejected SpecMdiff.mdiff example_externals false
           (example_ctx "local" (line "a"))
           (example_ctx "base" (String "000"%char (line "b")))
           (example_ctx "other" (line "c"))
           (example_opts None [])); [reflexivity|reflexivity|].
  vm_compute. discriminate.
Defined.

Section SimpleMergeRuns.

Context {md : Mdiff} {ext : Externals}.

Lemma read_texts_Throws opts localctx basectx otherctx e :
  snd (read_texts opts localctx basectx otherctx) = Throws e ->
  (exists msg, e = Abort msg)
  /\ Opts.text opts = false
  /\ binary (Ctx.decodeddata localctx) || binary (Ctx.decodeddata basectx)
     || binary (Ctx.decodeddata otherctx) = true.
Proof.
  unfold read_texts, readctx, _verifytext.
  destruct (Opts.text opts);
    destruct (binary (Ctx.decodeddata localctx));
    destruct (binary (Ctx.decodeddata basectx));
    destruct (binary (Ctx.decodeddata otherctx));
    cbn; intros H; try discriminate H; injection H as <-; eauto.
Qed.

End SimpleMergeRuns.

(** X12. [simplemerge] writes the merged text at most once, as the last
    thing it does, and only when it returns after a merge; until then
    it only warns.  It returns 1 without writing only when a binary text
    was rejected.  After a merge it returns None or a count of at least
    1, never 0, and None in "union" mode. *)
Theorem simplemerge_writes_last_returns_count {md : Mdiff} {ext : Externals}
    (word_merge : bool) (localctx basectx otherctx : Ctx.t) (opts : Opts.t) :
  match simplemerge word_merge localctx basectx otherctx opts with
  | (done, Throws _) => forallb is_warning done = true
  | (done, Returns v) =>
      (v = Some 1 /\ forallb is_warning done = true
       /\ Opts.text opts = false
       /\ binary (Ctx.decodeddata localctx) || binary (Ctx.decodeddata basectx)
          || binary (Ctx.decodeddata otherctx) = true)
      \/ (exists warned lines,
             done = warned ++ [written opts localctx (Py.join lines)]
             /\ forallb is_warning warned = true
             /\ (v = None
                 \/ exists n, v = Some n /\ 1 <= n /\ mode_of opts <> "union"))
  end.
Proof.
  unfold simplemerge. fold (mode_of opts).
  destruct (if negb (String.eqb (mode_of opts) "union") then _ else _)
    as [[|name_a [|name_b [|name_base [|extra names]]]]|e]; try reflexivity.
  pose proof (read_texts_warns opts localctx basectx otherctx) as Hwarns.
  pose proof (read_texts_Throws opts localctx basectx otherctx) as Hthrows.
  destruct (read_texts opts localctx basectx otherctx)
    as [warned [[[localtext basetext] othertext]|e]]; cbn [fst snd] in *.
  - destruct (run_merge _ _ _ _ _ _) as [[[lines flag] n]|e] eqn:Hrun;
      [|exact Hwarns].
    right. exists warned, lines. split_all; try easy.
    destruct flag; [|now left].
    destruct (String.eqb_spec (mode_of opts) "union"); [now left|].
    right. exists n. split_all; try easy.
    eapply run_merge_count, Hrun.
  - destruct (Hthrows e eq_refl) as ((msg & ->) & Htext & Hbinary).
    left. now split_all.
Qed.

Lemma map_Token_eq (l1 l2 : list bytes) : map Token l1 = map Token l2 -> l1 = l2.
Proof.
  revert l2. induction l1 as [|x l1 IH]; intros [|y l2] H;
    try discriminate H; [reflexivity|].
  injection H as -> H. f_equal. now apply IH.
Qed.

Section SharedChange.

Context {md : Mdiff} {ext : Externals}.
Variable self : Merge3Text.
Hypothesis Hab : a self = b self.
Hypothesis Hblocks : a_blocks self = b_blocks self.
Hypothesis Hcontract : matcher_contract self = true.

Lemma run_merge_same_change mode opts name_a name_b name_base :
  exists n,
    run_merge mode opts self name_a name_b name_base
    = Returns (a self, false, n).
Proof.
  unfold run_merge. destruct (String.eqb mode "mergediff").
  - destruct (merge_regions_same_change self Hab Hblocks Hcontract)
      as (rs & Hrun & Hwithin & Hfree & Hshown).
    unfold _mergediff, merge_groups. rewrite Hrun. cbn [fst snd].
    destruct (mergediff_loop_conflict_free self name_a name_b name_base
                rs [] false Hfree) as (toks & -> & Htoks).
    cbn [obind app fst snd]. exists 1. do 3 f_equal.
    apply map_Token_eq.
    rewrite <- (Htoks None None None None EmptyString None).
    apply Hshown.
  - destruct (merge_lines_same_change self Hab
                (merge_lines_args mode opts name_a name_b name_base)
                Hblocks Hcontract) as (Hdone & Hlines & Hflag & Hcount).
    unfold lines in Hlines.
    destruct (merge_lines self _) as [st [e|]]; [discriminate Hdone|].
    cbn [fst] in *. rewrite Hlines, Hflag. eauto.
Qed.

End SharedChange.

(** X13. When local and other hold the same text, no text is binary
    and at most three labels are given, [simplemerge] writes that text
    and returns None, in every mode ("merge", "union", "mergediff") and
    with or without word merge; for a splitter whose tokens concatenate
    to the text and a matcher that keeps its contract. *)
Theorem simplemerge_takes_shared_change {md : Mdiff} {ext : Externals}
    (word_merge : bool) (localctx basectx otherctx : Ctx.t) (opts : Opts.t) :
  let m3 :=
    Merge3Text_init (Ctx.decodeddata basectx) (Ctx.decodeddata localctx)
      (Ctx.decodeddata localctx) (fromui word_merge) in
  Ctx.decodeddata otherctx = Ctx.decodeddata localctx ->
  binary (Ctx.decodeddata localctx) = false ->
  binary (Ctx.decodeddata basectx) = false ->
  Py.len (Opts.label opts) <= 3 ->
  Py.join (a m3) = Ctx.decodeddata localctx ->
  matcher_contract m3 = true ->
  simplemerge word_merge localctx basectx otherctx opts
  = ([written opts localctx (Ctx.decodeddata localctx)], Returns None).
Proof.
  cbv zeta. intros Hsame Hlocal Hbase Hlabels Hjoin Hcontract.
  unfold simplemerge.
  destruct (picklabels_three (Some (Ctx.path localctx))
              (Some (Ctx.path otherctx)) None (Opts.label opts) Hlabels)
    as (name_a & name_b & name_base & ->).
  assert (exists na nb nbase,
             (if negb (String.eqb
                         match Opts.mode opts with Some m => m | None => "merge" end
                         "union")
              then Returns [name_a; name_b; name_base]
              else Returns [None; None; None])
             = Returns [na; nb; nbase]) as (na & nb & nbase & ->)
    by (destruct (negb _); do 3 eexists; reflexivity).
  unfold read_texts, readctx, _verifytext. rewrite Hsame, Hlocal, Hbase.
  cbn [app].
  assert (a_blocks (Merge3Text_init (Ctx.decodeddata basectx)
                      (Ctx.decodeddata localctx) (Ctx.decodeddata localctx)
                      (fromui word_merge))
          = b_blocks (Merge3Text_init (Ctx.decodeddata basectx)
                        (Ctx.decodeddata localctx) (Ctx.decodeddata localctx)
                        (fromui word_merge))) as Hblocks
    by now destruct word_merge.
  destruct (run_merge_same_change
              (Merge3Text_init (Ctx.decodeddata basectx)
                 (Ctx.decodeddata localctx) (Ctx.decodeddata localctx)
                 (fromui word_merge))
              eq_refl Hblocks Hcontract
              match Opts.mode opts with Some m => m | None => "merge" end
              opts na nb nbase) as (n & ->).
  rewrite Hjoin. reflexivity.
Qed.

Lemma simplemerge_takes_shared_change_witness :
  let text := (line "a" ++ line "x" ++ line "c")%string in
  @simplemerge SpecMdiff.mdiff example_externals true
    (example_ctx "local" text)
    (example_ctx "base" (line "a" ++ line "b" ++ line "c")%string)
    (example_ctx "other" text)
    (example_opts (Some "mergediff") ["ours"; "theirs"])
  = ([CtxWrite text EmptyString], Returns None).
Proof.
  cbv zeta.
  apply (@simplemerge_takes_shared_change SpecMdiff.mdiff example_externals true
           (example_ctx "local" (line "a" ++ line "x" ++ line "c")%string)
           (example_ctx "base" (line "a" ++ line "b" ++ line "c")%string)
           (example_ctx "other" (line "a" ++ line "x" ++ line "c")%string)
           (example_opts (Some "mergediff") ["ours"; "theirs"]));
    try reflexivity.
  vm_compute. discriminate.
Defined.

(** ** The benchmark *)

(** X14. [merge_file] leaves the statistics alone when the file is the
    same on both sides; otherwise it counts the file as changed, also
    when the merge or the report raises, and then counts it at most
    once more, as unresolved or as unmatched.  It writes to the ui
    exactly when it counts the file as unmatched, and never touches the
    counters of skipped merges. *)
Theorem merge_file_counts_once {md : Mdiff} {rep : Reporting}
    (srctext dsttext basetext expectedtext : bytes) (filepath : string)
    (m3merger : merger) (bench_stats : BenchStats) :
  let '(after, written, raised) :=
    merge_file srctext dsttext basetext expectedtext filepath m3merger
      bench_stats in
  (srctext = dsttext -> after = bench_stats /\ written = [] /\ raised = None)
  /\ changed_files after
     = changed_files bench_stats + (if String.eqb srctext dsttext then 0 else 1)
  /\ octopus_merges after = octopus_merges bench_stats
  /\ criss_cross_merges after = criss_cross_merges bench_stats
  /\ ((unresolved_files after = unresolved_files bench_stats
       /\ unmatched_files after = unmatched_files bench_stats
       /\ written = [])
      \/ (unresolved_files after = unresolved_files bench_stats + 1
          /\ unmatched_files after = unmatched_files bench_stats
          /\ written = [] /\ raised = None
          /\ srctext <> dsttext)
      \/ (unresolved_files after = unresolved_files bench_stats
          /\ unmatched_files after = unmatched_files bench_stats + 1
          /\ written <> []
          /\ srctext <> dsttext)).
Proof.
  unfold merge_file.
  destruct (String.eqb_spec srctext dsttext) as [Heq | Hne].
  { cbv beta iota. split_all; try reflexivity; try lia.
    - intros _. now split_all.
    - left. now split_all. }
  destruct (merge_lines _ _) as [st [e|]].
  { cbv beta iota. cbn [changed_files unresolved_files unmatched_files
                        octopus_merges criss_cross_merges].
    split_all; try reflexivity; try lia; [contradiction|].
    left. now split_all. }
  destruct (negb (conflictscount st =? 0)).
  { cbv beta iota. cbn [changed_files unresolved_files unmatched_files
                        octopus_merges criss_cross_merges].
    split_all; try reflexivity; try lia; [contradiction|].
    right. left. now split_all. }
  destruct (negb (String.eqb _ expectedtext)).
  - destruct (decode_utf8 _); cbv beta iota;
      cbn [changed_files unresolved_files unmatched_files
           octopus_merges criss_cross_merges];
      (split_all; try reflexivity; try lia; [contradiction|]);
      right; right; now split_all.
  - cbv beta iota. cbn [changed_files unresolved_files unmatched_files
                        octopus_merges criss_cross_merges].
    split_all; try reflexivity; try lia; [contradiction|].
    left. now split_all.
Qed.

(** X15. A file changed on one side only, that the merge commit holds
    as that side has it, is counted as changed and as nothing else, and
    nothing is written, with either merger: when only the source side
    changed it ([dsttext == basetext]), and when only the destination
    side did ([srctext == basetext]).  This holds for a splitter whose
    tokens concatenate to the text and a matcher that matches two equal
    sequences whole and keeps its contract on the changed side. *)
Theorem merge_file_one_sided_change {md : Mdiff} {rep : Reporting}
    (changed basetext : bytes) (filepath : string) (m3merger : merger)
    (bench_stats : BenchStats) :
  let counted_changed :=
    {| changed_files := changed_files bench_stats + 1;
       unresolved_files := unresolved_files bench_stats;
       unmatched_files := unmatched_files bench_stats;
       octopus_merges := octopus_merges bench_stats;
       criss_cross_merges := criss_cross_merges bench_stats |} in
  (let m3 := new_merger m3merger basetext basetext changed in
   changed <> basetext ->
   Py.join (b m3) = changed ->
   whole_match (Py.len (base m3)) (a_blocks m3) = true ->
   matching_blocks_ok (base m3) (b m3) 0 0 (b_blocks m3) = true ->
   merge_file changed basetext basetext changed filepath m3merger bench_stats
   = (counted_changed, [], None))
  /\
  (let m3 := new_merger m3merger basetext changed basetext in
   changed <> basetext ->
   Py.join (a m3) = changed ->
   whole_match (Py.len (base m3)) (b_blocks m3) = true ->
   matching_blocks_ok (base m3) (a m3) 0 0 (a_blocks m3) = true ->
   merge_file basetext changed basetext changed filepath m3merger bench_stats
   = (counted_changed, [], None)).
Proof.
  cbv zeta. split; intros Hne Hjoin Hwhole Hok; unfold merge_file.
  - destruct (String.eqb_spec changed basetext) as [Heq | _]; [contradiction|].
    assert (a (new_merger m3merger basetext basetext changed)
            = base (new_merger m3merger basetext basetext changed)) as Hab
      by now destruct m3merger.
    destruct (merge_lines_a_unchanged _ Args.default Hab Hwhole Hok)
      as (Hdone & Hlines & _ & Hcount).
    unfold lines in Hlines.
    destruct (merge_lines _ _) as [st [e|]]; [discriminate Hdone|].
    cbn [fst] in *. rewrite Hcount, Hlines, Hjoin, String.eqb_refl.
    reflexivity.
  - destruct (String.eqb_spec basetext changed) as [Heq | _];
      [now contradiction Hne|].
    assert (b (new_merger m3merger basetext changed basetext)
            = base (new_merger m3merger basetext changed basetext)) as Hbb
      by now destruct m3merger.
    destruct (merge_lines_b_unchanged _ Args.default Hbb Hwhole Hok)
      as (Hdone & Hlines & _ & Hcount).
    unfold lines in Hlines.
    destruct (merge_lines _ _) as [st [e|]]; [discriminate Hdone|].
    cbn [fst] in *. rewrite Hcount, Hlines, Hjoin, String.eqb_refl.
    reflexivity.
Qed.

Lemma merge_file_one_sided_change_witness :
  let changed := (line "a" ++ line "x" ++ line "c")%string in
  let basetext := (line "a" ++ line "b" ++ line "c")%string in
  let before :=
    {| changed_files := 0; unresolved_files := 0; unmatched_files := 0;
       octopus_merges := 0; criss_cross_merges := 0 |} in
  let after :=
    {| changed_files := 1; unresolved_files := 0; unmatched_files := 0;
       octopus_merges := 0; criss_cross_merges := 0 |} in
  @merge_file SpecMdiff.mdiff example_reporting changed basetext basetext
    changed "f" SmartMerge3Text before
  = (after, [], None)
  /\ @merge_file SpecMdiff.mdiff example_reporting basetext changed basetext
       changed "f" PlainMerge3Text before
     = (after, [], None).
Proof.
  cbv zeta. split.
  - apply (proj1 (@merge_file_one_sided_change SpecMdiff.mdiff
                    example_reporting
                    (line "a" ++ line "x" ++ line "c")%string
                    (line "a" ++ line "b" ++ line "c")%string
                    "f" SmartMerge3Text
                    {| changed_files := 0; unresolved_files := 0;
                       unmatched_files := 0; octopus_merges := 0;
                       criss_cross_merges := 0 |}));
      try reflexivity.
    discriminate.
  - apply (proj2 (@merge_file_one_sided_change SpecMdiff.mdiff
                    example_reporting
                    (line "a" ++ line "x" ++ line "c")%string
                    (line "a" ++ line "b" ++ line "c")%string
                    "f" PlainMerge3Text
                    {| changed_files := 0; unresolved_files := 0;
                       unmatched_files := 0; octopus_merges := 0;
                       criss_cross_merges := 0 |}));
      try reflexivity.
    discriminate.
Defined.

(** ** Words as lines *)

Lemma escaped_cons x w :
  Py.replace LF (String BACKSLASH (String "n"%char EmptyString))
    (Py.replace BACKSLASH (String BACKSLASH (String BACKSLASH EmptyString))
       (String x w))
  = (let rest :=
       Py.replace LF (String BACKSLASH (String "n"%char EmptyString))
         (Py.replace BACKSLASH (String BACKSLASH (String BACKSLASH EmptyString))
            w) in
     if Ascii.eqb x BACKSLASH then String BACKSLASH (String BACKSLASH rest)
     else if Ascii.eqb x LF then String BACKSLASH (String "n"%char rest)
     else String x rest).
Proof.
  cbv zeta. cbn [Py.replace].
  destruct (Ascii.eqb_spec x BACKSLASH) as [->|Hx]; [reflexivity|].
  cbn [Py.replace]. now destruct (Ascii.eqb x LF).
Qed.

Lemma escaped_no_newline w :
  has_byte LF
    (Py.replace LF (String BACKSLASH (String "n"%char EmptyString))
       (Py.replace BACKSLASH (String BACKSLASH (String BACKSLASH EmptyString)) w))
  = false.
Proof.
  induction w as [|x w IH]; [reflexivity|].
  rewrite escaped_cons. cbv zeta.
  destruct (Ascii.eqb_spec x BACKSLASH) as [->|Hx]; [exact IH|].
  destruct (Ascii.eqb_spec x LF) as [->|Hl]; [exact IH|].
  cbn [has_byte]. rewrite IH.
  destruct (Ascii.eqb_spec x LF); [contradiction|reflexivity].
Qed.

Lemma escaped_injective w1 : forall w2,
  Py.replace LF (String BACKSLASH (String "n"%char EmptyString))
    (Py.replace BACKSLASH (String BACKSLASH (String BACKSLASH EmptyString)) w1)
  = Py.replace LF (String BACKSLASH (String "n"%char EmptyString))
      (Py.replace BACKSLASH (String BACKSLASH (String BACKSLASH EmptyString)) w2) ->
  w1 = w2.
Proof.
  induction w1 as [|x1 w1 IH]; intros [|x2 w2]; rewrite ?escaped_cons; cbv zeta.
  - reflexivity.
  - cbn [Py.replace].
    destruct (Ascii.eqb x2 BACKSLASH); [discriminate|].
    destruct (Ascii.eqb x2 LF); discriminate.
  - cbn [Py.replace].
    destruct (Ascii.eqb x1 BACKSLASH); [discriminate|].
    destruct (Ascii.eqb x1 LF); discriminate.
  - destruct (Ascii.eqb_spec x1 BACKSLASH) as [->|H1];
      destruct (Ascii.eqb_spec x2 BACKSLASH) as [->|H2].
    + intros H. injection H as H. f_equal. now apply IH.
    + destruct (Ascii.eqb_spec x2 LF) as [->|L2]; intros H.
      * discriminate H.
      * injection H as H _. now subst x2.
    + destruct (Ascii.eqb_spec x1 LF) as [->|L1]; intros H.
      * discriminate H.
      * injection H as H _. now subst x1.
    + destruct (Ascii.eqb_spec x1 LF) as [->|L1];
        destruct (Ascii.eqb_spec x2 LF) as [->|L2]; intros H.
      * injection H as H. f_equal. now apply IH.
      * injection H as H _. now subst x2.
      * injection H as H _. now subst x1.
      * injection H as -> H. f_equal. now apply IH.
Qed.

Lemma first_line_unique body1 : forall body2 rest1 rest2,
  has_byte LF body1 = false -> has_byte LF body2 = false ->
  (body1 ++ nl ++ rest1)%string = (body2 ++ nl ++ rest2)%string ->
  body1 = body2 /\ rest1 = rest2.
Proof.
  induction body1 as [|x body1 IH]; intros [|y body2] rest1 rest2 H1 H2 H;
    cbn [String.append nl] in H.
  - injection H as H. now split.
  - injection H as <- _. cbn [has_byte] in H2.
    rewrite Ascii.eqb_refl in H2. discriminate H2.
  - injection H as -> _. cbn [has_byte] in H1.
    rewrite Ascii.eqb_refl in H1. discriminate H1.
  - injection H as -> H. cbn [has_byte] in H1, H2.
    apply orb_false_iff in H1 as [_ H1]. apply orb_false_iff in H2 as [_ H2].
    destruct (IH body2 rest1 rest2 H1 H2 H) as [-> ->]. now split.
Qed.

(** X16. In [enforced] mode [find_sync_regions] turns each word into
    one line for the matcher: the escaped word ends with its only
    newline, different words give different lines, and the text handed
    to the matcher determines the list of words. *)
Theorem escape_gives_one_line_per_word :
  (forall word,
      exists body,
        escape word = (body ++ nl)%string /\ has_byte LF body = false)
  /\ (forall w1 w2, escape w1 = escape w2 -> w1 = w2)
  /\ (forall words1 words2,
         concat_escaped words1 = concat_escaped words2 -> words1 = words2).
Proof.
  assert (forall w1 w2, escape w1 = escape w2 -> w1 = w2) as Hinj.
  { unfold escape. intros w1 w2 H. apply escaped_injective.
    destruct (first_line_unique _ _ EmptyString EmptyString
                (escaped_no_newline w1) (escaped_no_newline w2)) as [Hb _];
      [|exact Hb].
    cbn [String.append nl]. exact H. }
  split_all.
  - intros word. eexists. split; [reflexivity|]. apply escaped_no_newline.
  - exact Hinj.
  - unfold concat_escaped. induction words1 as [|w1 words1 IH];
      intros [|w2 words2]; cbn [map]; rewrite ?join_cons.
    + reflexivity.
    + unfold escape at 1. intros H.
      destruct (Py.replace _ _ _); discriminate H.
    + unfold escape at 1. intros H.
      destruct (Py.replace _ _ _); discriminate H.
    + unfold escape at 1 3. rewrite !append_assoc. intros H.
      apply first_line_unique in H as [Hbody Hrest];
        try apply escaped_no_newline.
      apply escaped_injective in Hbody as ->. f_equal. now apply IH.
Qed.

(** ** Counting conflicts *)

Section Counting.

Context {md : Mdiff}.
Variable tw : bytes -> bytes -> bytes -> result (option bytes).
Variable self : Merge3Text.
Variables sm mm em bm : option bytes.
Variable newline : bytes.
Variable lo : option string.

Lemma render_region_counts t st :
  let st' := fst (render_region tw self sm mm em bm newline lo t st) in
  conflictscount st <= conflictscount st'
  <= conflictscount st + (if counted lo t then 1 else 0).
Proof.
  cbv zeta.
  assert (forall g : gen, same_flags st (fst (g st)) ->
            conflictscount st <= conflictscount (fst (g st))
            <= conflictscount st + (if counted lo t then 1 else 0)) as Hkept.
  { intros g [_ ->]. destruct (counted lo t); lia. }
  destruct t; cbn [render_region]; try apply Hkept, yield_range_flags.
  unfold counted. cbn [is_conflict andb].
  destruct (option_string_eqb lo "local") eqn:Hl.
  { pose proof (yield_range_flags (a self) a1 a2 st) as [_ ->]. cbn. lia. }
  destruct (option_string_eqb lo "other") eqn:Ho.
  { pose proof (yield_range_flags (b self) b1 b2 st) as [_ ->]. cbn. lia. }
  cbn [negb andb].
  pose proof (show_conflict_flags self sm mm em bm newline z1 z2 a1 a2 b1 b2 st)
    as [_ Hshow].
  destruct (wordmerge self).
  - cbn. lia.
  - destruct (tw _ _ _) as [[resolved|]|e]; [|lia|cbn; lia].
    destruct (Py.truthy (Some resolved)); [|lia].
    rewrite yield_merged_lines. cbn. lia.
  - lia.
Qed.

Lemma for_each_counts rs : forall st,
  let st' := fst (for_each rs (render_region tw self sm mm em bm newline lo) st) in
  conflictscount st <= conflictscount st' <= conflictscount st + count_of lo rs.
Proof.
  cbv zeta. induction rs as [|t rs IH]; intros st.
  - cbn. unfold count_of. cbn. lia.
  - cbn [for_each]. unfold and_then. rewrite count_of_cons.
    pose proof (render_region_counts t st) as Ht. cbv zeta in Ht.
    pose proof (count_of_nonneg lo rs).
    destruct (render_region _ _ _ _ _ _ _ _ t st) as [st1 [e|]]; cbn [fst] in *.
    + lia.
    + specialize (IH st1). lia.
Qed.

Lemma for_each_counts_disabled rs : forall st st',
  wordmerge self = disabled ->
  for_each rs (render_region tw self sm mm em bm newline lo) st = (st', None) ->
  conflictscount st' = conflictscount st + count_of lo rs.
Proof.
  induction rs as [|t rs IH]; intros st st' Hmode Hrun.
  - cbn in Hrun. unfold pass in Hrun. injection Hrun as <-.
    unfold count_of. cbn. lia.
  - cbn [for_each] in Hrun. apply and_then_None in Hrun as (st1 & H1 & H2).
    rewrite count_of_cons, (IH _ _ Hmode H2).
    enough (conflictscount st1
            = conflictscount st + (if counted lo t then 1 else 0)) by lia.
    assert (forall g : gen, same_flags st (fst (g st)) -> g st = (st1, None) ->
              conflictscount st1 = conflictscount st) as Hkept.
    { intros g Hg Hgrun. rewrite Hgrun in Hg. now destruct Hg. }
    unfold counted.
    destruct t; cbn [render_region is_conflict andb] in *;
      try (rewrite (Hkept _ (yield_range_flags _ _ _ _) H1); lia).
    destruct (option_string_eqb lo "local").
    { rewrite (Hkept _ (yield_range_flags _ _ _ _) H1). cbn. lia. }
    destruct (option_string_eqb lo "other").
    { rewrite (Hkept _ (yield_range_flags _ _ _ _) H1). cbn. lia. }
    rewrite Hmode in H1. cbn [negb andb].
    pose proof (show_conflict_flags self sm mm em bm newline z1 z2 a1 a2 b1 b2 st)
      as [_ Hshow].
    cbv zeta in Hshow. rewrite H1 in Hshow. exact Hshow.
Qed.

Lemma minimize_region_count t l :
  minimize_region self t = Ok l -> count_of lo l = count_of lo [t].
Proof.
  destruct t; cbn [minimize_region]; intros H;
    try (injection H as <-; reflexivity).
  apply bind_Ok in H as (s & _ & H). apply bind_Ok in H as (e & _ & H).
  injection H as <-.
  destruct (0 <? s); destruct (0 <? e); unfold count_of, counted;
    cbn [filter app is_conflict andb];
    destruct (negb _ && negb _); reflexivity.
Qed.

Lemma minimize_list_count rs tail :
  count_of lo (fst (minimize_list self rs tail)) <= count_of lo rs
  /\ (snd (minimize_list self rs tail) = None ->
      count_of lo (fst (minimize_list self rs tail)) = count_of lo rs).
Proof.
  induction rs as [|t rs [IHle IHeq]]; cbn [minimize_list].
  - cbn [fst snd]. split; [lia|reflexivity].
  - rewrite (count_of_cons lo t rs).
    destruct (minimize_region self t) as [l|e] eqn:Hl.
    + unfold sapp. cbn [fst snd]. rewrite count_of_app.
      rewrite (minimize_region_count _ _ Hl), count_of_cons.
      assert (count_of lo [] = 0) as -> by reflexivity.
      split; [lia|]. intros H. rewrite (IHeq H). lia.
    + cbn [sraise fst snd]. split; [|discriminate].
      pose proof (count_of_nonneg lo rs).
      assert (count_of lo [] = 0) as -> by reflexivity.
      destruct (counted lo t); lia.
Qed.

End Counting.

(** X17. [merge_lines] counts at most one conflict for each conflict
    region [merge_regions] yields, in every word-merge mode, with or
    without [minimize], and also when the run ends in an exception;
    none when a side is forced.  With word merge [disabled], a run that
    reaches its end counts exactly the conflict regions. *)
Theorem conflict_count_bounded_by_regions {md : Mdiff} (self : Merge3Text)
    (args : Args.t) :
  let r := merge_lines self args in
  let conflict_regions :=
    Z.of_nat (List.length (filter is_conflict (fst (merge_regions self)))) in
  0 <= conflictscount (fst r) <= conflict_regions
  /\ (~ unforced (Args.localorother args) -> conflictscount (fst r) = 0)
  /\ (wordmerge self = disabled -> unforced (Args.localorother args) ->
      snd r = None -> conflictscount (fst r) = conflict_regions).
Proof.
  cbv zeta.
  assert (forall rs,
             count_of (Args.localorother args) rs
             <= Z.of_nat (List.length (filter is_conflict rs))) as Hle.
  { intros rs. unfold count_of, counted. induction rs as [|t rs IH];
      cbn [filter List.length]; [lia|].
    destruct (is_conflict t); cbn [andb].
    - destruct (negb _ && negb _); cbn [List.length]; lia.
    - exact IH. }
  assert (forall rs,
             unforced (Args.localorother args) ->
             count_of (Args.localorother args) rs
             = Z.of_nat (List.length (filter is_conflict rs))) as Heq.
  { intros rs [Hl Ho]. unfold count_of, counted. rewrite Hl, Ho.
    do 2 f_equal. apply filter_ext. intros t. cbn. now rewrite !andb_true_r. }
  assert (forall rs,
             ~ unforced (Args.localorother args) ->
             count_of (Args.localorother args) rs = 0) as Hzero.
  { intros rs Hforced. unfold count_of, counted, unforced in *.
    replace (filter _ rs) with (@nil region); [reflexivity|].
    symmetry. induction rs as [|t rs IH]; [reflexivity|]. cbn [filter].
    destruct (option_string_eqb (Args.localorother args) "local");
      destruct (option_string_eqb (Args.localorother args) "other");
      rewrite ?andb_false_r; try exact IH.
    exfalso. apply Hforced. now split. }
  unfold merge_lines, merge_lines_at, merge_lines_with, consume, and_then.
  set (regions := if Args.minimize args then minimize self (merge_regions self)
                  else merge_regions self).
  assert (count_of (Args.localorother args) (fst regions)
          <= count_of (Args.localorother args) (fst (merge_regions self))
          /\ (snd regions = None ->
              count_of (Args.localorother args) (fst regions)
              = count_of (Args.localorother args) (fst (merge_regions self))))
    as [Hmin Hmineq].
  { subst regions. destruct (Args.minimize args); [|split; [lia|reflexivity]].
    apply minimize_list_count. }
  match goal with
  | |- context [for_each (fst regions) ?body ?st] =>
      pose proof (for_each_counts (trywordmerge_at 1) self
                    (labelled (Args.start_marker args) (Args.name_a args))
                    (Args.mid_marker args)
                    (labelled (Args.end_marker args) (Args.name_b args))
                    (labelled (Args.base_marker args) (Args.name_base args))
                    (sniff_newline self) (Args.localorother args)
                    (fst regions) st) as Hcount;
      pose proof (for_each_counts_disabled (trywordmerge_at 1) self
                    (labelled (Args.start_marker args) (Args.name_a args))
                    (Args.mid_marker args)
                    (labelled (Args.end_marker args) (Args.name_b args))
                    (labelled (Args.base_marker args) (Args.name_base args))
                    (sniff_newline self) (Args.localorother args)
                    (fst regions) st) as Hexact;
      cbv zeta in Hcount; cbn [conflictscount] in Hcount, Hexact;
      destruct (for_each (fst regions) body st) as [st' [e|]]
  end; cbn [fst snd] in *.
  - split; [|split].
    + specialize (Hle (fst (merge_regions self))). lia.
    + intros Hforced. rewrite (Hzero _ Hforced) in Hcount. lia.
    + discriminate.
  - assert (conflictscount
              (fst (match snd regions with
                    | Some e => raise e
                    | None => pass
                    end st')) = conflictscount st') as ->
      by now destruct (snd regions).
    split; [|split].
    + specialize (Hle (fst (merge_regions self))). lia.
    + intros Hforced. rewrite (Hzero _ Hforced) in Hcount. lia.
    + intros Hmode Hunforced Hdone.
      assert (snd regions = None) as Htail
        by (destruct (snd regions); [discriminate Hdone|reflexivity]).
      rewrite (Hexact st' Hmode eq_refl), (Hmineq Htail).
      rewrite (Heq _ Hunforced). lia.
Qed.

(** ** What the regions mean *)

Section Meaning.

Context {md : Mdiff}.
Variable self : Merge3Text.

Lemma classify_gap_spec iz zm ia am ib bm :
  0 <= iz <= zm -> zm <= Py.len (base self) ->
  0 <= ia <= am -> am <= Py.len (a self) ->
  0 <= ib <= bm -> bm <= Py.len (b self) ->
  let in_a := Py.slice (a self) ia am in
  let in_b := Py.slice (b self) ib bm in
  let in_base := Py.slice (base self) iz zm in
  exists g,
    classify_gap self iz zm ia am ib bm = Ok g
    /\ (g = Same ia am <-> in_a = in_b)
    /\ (g = TakeB ib bm <-> in_a = in_base /\ in_b <> in_base)
    /\ (g = TakeA ia am <-> in_b = in_base /\ in_a <> in_base)
    /\ (g = Conflict iz zm ia am ib bm
        <-> in_a <> in_base /\ in_b <> in_base /\ in_a <> in_b).
Proof.
  intros Hz1 Hz2 Ha1 Ha2 Hb1 Hb2. cbv zeta. unfold classify_gap.
  rewrite !compare_range_slices by lia. rewrite !bind_of_Ok.
  destruct (Py.tokens_eqb (Py.slice (a self) ia am) (Py.slice (b self) ib bm))
    eqn:Hsame;
    destruct (Py.tokens_eqb (Py.slice (a self) ia am)
                (Py.slice (base self) iz zm)) eqn:Ha;
    destruct (Py.tokens_eqb (Py.slice (b self) ib bm)
                (Py.slice (base self) iz zm)) eqn:Hb;
    cbn [andb negb];
    repeat match goal with
           | H : Py.tokens_eqb _ _ = true |- _ =>
               apply PyFacts.tokens_eqb_true in H
           | H : Py.tokens_eqb ?x ?y = false |- _ =>
               assert (x <> y)
                 by (intros Heq; apply PyFacts.tokens_eqb_true in Heq;
                     congruence);
               clear H
           end;
    try (eexists; split; [reflexivity|];
         split_all; split; intros; split_all;
         try discriminate; try reflexivity; try assumption; try tauto;
         congruence).
  exfalso. congruence.
Qed.

Lemma regions_loop_real_conflicts syncs : forall iz ia ib,
  0 <= iz -> 0 <= ia -> 0 <= ib ->
  ascending_syncs iz ia ib syncs -> Forall (sync_within self) syncs ->
  Forall (real_conflict self) (fst (regions_loop self syncs iz ia ib)).
Proof.
  induction syncs as [|[[[[[zm ze] am] ae] bm] be] rest IH];
    intros iz ia ib Hz Ha Hb Hasc Hin; [constructor|].
  cbn [ascending_syncs] in Hasc.
  destruct Hasc as (H1 & H2 & H3 & H4 & H5 & H6 & Hrest).
  apply Forall_cons_iff in Hin as [Hr Hin].
  destruct Hr as ([Hz1 Hz2] & [Ha1 Ha2] & [Hb1 Hb2]).
  assert (exists gap,
             gap_before self iz ia ib (zm, ze, am, ae, bm, be) = Ok gap
             /\ (gap = None -> ia = am /\ ib = bm)
             /\ (forall g, gap = Some g -> real_conflict self g))
    as (gap & Hgap & Hnone & Hreal).
  { rewrite gap_before_ordered by lia.
    destruct (classify_gap_spec iz zm ia am ib bm)
      as (g & Hg & _ & _ & _ & Hconflict); try lia.
    rewrite Hg, bind_of_Ok.
    assert (real_conflict self g) as Hmeans.
    { destruct (classify_gap_Ok self _ _ _ _ _ _ _ Hg)
        as [-> | [-> | [-> | ->]]]; cbn [real_conflict]; try exact I.
      now apply Hconflict. }
    destruct (Z.eqb_spec (am - ia) 0); destruct (Z.eqb_spec (bm - ib) 0);
      cbn [negb orb].
    - exists None. split_all; [reflexivity|lia|discriminate].
    - exists (Some g). split_all; [reflexivity|discriminate|congruence].
    - exists (Some g). split_all; [reflexivity|discriminate|congruence].
    - exists (Some g). split_all; [reflexivity|discriminate|congruence]. }
  erewrite regions_loop_step; [|exact Hgap|exact Hnone|lia..].
  cbn [sapp fst]. apply Forall_app. split; [apply Forall_app; split|].
  - destruct gap as [g|]; constructor; [now apply Hreal|constructor].
  - destruct (0 <? ze - zm); constructor; [exact I|constructor].
  - apply IH; try lia; assumption.
Qed.

End Meaning.

(** X18. The classifier of [merge_regions] decides by the tokens: for a
    gap within the three lists it gives "same" exactly when the two
    sides are equal, "b" (resp. "a") exactly when only [b] (resp. [a])
    differs from the base, and "conflict" exactly when both sides
    differ from the base and from each other.  So, with a matcher that
    keeps its contract, every conflict region [merge_regions] yields is
    a real conflict. *)
Theorem conflict_regions_are_real {md : Mdiff} (self : Merge3Text) :
  (forall iz zm ia am ib bm,
      0 <= iz <= zm -> zm <= Py.len (base self) ->
      0 <= ia <= am -> am <= Py.len (a self) ->
      0 <= ib <= bm -> bm <= Py.len (b self) ->
      let in_a := Py.slice (a self) ia am in
      let in_b := Py.slice (b self) ib bm in
      let in_base := Py.slice (base self) iz zm in
      exists g,
        classify_gap self iz zm ia am ib bm = Ok g
        /\ (g = Same ia am <-> in_a = in_b)
        /\ (g = TakeB ib bm <-> in_a = in_base /\ in_b <> in_base)
        /\ (g = TakeA ia am <-> in_b = in_base /\ in_a <> in_base)
        /\ (g = Conflict iz zm ia am ib bm
            <-> in_a <> in_base /\ in_b <> in_base /\ in_a <> in_b))
  /\ (matcher_contract self = true ->
      forall z1 z2 a1 a2 b1 b2,
        In (Conflict z1 z2 a1 a2 b1 b2) (fst (merge_regions self)) ->
        Py.slice (a self) a1 a2 <> Py.slice (base self) z1 z2
        /\ Py.slice (b self) b1 b2 <> Py.slice (base self) z1 z2
        /\ Py.slice (a self) a1 a2 <> Py.slice (b self) b1 b2).
Proof.
  split.
  - apply classify_gap_spec.
  - intros Hcontract z1 z2 a1 a2 b1 b2 Hin.
    destruct (find_sync_regions_total self Hcontract)
      as (sl & Hfind & Hasc & Hwithin).
    unfold merge_regions in Hin. rewrite Hfind in Hin.
    pose proof (regions_loop_real_conflicts self sl 0 0 0
                  ltac:(lia) ltac:(lia) ltac:(lia) Hasc Hwithin) as Hreal.
    rewrite Forall_forall in Hreal. apply (Hreal _ Hin).
Qed.
